(** * Emirates ID text extraction and validation

    A shallow embedding of [services/ocr_service.py] (the parsers of the
    recognised text) and [services/validation_service.py] (the scoring of the
    extracted fields), with the theorems that settle the claims made about
    them.

    Python values are modelled as the code has them: a [str] is a list of
    Unicode code points, a [dict] with string keys is a [gmap string _], a
    [float] is a binary64 primitive float, the [errors] and [warnings] lists
    that the validator mutates are threaded as state, and an exception is a
    result of its own.  The regular expressions of the source are kept as data
    and run by a backtracking matcher that follows the priorities of Python's
    [re] (greedy repetition, ordered alternation, leftmost match). *)

From Stdlib Require Import ZArith NArith List Bool Lia String Ascii.
From Stdlib Require Import PrimFloat FloatOps SpecFloat DecimalString Sorted.
From stdpp Require Import gmap strings list fin_maps.

Set Default Proof Using "Type".
Set Warnings "-inexact-float".
Open Scope N_scope.

(** ** Strings *)

(** A Python [str]: a sequence of code points. *)
Abbreviation str := (list N).

(** UTF-8 decoding, so that the literals of the source can be written as they
    are in the source, Arabic included. *)
Fixpoint utf8 (bs : list N) : str :=
  match bs with
  | [] => []
  | b :: t =>
    if b <? 128 then b :: utf8 t
    else if b <? 224 then
      match t with
      | b2 :: t' => ((b - 192) * 64 + (b2 - 128)) :: utf8 t'
      | _ => []
      end
    else if b <? 240 then
      match t with
      | b2 :: b3 :: t' =>
        ((b - 224) * 4096 + (b2 - 128) * 64 + (b3 - 128)) :: utf8 t'
      | _ => []
      end
    else
      match t with
      | b2 :: b3 :: b4 :: t' =>
        ((b - 240) * 262144 + (b2 - 128) * 4096 + (b3 - 128) * 64 + (b4 - 128))
          :: utf8 t'
      | _ => []
      end
  end.

(** [u "..."] is the [str] a literal of the source denotes. *)
Definition u (s : string) : str :=
  utf8 (map N_of_ascii (list_ascii_of_string s)).

(** [a == b] *)
Fixpoint str_eqb (a b : str) : bool :=
  match a, b with
  | [], [] => true
  | x :: a', y :: b' => (x =? y) && str_eqb a' b'
  | _, _ => false
  end.

(** [sub in s]. *)
Fixpoint starts_with (p s : str) : bool :=
  match p, s with
  | [], _ => true
  | a :: p', b :: s' => (a =? b) && starts_with p' s'
  | _ :: _, [] => false
  end.

Fixpoint contains (sub s : str) : bool :=
  starts_with sub s ||
  match s with
  | [] => false
  | _ :: s' => contains sub s'
  end.

(** [s.find(sub)]: the lowest index of an occurrence, or -1. *)
Fixpoint find_from (sub s : str) (i : Z) : Z :=
  if starts_with sub s then i
  else match s with
       | [] => (-1)%Z
       | _ :: s' => find_from sub s' (i + 1)%Z
       end.

Definition find (s sub : str) : Z := find_from sub s 0%Z.

(** [s.replace(a, b)] for one-character [a] and [b]. *)
Definition replace (a b : N) (s : str) : str :=
  map (fun c => if c =? a then b else c) s.

(** [s[lo:hi]] for [0 <= lo]; a negative [hi] counts from the end, as Python's
    slices do. *)
Definition slice (s : str) (lo hi : Z) : str :=
  let n := Z.of_nat (length s) in
  let hi' := if (hi <? 0)%Z then Z.max 0 (hi + n) else hi in
  take (Z.to_nat (hi' - lo)) (drop (Z.to_nat lo) s).

(** ** The Unicode database

    The rows of ASCII are written out.  The rows of the other code points are
    those of Python's [unicodedata], which is not part of the repository: they
    are a parameter of the development. *)

Class UnicodeData := {
  (** Digit value of a code point of category Nd above U+007F. *)
  uni_decimal : N → option N;
  (** [str.isalnum] above U+007F. *)
  uni_alnum : N → bool;
  (** Simple case mappings above U+007F, as [re.IGNORECASE] uses them. *)
  uni_lower : N → N;
  uni_upper : N → N;
  (** [str.lower] of a string that is not pure ASCII. *)
  uni_str_lower : str → str
}.

Definition in_range (lo hi c : N) : bool := (lo <=? c) && (c <=? hi).

Definition is_ascii (c : N) : bool := c <? 128.

Section Unicode.
Context `{UnicodeData}.

(** [\d] of a [str] pattern: a decimal digit of any script. *)
Definition decimal_value (c : N) : option N :=
  if is_ascii c then (if in_range 48 57 c then Some (c - 48) else None)
  else uni_decimal c.

Definition isdecimal (c : N) : bool :=
  match decimal_value c with Some _ => true | None => false end.

(** [\w]: alphanumeric or the underscore; every decimal digit is
    alphanumeric. *)
Definition isword (c : N) : bool :=
  if is_ascii c
  then in_range 48 57 c || in_range 65 90 c || in_range 97 122 c || (c =? 95)
  else isdecimal c || uni_alnum c.

Definition tolower (c : N) : N :=
  if is_ascii c then (if in_range 65 90 c then c + 32 else c) else uni_lower c.

Definition toupper (c : N) : N :=
  if is_ascii c then (if in_range 97 122 c then c - 32 else c) else uni_upper c.

(** [s.lower()]. *)
Definition lower (s : str) : str :=
  if forallb is_ascii s then map tolower s else uni_str_lower s.

End Unicode.

(** [\s] and [str.isspace]: Unicode white space. *)
Definition isspace (c : N) : bool :=
  in_range 9 13 c || in_range 28 32 c || (c =? 133) || (c =? 160)
  || (c =? 5760) || in_range 8192 8202 c || (c =? 8232) || (c =? 8233)
  || (c =? 8239) || (c =? 8287) || (c =? 12288).

(** [s.strip()]. *)
Fixpoint lstrip (s : str) : str :=
  match s with
  | c :: s' => if isspace c then lstrip s' else s
  | [] => []
  end.

Definition strip (s : str) : str := rev (lstrip (rev (lstrip s))).

(** The rows used to run the parsers on concrete texts: the Arabic block (the
    reader is set up for English and Arabic), no cased letter above ASCII. *)
#[global] Instance arabic_rows : UnicodeData := {|
  uni_decimal c :=
    if in_range 1632 1641 c then Some (c - 1632)
    else if in_range 1776 1785 c then Some (c - 1776)
    else None;
  uni_alnum c := in_range 1568 1610 c || in_range 1646 1747 c;
  uni_lower c := c;
  uni_upper c := c;
  uni_str_lower s := map (fun c => if in_range 65 90 c then c + 32 else c) s
|}.

(** ** Regular expressions

    The patterns of the source, as data.  [RRep lo hi r] is the greedy
    repetition [r{lo,hi}] ([hi = None]: unbounded), [RGroup n r] the capturing
    group number [n], [RBos] is [^] and [REos] is [$] (without MULTILINE),
    [RWordB] is [\b]. *)

Inductive citem :=
| CLit (c : N)
| CRange (lo hi : N)
| CDigit
| CSpace.

Inductive regex :=
| REmpty
| RChar (c : N)
| RSet (items : list citem)
| RCat (r1 r2 : regex)
| RAlt (r1 r2 : regex)
| RRep (lo : nat) (hi : option nat) (r : regex)
| RGroup (n : nat) (r : regex)
| RBos
| REos
| RWordB.

Definition seq (rs : list regex) : regex := foldr RCat REmpty rs.
Definition alt (r : regex) (rs : list regex) : regex := foldl RAlt r rs.
Definition lit (s : string) : regex := seq (map RChar (u s)).
Definition opt (r : regex) : regex := RRep 0 (Some 1%nat) r.
Definition times (n : nat) (r : regex) : regex := RRep n (Some n) r.
Definition plus (r : regex) : regex := RRep 1 None r.
Definition star (r : regex) : regex := RRep 0 None r.
Definition digit : regex := RSet [CDigit].

(** Captured groups, most recent first. *)
Abbreviation caps := (list (nat * str)).

Definition group (n : nat) (cs : caps) : option str :=
  snd <$> List.find (fun g => Nat.eqb (fst g) n) cs.

(** The character before a position, after the word [w] has been read. *)
Definition lastc (prev : option N) (w : str) : option N :=
  match last w with Some c => Some c | None => prev end.

(** [$]: at the end, or before a newline that ends the string. *)
Definition at_end (s : str) : bool :=
  match s with
  | [] => true
  | [c] => c =? 10
  | _ => false
  end.

Section Matcher.
Context `{UnicodeData}.

(** A literal and a range under the flag: with [re.IGNORECASE] a character
    matches when one of its case mappings does. *)
Definition char_eq (ic : bool) (c x : N) : bool :=
  (x =? c) || (ic && (tolower x =? tolower c)).

Definition range_has (ic : bool) (lo hi x : N) : bool :=
  in_range lo hi x
  || (ic && (in_range lo hi (tolower x) || in_range lo hi (toupper x))).

Definition item_has (ic : bool) (it : citem) (x : N) : bool :=
  match it with
  | CLit c => char_eq ic c x
  | CRange lo hi => range_has ic lo hi x
  | CDigit => isdecimal x
  | CSpace => isspace x
  end.

Definition set_has (ic : bool) (items : list citem) (x : N) : bool :=
  existsb (fun it => item_has ic it x) items.

Definition word_at (o : option N) : bool :=
  match o with Some c => isword c | None => false end.

(** [\b]: exactly one of the two neighbours is a word character. *)
Definition boundary (prev : option N) (s : str) : bool :=
  xorb (word_at prev) (word_at (head s)).

Section Run.
Context {A : Type}.

(** What is left to match: the character before, the rest of the text and
    the groups captured so far. *)
Definition cont := option N → str → caps → option A.

(** Greedy repetition of [body]: one more iteration is tried first, and an
    iteration must consume; [fuel] bounds the iterations, and the length of
    the text is enough of it. *)
Fixpoint rep (body : option N → str → caps → cont → option A)
    (fuel lo : nat) (hi : option nat)
    (prev : option N) (s : str) (cs : caps) (k : cont) : option A :=
  match fuel with
  | O => None
  | S fuel' =>
    let more :=
      match hi with
      | Some O => None
      | _ =>
        body prev s cs (fun p s' cs' =>
          if (length s' <? length s)%nat
          then rep body fuel' (pred lo) (pred <$> hi) p s' cs' k
          else None)
      end in
    match more with
    | Some x => Some x
    | None => if Nat.eqb lo 0 then k prev s cs else None
    end
  end.

(** The backtracking matcher, in continuation-passing style: the first
    success in priority order is the result. *)
Fixpoint rx (ic : bool) (r : regex) (prev : option N) (s : str) (cs : caps)
    (k : cont) {struct r} : option A :=
  match r with
  | REmpty => k prev s cs
  | RChar c =>
    match s with
    | x :: s' => if char_eq ic c x then k (Some x) s' cs else None
    | [] => None
    end
  | RSet items =>
    match s with
    | x :: s' => if set_has ic items x then k (Some x) s' cs else None
    | [] => None
    end
  | RCat r1 r2 => rx ic r1 prev s cs (fun p s' cs' => rx ic r2 p s' cs' k)
  | RAlt r1 r2 =>
    match rx ic r1 prev s cs k with
    | Some x => Some x
    | None => rx ic r2 prev s cs k
    end
  | RRep lo hi r1 => rep (rx ic r1) (S (length s)) lo hi prev s cs k
  | RGroup n r1 =>
    rx ic r1 prev s cs (fun p s' cs' =>
      k p s' ((n, take (length s - length s') s) :: cs'))
  | RBos => match prev with None => k prev s cs | Some _ => None end
  | REos => if at_end s then k prev s cs else None
  | RWordB => if boundary prev s then k prev s cs else None
  end.

End Run.

(** A match: the text matched, what follows it, and the groups. *)
Record rmatch := { m_text : str; m_rest : str; m_groups : caps }.

(** The match that starts at the current position, if there is one. *)
Definition match_at (ic : bool) (r : regex) (prev : option N) (s : str)
    : option rmatch :=
  rx ic r prev s [] (fun _ rest cs =>
    Some {| m_text := take (length s - length rest) s;
            m_rest := rest; m_groups := cs |}).

(** [Pattern.match]: a match at the start of the string. *)
Definition re_match (ic : bool) (r : regex) (s : str) : option rmatch :=
  match_at ic r None s.

(** [re.search]: the leftmost match. *)
Fixpoint search_from (ic : bool) (r : regex) (prev : option N) (s : str)
    : option rmatch :=
  match match_at ic r prev s with
  | Some m => Some m
  | None =>
    match s with
    | [] => None
    | c :: s' => search_from ic r (Some c) s'
    end
  end.

Definition search (ic : bool) (r : regex) (s : str) : option rmatch :=
  search_from ic r None s.

(** [re.finditer]: the matches from left to right, none overlapping another,
    each with its offset.  [skip] counts the characters of the last match
    still to pass over.  (After an empty match the scan moves on by one
    character; no pattern of the source that is scanned matches the empty
    word.) *)
Fixpoint finditer_from (ic : bool) (r : regex) (prev : option N) (s : str)
    (skip pos : nat) : list (nat * str) :=
  match skip with
  | S n =>
    match s with
    | [] => []
    | c :: s' => finditer_from ic r (Some c) s' n (S pos)
    end
  | O =>
    match match_at ic r prev s with
    | Some m =>
      (pos, m_text m) ::
      match s with
      | [] => []
      | c :: s' =>
        finditer_from ic r (Some c) s' (pred (length (m_text m))) (S pos)
      end
    | None =>
      match s with
      | [] => []
      | c :: s' => finditer_from ic r (Some c) s' 0 (S pos)
      end
    end
  end.

Definition finditer (ic : bool) (r : regex) (s : str) : list (nat * str) :=
  finditer_from ic r None s 0 0.

(** [re.findall] of a pattern without groups: the matched texts. *)
Definition findall (ic : bool) (r : regex) (s : str) : list str :=
  snd <$> finditer ic r s.

End Matcher.

(** ** Values and dictionaries

    The extracted data is a [dict] from field names to strings.  The validator
    takes any [dict]: a value that is not a [str] (a number, a list, [None])
    is kept with the name of its type and its truth value, which is all the
    validator can observe of it before it raises. *)

Inductive pyval :=
| VStr (s : str)
| VOther (tyname : str) (truthy : bool).

Definition truthy_val (v : pyval) : bool :=
  match v with
  | VStr s => negb (str_eqb s [])
  | VOther _ b => b
  end.

(** [if data.get(key):] *)
Definition truthy (o : option pyval) : bool :=
  match o with Some v => truthy_val v | None => false end.

Definition ch (s : string) : N := default 0 (head (u s)).

(** ** [OCRService]: the parsers of the recognised text *)

Module OCRService.
Section Parsers.
Context `{UnicodeData}.

(** [r'784[-\s]?\d{4}[-\s]?\d{7}[-\s]?\d{1}'] *)
Definition id_sep : regex := RSet [CLit (ch "-"); CSpace].

Definition id_pattern : regex :=
  seq [lit "784"; opt id_sep; times 4 digit; opt id_sep; times 7 digit;
       opt id_sep; times 1 digit].

(** [r'\d{1,2}[/-]\d{1,2}[/-]\d{4}'] *)
Definition date_sep : regex := RSet [CLit (ch "/"); CLit (ch "-")].

Definition date_pattern : regex :=
  seq [RRep 1 (Some 2%nat) digit; date_sep; RRep 1 (Some 2%nat) digit;
       date_sep; times 4 digit].

(** [[A-Z][a-z]+(?:\s+[A-Z][a-z]+)+] *)
Definition upper_az : regex := RSet [CRange (ch "A") (ch "Z")].
Definition lower_az : regex := RSet [CRange (ch "a") (ch "z")].

Definition capitalized_words : regex :=
  seq [upper_az; plus lower_az;
       plus (seq [plus (RSet [CSpace]); upper_az; plus lower_az])].

Definition label_sep : regex := RSet [CLit (ch ":"); CSpace].

(** [r'(?:name|اسم)[:\s]+([A-Z][a-z]+(?:\s+[A-Z][a-z]+)+)'] and
    [r'^([A-Z][a-z]+(?:\s+[A-Z][a-z]+)+)'] *)
Definition name_patterns : list regex :=
  [ seq [alt (lit "name") [lit "اسم"]; plus label_sep;
         RGroup 1 capitalized_words];
    seq [RBos; RGroup 1 capitalized_words] ].

(** [r'[؀-ۿ\s]+'] *)
Definition arabic_pattern : regex := plus (RSet [CRange 1536 1791; CSpace]).

(** [r'\b(male|m|ذكر)\b'] and [r'\b(female|f|أنثى)\b'] *)
Definition male_pattern : regex :=
  seq [RWordB; RGroup 1 (alt (lit "male") [lit "m"; lit "ذكر"]); RWordB].

Definition female_pattern : regex :=
  seq [RWordB; RGroup 1 (alt (lit "female") [lit "f"; lit "أنثى"]); RWordB].

(** [r'(?:issue|issued|تاريخ\s*الإصدار)[:\s]+(\d{1,2}[/-]\d{1,2}[/-]\d{4})'] *)
Definition issue_pattern : regex :=
  seq [alt (lit "issue")
         [lit "issued";
          seq [lit "تاريخ"; star (RSet [CSpace]); lit "الإصدار"]];
       plus label_sep; RGroup 1 date_pattern].

(** [r'\b\d{9,}\b'] *)
Definition card_number_pattern : regex :=
  seq [RWordB; RRep 9 None digit; RWordB].

Definition nationality_keywords : list string :=
  ["Filipino"; "Indian"; "Pakistani"; "Bangladeshi"; "Egyptian"; "Lebanese"]
  %string.

(** [match.group(1)] *)
Definition group1 (m : rmatch) : str := default [] (group 1 (m_groups m)).

(** [max(matches, key=len)]: the first of the longest; a later match
    replaces the best so far only when it is longer. *)
Definition longer (best y : str) : str :=
  if (length best <? length y)%nat then y else best.

Definition max_by_len (l : list str) : option str :=
  match l with
  | [] => None
  | x :: t => Some (foldl longer x t)
  end.

(** The loop over [name_patterns]: the first pattern that is found gives the
    name. *)
Fixpoint first_name (patterns : list regex) (raw_text : str) : option str :=
  match patterns with
  | [] => None
  | pattern :: rest =>
    match search true pattern raw_text with
    | Some name_match => Some (strip (group1 name_match))
    | None => first_name rest raw_text
    end
  end.

(** The loop over [nationality_keywords]. *)
Fixpoint first_keyword (keywords : list string) (raw_text : str)
    : option string :=
  match keywords with
  | [] => None
  | keyword :: rest =>
    if contains (lower (u keyword)) (lower raw_text) then Some keyword
    else first_keyword rest raw_text
  end.

(** The blocks of [_parse_front_side], under the comments that head them in
    the source; each takes the dictionary built so far. *)

(** [# Extract ID Number (format: 784-XXXX-XXXXXXX-X)] *)
Definition parse_id_number (raw_text : str) (data : gmap string pyval)
    : gmap string pyval :=
  match search false id_pattern raw_text with
  | Some id_match =>
    <["idNumber" := VStr (replace (ch " ") (ch "-") (m_text id_match))]> data
  | None => data
  end.

(** [# Extract dates (DD/MM/YYYY or DD-MM-YYYY format)] *)
Definition parse_dates (raw_text : str) (data : gmap string pyval)
    : gmap string pyval :=
  let dates := findall false date_pattern raw_text in
  match dates with
  | d0 :: d1 :: _ =>
    <["expiryDate" := VStr d1]> (<["dateOfBirth" := VStr d0]> data)
  | [d0] =>
    if contains (u "expiry") (lower raw_text)
       || contains (u "exp") (lower raw_text)
    then <["expiryDate" := VStr d0]> data
    else <["dateOfBirth" := VStr d0]> data
  | [] => data
  end.

(** [# Extract name (usually first line or after "Name" label)] *)
Definition parse_name (raw_text : str) (data : gmap string pyval)
    : gmap string pyval :=
  match first_name name_patterns raw_text with
  | Some name => <["name" := VStr name]> data
  | None => data
  end.

(** [# Extract Arabic name (contains Arabic characters)] *)
Definition parse_arabic_name (raw_text : str) (data : gmap string pyval)
    : gmap string pyval :=
  match max_by_len (findall false arabic_pattern raw_text) with
  | Some longest =>
    let arabic_name := strip longest in
    if (3 <? length arabic_name)%nat
    then <["nameArabic" := VStr arabic_name]> data
    else data
  | None => data
  end.

(** [# Extract nationality] *)
Definition parse_nationality (raw_text : str) (data : gmap string pyval)
    : gmap string pyval :=
  match first_keyword nationality_keywords raw_text with
  | Some keyword => <["nationality" := VStr (u keyword)]> data
  | None => data
  end.

(** [# Extract gender] *)
Definition parse_gender (raw_text : str) (data : gmap string pyval)
    : gmap string pyval :=
  match search true male_pattern raw_text with
  | Some _ => <["gender" := VStr (u "Male")]> data
  | None =>
    match search true female_pattern raw_text with
    | Some _ => <["gender" := VStr (u "Female")]> data
    | None => data
    end
  end.

(** [# Extract issue date] *)
Definition parse_issue_date (raw_text : str) (data : gmap string pyval)
    : gmap string pyval :=
  match search true issue_pattern raw_text with
  | Some issue_match => <["issueDate" := VStr (group1 issue_match)]> data
  | None => data
  end.

(** [_parse_front_side(ocr_results, raw_text)]; [ocr_results] is not read by
    the function and is left out. *)
Definition _parse_front_side (raw_text : str) : gmap string pyval :=
  let data : gmap string pyval := ∅ in
  let data := parse_id_number raw_text data in
  let data := parse_dates raw_text data in
  let data := parse_name raw_text data in
  let data := parse_arabic_name raw_text data in
  let data := parse_nationality raw_text data in
  let data := parse_gender raw_text data in
  let data := parse_issue_date raw_text data in
  data.

(** [# Extract card number (usually a long number)] *)
Definition parse_card_number (raw_text : str) (data : gmap string pyval)
    : gmap string pyval :=
  match max_by_len (findall false card_number_pattern raw_text) with
  | Some longest => <["cardNumber" := VStr longest]> data
  | None => data
  end.

(** [_parse_back_side(ocr_results, raw_text)]; its ID number block is the one
    of the front side, statement for statement. *)
Definition _parse_back_side (raw_text : str) : gmap string pyval :=
  let data : gmap string pyval := ∅ in
  let data := parse_card_number raw_text data in
  let data := parse_id_number raw_text data in
  data.

(** [extract_id_number(text)] *)
Definition extract_id_number (text : str) : option str :=
  match search false id_pattern text with
  | Some m => Some (replace (ch " ") (ch "-") (m_text m))
  | None => None
  end.

(** [extract_dates(text)]: every date found is given a role by the keywords
    within 20 characters of its first occurrence. *)
Definition extract_dates (text : str) : gmap string str :=
  let found_dates := findall false date_pattern text in
  let text_lower := lower text in
  foldl (fun (dates : gmap string str) date_str =>
    let date_pos := find text_lower date_str in
    let context := slice text_lower (Z.max 0 (date_pos - 20)) (date_pos + 20) in
    if contains (u "birth") context || contains (u "dob") context
       || contains (u "born") context
    then <["dateOfBirth" := date_str]> dates
    else if contains (u "expiry") context || contains (u "exp") context
            || contains (u "valid") context
    then <["expiryDate" := date_str]> dates
    else if contains (u "issue") context || contains (u "issued") context
    then <["issueDate" := date_str]> dates
    else dates) ∅ found_dates.

(** The part of [extract_text] that follows the recognition: the parser of
    the side is applied to the raw text. *)
Definition extract (raw_text : str) (side : str) : gmap string pyval :=
  if str_eqb side (u "front") then _parse_front_side raw_text
  else _parse_back_side raw_text.

(** [' '.join([result[1] for result in results])], on the texts of the
    boxes: the raw text [extract_text] hands to the parser. *)
Fixpoint join (texts : list str) : str :=
  match texts with
  | [] => []
  | [text] => text
  | text :: rest => text ++ ch " " :: join rest
  end.

End Parsers.
End OCRService.

(** ** Exceptions, dates and floats *)

Inductive exn :=
| ValueError (msg : str)
| TypeError (msg : str)
| AttributeError (msg : str).

(** [str(e)] *)
Definition exn_msg (e : exn) : str :=
  match e with
  | ValueError m | TypeError m | AttributeError m => m
  end.

(** The result of a call that may raise. *)
Inductive result (A : Type) :=
| Ok (a : A)
| Raise (e : exn).
Arguments Ok {A} a.
Arguments Raise {A} e.

(** A naive [datetime]; the time of day is in microseconds. *)
Record datetime := {
  year : N; month : N; day : N; micros : N
}.

Definition datetime_ltb (a b : datetime) : bool :=
  (year a <? year b)
  || ((year a =? year b)
      && ((month a <? month b)
          || ((month a =? month b)
              && ((day a <? day b)
                  || ((day a =? day b) && (micros a <? micros b)))))).

Definition is_leap (y : N) : bool :=
  (y mod 4 =? 0) && (negb (y mod 100 =? 0) || (y mod 400 =? 0)).

Definition days_in_month (y m : N) : N :=
  if m =? 2 then (if is_leap y then 29 else 28)
  else if (m =? 4) || (m =? 6) || (m =? 9) || (m =? 11) then 30
  else 31.

(** The directives of the formats the validator uses. *)
Inductive directive :=
| Dd
| Dm
| DY
| DLit (c : N).

(** The regular expression [_strptime] builds for a directive; the named
    groups [d], [m] and [Y] are the groups 1, 2 and 3. *)
Definition directive_regex (d : directive) : regex :=
  let r19 := RSet [CRange (ch "1") (ch "9")] in
  match d with
  | Dd =>
    RGroup 1 (alt (seq [RChar (ch "3"); RSet [CRange (ch "0") (ch "1")]])
                [seq [RSet [CRange (ch "1") (ch "2")]; digit];
                 seq [RChar (ch "0"); r19];
                 r19;
                 seq [RChar (ch " "); r19]])
  | Dm =>
    RGroup 2 (alt (seq [RChar (ch "1"); RSet [CRange (ch "0") (ch "2")]])
                [seq [RChar (ch "0"); r19]; r19])
  | DY => RGroup 3 (seq [digit; digit; digit; digit])
  | DLit c => RChar c
  end.

Definition format_regex (fmt : list directive) : regex :=
  seq (map directive_regex fmt).

Section Strptime.
Context `{UnicodeData}.

(** [int(s)] of the digits a directive has matched. *)
Definition int_of (s : str) : N :=
  foldl (fun acc c => acc * 10 + default 0 (decimal_value c)) 0 (strip s).

(** [datetime.strptime(date_string, fmt)] for a [str]: the whole string has
    to match, and the date has to exist. *)
Definition strptime_str (date_string : str) (fmt : list directive)
    : result datetime :=
  match re_match true (format_regex fmt) date_string with
  | None => Raise (ValueError (u "time data does not match format"))
  | Some found =>
    if negb (str_eqb (m_rest found) [])
    then Raise (ValueError (u "unconverted data remains"))
    else
      let g n := int_of (default [] (group n (m_groups found))) in
      let y := g 3%nat in
      let m := g 2%nat in
      let d := g 1%nat in
      if y =? 0 then Raise (ValueError (u "year 0 is out of range"))
      else if days_in_month y m <? d
      then Raise (ValueError (u "day is out of range for month"))
      else Ok {| year := y; month := m; day := d; micros := 0 |}
  end.

Definition strptime (date_string : pyval) (fmt : list directive)
    : result datetime :=
  match date_string with
  | VStr s => strptime_str s fmt
  | VOther ty _ =>
    Raise (TypeError (u "strptime() argument 1 must be str, not " ++ ty))
  end.

End Strptime.

(** [f"{x:.2f}"]: the exact value of the float, rounded half to even at the
    second decimal. *)
Definition round_half_even (n d : Z) : Z :=
  let q := (n / d)%Z in
  let r := (n mod d)%Z in
  if (2 * r <? d)%Z then q
  else if (d <? 2 * r)%Z then (q + 1)%Z
  else if Z.even q then q else (q + 1)%Z.

Definition decimal_str (n : Z) : str :=
  u (NilZero.string_of_uint (N.to_uint (Z.to_N n))).

Definition format_2f (x : float) : str :=
  let body (neg : bool) (h : Z) :=
    (if neg then u "-" else [])
    ++ decimal_str (h / 100) ++ u "."
    ++ decimal_str (h mod 100 / 10) ++ decimal_str (h mod 10) in
  match Prim2SF x with
  | S754_zero neg => body neg 0%Z
  | S754_finite neg m e =>
    body neg (if (0 <=? e)%Z then (Z.pos m * 2 ^ e * 100)%Z
              else round_half_even (Z.pos m * 100) (2 ^ (- e)))
  | S754_infinity neg => (if neg then u "-" else []) ++ u "inf"
  | S754_nan => u "nan"
  end.

(** ** [ValidationService] *)

(** The two lists that [validate_emirates_id] creates and the side validators
    append to. *)
Record lists := { st_errors : list str; st_warnings : list str }.

(** A computation that appends to the lists and may raise; what was appended
    before an exception stays appended. *)
Definition M (A : Type) : Type := lists → result A * lists.

#[global] Instance M_ret : MRet M := λ A a st, (Ok a, st).
#[global] Instance M_bind : MBind M := λ A B f m st,
  match m st with
  | (Ok a, st') => f a st'
  | (Raise e, st') => (Raise e, st')
  end.

(** A call of a method that does not touch the lists. *)
Definition call {A} (r : result A) : M A := λ st, (r, st).

Definition append_error (msg : str) : M unit := λ st,
  (Ok tt, {| st_errors := st_errors st ++ [msg];
             st_warnings := st_warnings st |}).

Definition append_warning (msg : str) : M unit := λ st,
  (Ok tt, {| st_errors := st_errors st;
             st_warnings := st_warnings st ++ [msg] |}).

(** The value an f-string shows.  Only a [str] reaches an f-string of the
    validator: the checks before it raise on any other value. *)
Definition format_val (v : pyval) : str :=
  match v with
  | VStr s => s
  | VOther ty _ => u "<" ++ ty ++ u ">"
  end.

Record outcome := {
  isValid : bool;
  isEmiratesID : bool;
  confidence : float;
  errors : list str;
  warnings : list str
}.

Module ValidationService.
Section Validation.
Context `{UnicodeData}.

(** The value of [datetime.now()] during the call. *)
Variable now : datetime.

(** [re.compile(r'^784[-\s]?\d{4}[-\s]?\d{7}[-\s]?\d{1}$')] *)
Definition ID_NUMBER_PATTERN : regex :=
  seq [RBos; lit "784"; opt OCRService.id_sep; times 4 digit;
       opt OCRService.id_sep; times 7 digit; opt OCRService.id_sep;
       times 1 digit; REos].

Definition DATE_FORMATS : list (list directive) :=
  [ [Dd; DLit (ch "/"); Dm; DLit (ch "/"); DY];
    [Dd; DLit (ch "-"); Dm; DLit (ch "-"); DY];
    [DY; DLit (ch "/"); Dm; DLit (ch "/"); Dd];
    [DY; DLit (ch "-"); Dm; DLit (ch "-"); Dd];
    [Dd; DLit (ch "."); Dm; DLit (ch "."); DY] ].

(** [validate_id_number_format(id_number)] *)
Definition validate_id_number_format (id_number : pyval) : result bool :=
  match id_number with
  | VOther ty _ =>
    Raise (AttributeError
             (u "'" ++ ty ++ u "' object has no attribute 'replace'"))
  | VStr s =>
    let normalized := replace (ch " ") (ch "-") s in
    match re_match false ID_NUMBER_PATTERN normalized with
    | None => Ok false
    | Some _ => Ok true
    end
  end.

(** The loop of [validate_date_format]: the first format that parses. *)
Fixpoint validate_date_format_in (formats : list (list directive))
    (date_str : pyval) : result bool :=
  match formats with
  | [] => Ok false
  | fmt :: rest =>
    match strptime date_str fmt with
    | Ok _ => Ok true
    | Raise (ValueError _) => validate_date_format_in rest date_str
    | Raise e => Raise e
    end
  end.

(** [validate_date_format(date_str)] *)
Definition validate_date_format (date_str : pyval) : result bool :=
  validate_date_format_in DATE_FORMATS date_str.

(** The loop of [parse_date]. *)
Fixpoint parse_date_in (formats : list (list directive)) (date_str : pyval)
    : result (option datetime) :=
  match formats with
  | [] => Ok None
  | fmt :: rest =>
    match strptime date_str fmt with
    | Ok d => Ok (Some d)
    | Raise (ValueError _) => parse_date_in rest date_str
    | Raise e => Raise e
    end
  end.

(** [parse_date(date_str)] *)
Definition parse_date (date_str : pyval) : result (option datetime) :=
  parse_date_in DATE_FORMATS date_str.

(** [validate_date_of_birth(dob_str)] *)
Definition validate_date_of_birth (dob_str : pyval) : result bool :=
  match parse_date dob_str with
  | Raise e => Raise e
  | Ok None => Ok false
  | Ok (Some dob) =>
    if datetime_ltb now dob then Ok false
    else
      let min_date := {| year := 1900; month := 1; day := 1; micros := 0 |} in
      if datetime_ltb dob min_date then Ok false
      else Ok true
  end.

(** [validate_expiry_date(expiry_str)] *)
Definition validate_expiry_date (expiry_str : pyval) : result bool :=
  match parse_date expiry_str with
  | Raise e => Raise e
  | Ok None => Ok false
  | Ok (Some expiry) => Ok (datetime_ltb now expiry)
  end.

(** [min(confidence, 1.0)] *)
Definition min_1 (confidence : float) : float :=
  if (1.0 <? confidence)%float then 1.0%float else confidence.

(** The blocks of [_validate_front_side], under the comments that head them
    in the source. *)

(** [# Check for ID number (most important)] *)
Definition check_id_number (data : gmap string pyval) (confidence : float)
    : M (float * bool) :=
  let id_number := default (VStr []) (data !! "idNumber") in
  if truthy_val id_number then
    ok ← call (validate_id_number_format id_number);
    if ok : bool then mret ((confidence + 0.4)%float, true)
    else
      append_error (u "Invalid ID number format: " ++ format_val id_number);;
      mret (confidence, false)
  else
    append_warning (u "ID number not found in extracted text");;
    mret (confidence, false).

(** [# Check for name] *)
Definition check_name (data : gmap string pyval) (confidence : float)
    : M float :=
  if truthy (data !! "name") then mret (confidence + 0.2)%float
  else append_warning (u "Name not found");; mret confidence.

(** [# Check for date of birth] *)
Definition check_date_of_birth (data : gmap string pyval)
    (confidence : float) : M float :=
  let dob := data !! "dateOfBirth" in
  if truthy dob then
    let dob := default (VStr []) dob in
    ok ← call (validate_date_format dob);
    if ok : bool then
      ok ← call (validate_date_of_birth dob);
      if ok : bool then mret (confidence + 0.1)%float
      else
        append_warning (u "Date of birth seems invalid: " ++ format_val dob);;
        mret confidence
    else
      append_warning (u "Date of birth format unclear: " ++ format_val dob);;
      mret confidence
  else mret confidence.

(** [# Check for expiry date] *)
Definition check_expiry_date (data : gmap string pyval)
    (confidence : float) : M float :=
  let expiry := data !! "expiryDate" in
  if truthy expiry then
    let expiry := default (VStr []) expiry in
    ok ← call (validate_date_format expiry);
    if ok : bool then
      ok ← call (validate_expiry_date expiry);
      if ok : bool then mret (confidence + 0.2)%float
      else
        append_error (u "Emirates ID has expired: " ++ format_val expiry);;
        mret confidence
    else
      append_warning (u "Expiry date format unclear: " ++ format_val expiry);;
      mret confidence
  else append_warning (u "Expiry date not found");; mret confidence.

(** [# Check for nationality] and [# Check for gender] *)
Definition check_present (data : gmap string pyval) (key : string)
    (confidence : float) : float :=
  if truthy (data !! key) then (confidence + 0.05)%float else confidence.

(** [# Minimum confidence threshold] *)
Definition check_threshold (min_confidence confidence : float) : M unit :=
  if (confidence <? min_confidence)%float
  then append_warning (u "Low confidence score: " ++ format_2f confidence)
  else mret tt.

(** [_validate_front_side(data, errors, warnings)]: the confidence and
    [is_emirates_id] of the dictionary it returns. *)
Definition _validate_front_side (data : gmap string pyval)
    : M (float * bool) :=
  let confidence := 0.0%float in
  '(confidence, is_emirates_id) ← check_id_number data confidence;
  confidence ← check_name data confidence;
  confidence ← check_date_of_birth data confidence;
  confidence ← check_expiry_date data confidence;
  let confidence := check_present data "nationality" confidence in
  let confidence := check_present data "gender" confidence in
  check_threshold 0.5 confidence;;
  mret (min_1 confidence, is_emirates_id).

(** [_validate_back_side(data, errors, warnings)] *)
Definition _validate_back_side (data : gmap string pyval)
    : M (float * bool) :=
  let confidence := 0.0%float in
  let is_emirates_id := false in
  (* card number or ID number *)
  let '(confidence, is_emirates_id) :=
    if truthy (data !! "cardNumber") || truthy (data !! "idNumber")
    then ((confidence + 0.3)%float, true)
    else (confidence, is_emirates_id) in
  (* the format of the ID number *)
  let id_number := default (VStr []) (data !! "idNumber") in
  confidence ←
    (if truthy_val id_number then
       ok ← call (validate_id_number_format id_number);
       if ok : bool then mret (confidence + 0.4)%float
       else
         append_warning (u "ID number format unclear: " ++ format_val id_number);;
         mret confidence
     else mret confidence);
  check_threshold 0.3 confidence;;
  mret (min_1 confidence, is_emirates_id || (0.3 <=? confidence)%float).

(** The side validator [validate_emirates_id] calls. *)
Definition validate_side (data : gmap string pyval) (side : str)
    : M (float * bool) :=
  if str_eqb side (u "front") then _validate_front_side data
  else _validate_back_side data.

(** [validate_emirates_id(data, side)] *)
Definition validate_emirates_id (data : gmap string pyval) (side : str)
    : outcome :=
  let start := {| st_errors := []; st_warnings := [] |} in
  match validate_side data side start with
  | (Ok (confidence, is_emirates_id), st) =>
    {| isValid := is_emirates_id && Nat.eqb (length (st_errors st)) 0;
       isEmiratesID := is_emirates_id;
       confidence := confidence;
       errors := st_errors st;
       warnings := st_warnings st |}
  | (Raise e, st) =>
    {| isValid := false;
       isEmiratesID := false;
       confidence := 0.0;
       errors := st_errors st ++ [u "Validation error: " ++ exn_msg e];
       warnings := st_warnings st |}
  end.

(** [is_id_expired(expiry_str)]: a date that cannot be parsed counts as
    expired. *)
Definition is_id_expired (expiry_str : pyval) : result bool :=
  match parse_date expiry_str with
  | Raise e => Raise e
  | Ok None => Ok true
  | Ok (Some expiry) => Ok (datetime_ltb expiry now)
  end.

(** [re.sub(r'[-\s]', '', s)]: the characters of the class are removed. *)
Definition remove_class (items : list citem) (s : str) : str :=
  List.filter (λ c, negb (set_has false items c)) s.

(** [int(d)] of a string of one character: the value of a decimal digit of
    any script, [ValueError] for another character (its message is not
    read). *)
Definition int_char (d : N) : result N :=
  match decimal_value d with
  | Some v => Ok v
  | None => Raise (ValueError (u "invalid literal for int() with base 10"))
  end.

(** [sum(int(d) for d in ds)]: the values are added from the left, and the
    first character that is not a digit raises. *)
Fixpoint sum_int (ds : str) (acc : N) : result N :=
  match ds with
  | [] => Ok acc
  | d :: rest =>
    match int_char d with
    | Ok v => sum_int rest (acc + v)
    | Raise e => Raise e
    end
  end.

(** [validate_id_number_checksum(id_number)] *)
Definition validate_id_number_checksum (id_number : pyval) : result bool :=
  match id_number with
  | VOther ty _ =>
    Raise (TypeError
             (u "expected string or bytes-like object, got '" ++ ty ++ u "'"))
  | VStr s =>
    let digits := remove_class [CLit (ch "-"); CSpace] s in
    if negb (Nat.eqb (length digits) 15) then Ok false
    else
      let checked :=
        match int_char (default 0 (last digits)) with
        | Raise e => Raise e
        | Ok check_digit =>
          match sum_int (slice digits 0 (-1)) 0 with
          | Raise e => Raise e
          | Ok sum_digits =>
            let calculated_check := sum_digits mod 10 in
            Ok (calculated_check =? check_digit)
          end
        end in
      match checked with
      | Raise (ValueError _) => Ok false
      | other => other
      end
  end.

End Validation.
End ValidationService.

(** * Specifications

    The vocabulary of the theorems: the words a pattern matches, stated
    without the matcher, the runs of digits that can be a card number, the
    dictionaries and warnings the claims speak of, and the inputs on which
    the code is run. *)

Import OCRService ValidationService.

Section Vocabulary.
Context `{UnicodeData}.

(** The iterations of a repetition: every one consumes. *)
Inductive iter (L : option N → str → str → Prop)
    : nat → option nat → option N → str → str → Prop :=
| iter_stop hi p t : iter L 0 hi p [] t
| iter_more lo hi p w1 w2 t :
    hi ≠ Some 0%nat → w1 ≠ [] →
    L p w1 (w2 ++ t) →
    iter L (pred lo) (pred <$> hi) (lastc p w1) w2 t →
    iter L lo hi p (w1 ++ w2) t.

(** [lang ic r p w t]: the word [w] matches [r] where the character before
    is [p] and the text that follows is [t] (the anchors and [\b] look at
    both); [ic] is [re.IGNORECASE]. *)
Fixpoint lang (ic : bool) (r : regex) (p : option N) (w t : str) : Prop :=
  match r with
  | REmpty => w = []
  | RChar c => ∃ x, w = [x] ∧ char_eq ic c x = true
  | RSet items => ∃ x, w = [x] ∧ set_has ic items x = true
  | RCat r1 r2 =>
    ∃ w1 w2, w = w1 ++ w2 ∧ lang ic r1 p w1 (w2 ++ t)
             ∧ lang ic r2 (lastc p w1) w2 t
  | RAlt r1 r2 => lang ic r1 p w t ∨ lang ic r2 p w t
  | RRep lo hi r1 => iter (lang ic r1) lo hi p w t
  | RGroup _ r1 => lang ic r1 p w t
  | RBos => w = [] ∧ p = None
  | REos => w = [] ∧ at_end t = true
  | RWordB => w = [] ∧ boundary p t = true
  end.

(** The text holds a match of the pattern. *)
Definition occurs (ic : bool) (r : regex) (text : str) : Prop :=
  ∃ pre w t, text = pre ++ w ++ t ∧ lang ic r (lastc None pre) w t.

(** What a matcher owes to a language: a result comes from a word of the
    language ([body_sound]); a word of the language gives a result
    ([body_complete]); the continuation is read only on texts that are not
    longer than the text of the matcher ([body_local]). *)
Definition body_sound {A : Type}
    (body : option N → str → caps → @cont A → option A)
    (L : option N → str → str → Prop) : Prop :=
  ∀ p s cs (k : @cont A) x, body p s cs k = Some x →
    ∃ w t cs', s = w ++ t ∧ L p w t ∧ k (lastc p w) t cs' = Some x.

Definition body_complete {A : Type}
    (body : option N → str → caps → @cont A → option A)
    (L : option N → str → str → Prop) : Prop :=
  ∀ p w t, L p w t → ∀ cs (k : @cont A),
    (∀ cs', k (lastc p w) t cs' ≠ None) → body p (w ++ t) cs k ≠ None.

Definition body_local {A : Type}
    (body : option N → str → caps → @cont A → option A) : Prop :=
  ∀ p s cs (k1 k2 : @cont A),
    (∀ p' s' cs', (length s' ≤ length s)%nat → k1 p' s' cs' = k2 p' s' cs') →
    body p s cs k1 = body p s cs k2.

(** Patterns without anchors, on which a change of characters that keeps
    every test of the pattern keeps the match. *)
Fixpoint kept_by (ic : bool) (f : N → N) (r : regex) : Prop :=
  match r with
  | REmpty => True
  | RChar c => ∀ x, char_eq ic c x = true → char_eq ic c (f x) = true
  | RSet items => ∀ x, set_has ic items x = true → set_has ic items (f x) = true
  | RCat r1 r2 | RAlt r1 r2 => kept_by ic f r1 ∧ kept_by ic f r2
  | RRep _ _ r1 | RGroup _ r1 => kept_by ic f r1
  | RBos | REos | RWordB => False
  end.

(** The items of the ID number, between the anchors or not. *)
Definition id_items : list regex :=
  [lit "784"; opt id_sep; times 4 digit; opt id_sep; times 7 digit;
   opt id_sep; times 1 digit].

(** [.replace(' ', '-')] *)
Definition dashed (s : str) : str := replace (ch " ") (ch "-") s.

(** A run of digits of length 9 or more between two word boundaries: the
    character before it and the character after it, if any, are not word
    characters. *)
Definition card_run (p : option N) (w t : str) : Prop :=
  (9 ≤ length w)%nat
  ∧ Forall (λ c, isdecimal c = true) w
  ∧ word_at p = false
  ∧ word_at (head t) = false.

(** A run at an offset of the text. *)
Definition card_at (text : str) (i : nat) (w : str) : Prop :=
  ∃ pre t, text = pre ++ w ++ t ∧ length pre = i
           ∧ card_run (lastc None pre) w t.

(** A dictionary of the extractor: every value is a string. *)
Definition is_str (v : pyval) : bool :=
  match v with VStr _ => true | VOther _ _ => false end.

Definition all_strings (data : gmap string pyval) : Prop :=
  map_Forall (λ _ v, is_str v = true) data.

(** What the dates block stores for the dates that were found. *)
Definition stored_dates (raw_text : str) (dates : list str)
    : option str * option str :=
  match dates with
  | d0 :: d1 :: _ => (Some d0, Some d1)
  | [d0] =>
    if contains (u "expiry") (lower raw_text)
       || contains (u "exp") (lower raw_text)
    then (None, Some d0)
    else (Some d0, None)
  | [] => (None, None)
  end.

(** The warnings of a front side that has neither date. *)
Definition expected_warning (w : str) : Prop :=
  w = u "ID number not found in extracted text"
  ∨ w = u "Name not found"
  ∨ w = u "Expiry date not found"
  ∨ ∃ c, w = u "Low confidence score: " ++ format_2f c.

(** Each check of such a run returns; the warnings it had stay, and the
    ones it adds are among the expected. *)
Definition keeps (st st' : lists) : Prop :=
  (∀ w, w ∈ st_warnings st → w ∈ st_warnings st')
  ∧ (Forall expected_warning (st_warnings st) →
     Forall expected_warning (st_warnings st')).

(** The confidences that reach the expiry check. *)
Definition before_expiry : list float :=
  [0; 0 + 0.1; 0 + 0.2; 0 + 0.2 + 0.1;
   0 + 0.4; 0 + 0.4 + 0.1; 0 + 0.4 + 0.2; 0 + 0.4 + 0.2 + 0.1]%float.

(** What follows the expiry check, as a function of the confidence. *)
Definition after_expiry (nationality gender : bool) (c : float) : float :=
  let c := if nationality then (c + 0.05)%float else c in
  let c := if gender then (c + 0.05)%float else c in
  min_1 c.

(** ** The vocabulary of the further properties *)

(** The dictionary has an ID number that the format check accepts. *)
Definition id_accepted (data : gmap string pyval) : Prop :=
  ∃ s, data !! "idNumber" = Some (VStr s)
       ∧ validate_id_number_format (VStr s) = Ok true.

(** The dictionary has an expiry date that can be read and is not after
    [now]. *)
Definition expired_at (now : datetime) (data : gmap string pyval) : Prop :=
  ∃ e d, data !! "expiryDate" = Some (VStr e)
         ∧ parse_date (VStr e) = Ok (Some d)
         ∧ datetime_ltb now d = false.

(** The documented format of the ID number, [784-XXXX-XXXXXXX-X]: each of
    the three separators is a dash or one white space character, or is left
    out. *)
Definition id_sep_char (c : N) : bool := (c =? ch "-") || isspace c.

Definition optional_sep (s : str) : Prop :=
  (length s ≤ 1)%nat ∧ Forall (λ c, id_sep_char c = true) s.

Definition digits (n : nat) (d : str) : Prop :=
  length d = n ∧ Forall (λ c, isdecimal c = true) d.

Definition id_shaped (w : str) : Prop :=
  ∃ s1 d4 s2 d7 s3 d1,
    w = u "784" ++ s1 ++ d4 ++ s2 ++ d7 ++ s3 ++ d1
    ∧ optional_sep s1 ∧ digits 4 d4
    ∧ optional_sep s2 ∧ digits 7 d7
    ∧ optional_sep s3 ∧ digits 1 d1.

(** The sum of the values of the digits of a string. *)
Definition digit_sum (w : str) : N :=
  foldr (λ c acc, default 0 (decimal_value c) + acc) 0 w.

(** What [validate_id_number_checksum] keeps of its argument. *)
Definition stripped (s : str) : str :=
  remove_class [CLit (ch "-"); CSpace] s.

(** A date as the parsers read it: one or two digits, a slash or a dash, one
    or two digits, a slash or a dash, four digits. *)
Definition date_sep_char (c : N) : bool := (c =? ch "/") || (c =? ch "-").

Definition one_or_two_digits (d : str) : Prop :=
  (1 ≤ length d ≤ 2)%nat ∧ Forall (λ c, isdecimal c = true) d.

Definition date_shaped (w : str) : Prop :=
  ∃ d s1 m s2 y,
    w = d ++ [s1] ++ m ++ [s2] ++ y
    ∧ one_or_two_digits d ∧ date_sep_char s1 = true
    ∧ one_or_two_digits m ∧ date_sep_char s2 = true
    ∧ digits 4 y.

(** The keywords [extract_dates] looks for, by the key they give; [expiry]
    holds [exp] and [issued] holds [issue]. *)
Definition date_keywords (key : string) : list string :=
  if String.eqb key "dateOfBirth" then ["birth"; "dob"; "born"]%string
  else if String.eqb key "expiryDate" then ["exp"; "valid"]%string
  else if String.eqb key "issueDate" then ["issue"]%string
  else [].

(** A character of the block U+0600 to U+06FF, the range of the Arabic
    pattern. *)
Definition arabic_letter (c : N) : bool := in_range 1536 1791 c.

(** The form of an Arabic name that is stored: more than three characters,
    letters of the block and white space, a letter at both ends. *)
Definition arabic_name_shaped (s : str) : Prop :=
  (3 < length s)%nat
  ∧ Forall (λ c, arabic_letter c || isspace c = true) s
  ∧ (∃ c, head s = Some c ∧ arabic_letter c = true)
  ∧ (∃ c, last s = Some c ∧ arabic_letter c = true).

(** The form a field of the front side has when it is stored (the name and
    the issue date are strings, with no form stated here). *)
Definition front_field (key : string) (s : str) : Prop :=
  (key = "idNumber"%string ∧ id_shaped s ∧ ch " " ∉ s)
  ∨ ((key = "dateOfBirth"%string ∨ key = "expiryDate"%string) ∧ date_shaped s)
  ∨ key = "name"%string
  ∨ (key = "nameArabic"%string ∧ arabic_name_shaped s)
  ∨ (key = "nationality"%string
     ∧ ∃ keyword, keyword ∈ nationality_keywords ∧ s = u keyword)
  ∨ (key = "gender"%string ∧ (s = u "Male" ∨ s = u "Female"))
  ∨ key = "issueDate"%string.

(** The form a field of the back side has. *)
Definition back_field (key : string) (s : str) : Prop :=
  (key = "cardNumber"%string
   ∧ (9 ≤ length s)%nat ∧ Forall (λ c, isdecimal c = true) s)
  ∨ (key = "idNumber"%string ∧ id_shaped s ∧ ch " " ∉ s).

End Vocabulary.

(** ** Inputs used to run the code *)

Definition front : str := u "front".
Definition back : str := u "back".
Definition no_lists : lists := {| st_errors := []; st_warnings := [] |}.

(** A clock value: 4 November 2026, at midnight. *)
Definition nov_2026 : datetime :=
  {| year := 2026; month := 11; day := 4; micros := 0 |}.

Definition born : datetime :=
  {| year := 1990; month := 1; day := 15; micros := 0 |}.
Definition expires : datetime :=
  {| year := 2030; month := 12; day := 31; micros := 0 |}.

(** A dictionary whose ID number is malformed and whose date of birth is a
    number: an error is appended, then [strptime] raises. *)
Definition number_as_date : gmap string pyval :=
  <["dateOfBirth" := VOther (u "int") true]> (<["idNumber" := VStr (u "x")]> ∅).

(** A back side whose ID number is malformed. *)
Definition malformed_back : gmap string pyval :=
  <["idNumber" := VStr (u "784-12")]> ∅.

(** A front side with an ID number and a name, and a date to add to it. *)
Definition id_and_name : gmap string pyval :=
  <["name" := VStr (u "John Smith")]>
    (<["idNumber" := VStr (u "784-1234-5678901-2")]> ∅).

(** Two dates, each next to the keyword of the other role. *)
Definition misleading_keywords : str :=
  u "Expiry 15/01/1990 Date of Birth 31/12/2030".

Definition scenario_A : str :=
  u "784-1234-5678901-2 John Smith 15/01/1990 31/12/2030".

(** The dictionary the scenario expects, and the one the parser returns. *)
Definition scenario_A_expected : gmap string pyval :=
  <["expiryDate" := VStr (u "31/12/2030")]>
    (<["dateOfBirth" := VStr (u "15/01/1990")]>
       (<["name" := VStr (u "John Smith")]>
          (<["idNumber" := VStr (u "784-1234-5678901-2")]> ∅))).

Definition scenario_A_extracted : gmap string pyval :=
  <["expiryDate" := VStr (u "31/12/2030")]>
    (<["dateOfBirth" := VStr (u "15/01/1990")]>
       (<["idNumber" := VStr (u "784-1234-5678901-2")]> ∅)).

(** A front side on which the expiry date was not read: the only date is the
    date of birth, and the word [Expiry] comes 31 characters after it. *)
Definition card_without_expiry : str :=
  u "Name: John Smith Date of Birth: 15/01/1990 Nationality: Indian Expiry Date:".

(** A front side with no date on it. *)
Definition id_only : str := u "784-1234-5678901-2 John Smith".

(** An ID number written with spaces, and one with a tab after the prefix. *)
Definition spaced_id : str := u "ID No 784 1234 5678901 2 United Arab Emirates".
Definition tabbed_id : str := u "784" ++ [9] ++ u "1234 5678901 2".

(** A longer run of digits that is glued to letters, then a run of nine that
    stands alone: the card number is the run of nine. *)
Definition glued_run : str := u "REF1234567890123 987654321".

(** ** Inputs of the further properties *)

(** The front side of [id_and_name] with an expiry date that has passed, and
    the date it is read as. *)
Definition expired_card : gmap string pyval :=
  <["expiryDate" := VStr (u "01/01/2020")]> id_and_name.

Definition new_year_2020 : datetime :=
  {| year := 2020; month := 1; day := 1; micros := 0 |}.

(** An ID number whose last digit is the sum of the others modulo 10, the same
    with one digit changed, and with two digits exchanged. *)
Definition summed_id : str := u "784-1234-5678901-5".
Definition one_wrong_digit : str := u "784-9234-5678901-5".
Definition two_exchanged : str := u "784-2134-5678901-5".

(** A front side with an Arabic name between two labels. *)
Definition arabic_card : str := u "الاسم: محمد أحمد Nationality".

(** * Strings *)

Lemma str_eqb_eq a b : str_eqb a b = true ↔ a = b.
Proof.
  revert b. induction a as [|x a IH]; intros [|y b]; simpl; try easy.
  rewrite andb_true_iff, N.eqb_eq, IH. split; [intros [-> ->] | intros [=]]; auto.
Qed.

Lemma str_eqb_neq a b : a ≠ b → str_eqb a b = false.
Proof.
  intros Hne. destruct (str_eqb a b) eqn:E; [|done].
  by apply str_eqb_eq in E.
Qed.

(** * What the matcher finds

    The matcher finds a match exactly when the language of the pattern has
    one, and the fuel of a repetition is never used up. *)

Section Language.
Context `{UnicodeData}.
Variable ic : bool.

Lemma lastc_nil p : lastc p [] = p.
Proof. done. Qed.

Lemma lastc_cons p c w : lastc p (c :: w) = lastc (Some c) w.
Proof.
  unfold lastc. rewrite last_cons. by destruct (last w).
Qed.

Lemma lastc_app p w1 w2 : lastc p (w1 ++ w2) = lastc (lastc p w1) w2.
Proof.
  revert p. induction w1 as [|c w1 IH]; intros p; [done |].
  simpl. by rewrite !lastc_cons, IH.
Qed.

Lemma take_matched (w t : str) :
  take (length (w ++ t) - length t) (w ++ t) = w.
Proof.
  rewrite length_app.
  replace (length w + length t - length t)%nat with (length w) by lia.
  by rewrite take_app_length.
Qed.

Section Correct.
Context {A : Type}.
Implicit Types (k : @cont A) (body : option N → str → caps → @cont A → option A).

Lemma rep_sound body L :
  body_sound body L →
  ∀ fuel lo hi, body_sound (rep body fuel lo hi) (iter L lo hi).
Proof.
  intros Hbody fuel. induction fuel as [|fuel IH]; intros lo hi p s cs k x;
    [done |].
  simpl. intros Hrun.
  set (more := λ p' s' cs',
    if (length s' <? length s)%nat
    then rep body fuel (pred lo) (pred <$> hi) p' s' cs' k else None) in *.
  assert (Hmore : hi ≠ Some 0%nat → body p s cs more = Some x →
    ∃ w t cs', s = w ++ t ∧ iter L lo hi p w t
               ∧ k (lastc p w) t cs' = Some x).
  { intros Hhi Hb. apply Hbody in Hb as (w1 & t1 & cs1 & -> & HL & Hk).
    unfold more in Hk. case_match eqn:Hlt; [|done].
    apply Nat.ltb_lt in Hlt.
    apply IH in Hk as (w2 & t & cs' & -> & Hiter & Hk).
    exists (w1 ++ w2), t, cs'. rewrite lastc_app, <- app_assoc.
    split_and!; try done. constructor; try done.
    intros ->. simpl in Hlt. lia. }
  assert (Hstop : lo = 0%nat → k p s cs = Some x →
    ∃ w t cs', s = w ++ t ∧ iter L lo hi p w t ∧ k (lastc p w) t cs' = Some x).
  { intros -> Hk. exists [], s, cs. split_and!; [done | constructor | done]. }
  destruct hi as [[|hi]|].
  - destruct (Nat.eqb lo 0) eqn:E; [|done]. apply Nat.eqb_eq in E. auto.
  - destruct (body p s cs more) eqn:Hb.
    + simplify_eq. by apply Hmore.
    + destruct (Nat.eqb lo 0) eqn:E; [|done]. apply Nat.eqb_eq in E. auto.
  - destruct (body p s cs more) eqn:Hb.
    + simplify_eq. by apply Hmore.
    + destruct (Nat.eqb lo 0) eqn:E; [|done]. apply Nat.eqb_eq in E. auto.
Qed.

Lemma rep_complete body L :
  body_complete body L →
  ∀ lo hi p w t, iter L lo hi p w t →
  ∀ fuel cs k, (length (w ++ t) < fuel)%nat →
    (∀ cs', k (lastc p w) t cs' ≠ None) →
    rep body fuel lo hi p (w ++ t) cs k ≠ None.
Proof.
  intros Hbody lo hi p w t Hiter.
  induction Hiter as [hi p t | lo hi p w1 w2 t Hhi Hw1 HL Hiter IH];
    intros fuel cs k Hfuel Hk.
  - destruct fuel as [|fuel]; [lia |]. simpl.
    repeat case_match; try done; apply Hk.
  - destruct fuel as [|fuel]; [simpl in Hfuel; lia |].
    assert (Hmore : body p ((w1 ++ w2) ++ t) cs (λ p' s' cs',
      if (length s' <? length ((w1 ++ w2) ++ t))%nat
      then rep body fuel (pred lo) (pred <$> hi) p' s' cs' k else None)
      ≠ None).
    { rewrite <- app_assoc. apply Hbody; [done |]. intros cs'.
      assert (length (w2 ++ t) < length (w1 ++ w2 ++ t))%nat as Hlt.
      { rewrite (length_app w1). destruct w1; [done |]. simpl. lia. }
      apply Nat.ltb_lt in Hlt as Hlt'. rewrite Hlt'.
      apply IH.
      - rewrite <- app_assoc in Hfuel. lia.
      - intros cs''. rewrite <- lastc_app. apply Hk. }
    simpl. destruct hi as [[|hi]|]; [done | |];
      match goal with
      | |- match ?b with _ => _ end ≠ None => destruct b; done
      end.
Qed.

Lemma rx_sound r : body_sound (A := A) (rx ic r) (lang ic r).
Proof.
  induction r as [|c|items|r1 IH1 r2 IH2|r1 IH1 r2 IH2|lo hi r1 IH1|n r1 IH1
                  | | |]; intros p s cs k x.
  - simpl. intros Hk. by exists [], s, cs.
  - simpl. destruct s as [|y s]; [done |]. case_match eqn:E; [|done].
    intros Hk. exists [y], s, cs. eauto.
  - simpl. destruct s as [|y s]; [done |]. case_match eqn:E; [|done].
    intros Hk. exists [y], s, cs. eauto.
  - simpl. intros Hrun.
    apply IH1 in Hrun as (w1 & t1 & cs1 & -> & HL1 & Hrun).
    apply IH2 in Hrun as (w2 & t & cs2 & -> & HL2 & Hk).
    exists (w1 ++ w2), t, cs2. rewrite lastc_app, <- app_assoc. eauto 10.
  - simpl. destruct (rx ic r1 p s cs k) eqn:E1.
    + intros [= ->]. apply IH1 in E1 as (w & t & cs' & -> & HL & Hk).
      exists w, t, cs'. auto.
    + intros E2. apply IH2 in E2 as (w & t & cs' & -> & HL & Hk).
      exists w, t, cs'. auto.
  - exact (rep_sound _ _ IH1 _ _ _ p s cs k x).
  - simpl. intros Hrun.
    apply IH1 in Hrun as (w & t & cs' & -> & HL & Hk). eauto 10.
  - simpl. destruct p; [done |]. intros Hk. by exists [], s, cs.
  - simpl. case_match eqn:E; [|done]. intros Hk. by exists [], s, cs.
  - simpl. case_match eqn:E; [|done]. intros Hk. by exists [], s, cs.
Qed.

Lemma rx_complete r : body_complete (A := A) (rx ic r) (lang ic r).
Proof.
  induction r as [|c|items|r1 IH1 r2 IH2|r1 IH1 r2 IH2|lo hi r1 IH1|n r1 IH1
                  | | |]; intros p w t HL cs k Hk.
  - simpl in *. subst. apply Hk.
  - destruct HL as (x & -> & E). simpl. rewrite E. apply Hk.
  - destruct HL as (x & -> & E). simpl. rewrite E. apply Hk.
  - destruct HL as (w1 & w2 & -> & HL1 & HL2). simpl. rewrite <- app_assoc.
    apply IH1; [done |]. intros cs1. apply IH2; [done |].
    intros cs2. rewrite <- lastc_app. apply Hk.
  - simpl. destruct HL as [HL | HL].
    + specialize (IH1 _ _ _ HL cs k Hk). by destruct (rx ic r1 _ _ _ _).
    + specialize (IH2 _ _ _ HL cs k Hk). by destruct (rx ic r1 _ _ _ _).
  - change (rep (rx ic r1) (S (length (w ++ t))) lo hi p (w ++ t) cs k ≠ None).
    apply (rep_complete _ _ IH1); [done | lia | done].
  - simpl. apply IH1; [done |]. intros cs1. apply Hk.
  - destruct HL as [-> ->]. apply Hk.
  - destruct HL as [-> E]. simpl. rewrite E. apply Hk.
  - destruct HL as [-> E]. simpl. rewrite E. apply Hk.
Qed.

Lemma rep_local body :
  body_local body → ∀ fuel lo hi, body_local (rep body fuel lo hi).
Proof.
  intros Hbody fuel. induction fuel as [|fuel IH]; intros lo hi p s cs k1 k2 Hk;
    [done |].
  simpl.
  assert (Hmore :
    body p s cs (λ p' s' cs',
      if (length s' <? length s)%nat
      then rep body fuel (pred lo) (pred <$> hi) p' s' cs' k1 else None)
    = body p s cs (λ p' s' cs',
      if (length s' <? length s)%nat
      then rep body fuel (pred lo) (pred <$> hi) p' s' cs' k2 else None)).
  { apply Hbody. intros p' s' cs' Hle.
    destruct (length s' <? length s)%nat eqn:E; [|done].
    apply IH. intros p2 s2 cs2 Hle2. apply Hk. lia. }
  rewrite Hmore, (Hk p s cs) by lia. done.
Qed.

Lemma rx_local r : body_local (A := A) (rx ic r).
Proof.
  induction r as [|c|items|r1 IH1 r2 IH2|r1 IH1 r2 IH2|lo hi r1 IH1|n r1 IH1
                  | | |]; intros p s cs k1 k2 Hk.
  - simpl. by apply Hk.
  - simpl. destruct s as [|y s]; [done |]. case_match; [|done].
    apply Hk. simpl. lia.
  - simpl. destruct s as [|y s]; [done |]. case_match; [|done].
    apply Hk. simpl. lia.
  - simpl. apply IH1. intros p' s' cs' Hle. apply IH2.
    intros p2 s2 cs2 Hle2. apply Hk. lia.
  - simpl. rewrite (IH1 p s cs k1 k2 Hk), (IH2 p s cs k1 k2 Hk). done.
  - exact (rep_local _ IH1 _ _ _ p s cs k1 k2 Hk).
  - simpl. apply IH1. intros p' s' cs' Hle. by apply Hk.
  - simpl. destruct p; [done |]. by apply Hk.
  - simpl. case_match; [|done]. by apply Hk.
  - simpl. case_match; [|done]. by apply Hk.
Qed.

Lemma rep_fuel body :
  body_local body →
  ∀ fuel1 fuel2 lo hi p s cs k,
    (length s < fuel1)%nat → (length s < fuel2)%nat →
    rep body fuel1 lo hi p s cs k = rep body fuel2 lo hi p s cs k.
Proof.
  intros Hbody fuel1.
  induction fuel1 as [|fuel1 IH]; intros fuel2 lo hi p s cs k H1 H2; [lia |].
  destruct fuel2 as [|fuel2]; [lia |]. simpl.
  assert (Hmore :
    body p s cs (λ p' s' cs',
      if (length s' <? length s)%nat
      then rep body fuel1 (pred lo) (pred <$> hi) p' s' cs' k else None)
    = body p s cs (λ p' s' cs',
      if (length s' <? length s)%nat
      then rep body fuel2 (pred lo) (pred <$> hi) p' s' cs' k else None)).
  { apply Hbody. intros p' s' cs' Hle.
    destruct (length s' <? length s)%nat eqn:E; [|done].
    apply Nat.ltb_lt in E. apply IH; lia. }
  by rewrite Hmore.
Qed.

(** The repetition of the matcher, with any fuel above the length. *)
Lemma rx_rep_fuel lo hi r fuel p s cs k :
  (length s < fuel)%nat →
  rx ic (RRep lo hi r) p s cs k = rep (rx ic r) fuel lo hi p s cs k.
Proof.
  intros Hfuel.
  change (rx ic (RRep lo hi r) p s cs k)
    with (rep (rx ic r) (S (length s)) lo hi p s cs k).
  apply rep_fuel; [apply rx_local | lia | done].
Qed.

End Correct.

(** A match at a position. *)
Lemma match_at_sound r p s m :
  match_at ic r p s = Some m →
  s = m_text m ++ m_rest m ∧ lang ic r p (m_text m) (m_rest m).
Proof.
  unfold match_at. intros Hrun.
  apply rx_sound in Hrun as (w & t & cs' & -> & HL & [= <-]). simpl.
  by rewrite take_matched.
Qed.

Lemma match_at_complete r p w t :
  lang ic r p w t → is_Some (match_at ic r p (w ++ t)).
Proof.
  intros HL. unfold match_at.
  match goal with |- is_Some ?o => destruct o eqn:E; [done |] end.
  exfalso. revert E. by apply rx_complete.
Qed.

(** The leftmost match. *)
Lemma search_from_sound r p s m :
  search_from ic r p s = Some m →
  ∃ pre, s = pre ++ m_text m ++ m_rest m
         ∧ lang ic r (lastc p pre) (m_text m) (m_rest m).
Proof.
  revert p. induction s as [|c s IH]; intros p; simpl.
  - destruct (match_at ic r p []) eqn:E; [|done]. intros [= ->].
    apply match_at_sound in E as [? ?]. by exists [].
  - destruct (match_at ic r p (c :: s)) eqn:E.
    + intros [= ->]. apply match_at_sound in E as [? ?]. by exists [].
    + intros Hs. apply IH in Hs as (pre & -> & HL).
      exists (c :: pre). by rewrite lastc_cons.
Qed.

Lemma search_from_here r p s m :
  match_at ic r p s = Some m → search_from ic r p s = Some m.
Proof. intros E. destruct s; simpl; by rewrite E. Qed.

Lemma search_from_complete r p pre w t :
  lang ic r (lastc p pre) w t → is_Some (search_from ic r p (pre ++ w ++ t)).
Proof.
  revert p. induction pre as [|c pre IH]; intros p HL.
  - rewrite lastc_nil in HL.
    destruct (match_at_complete _ _ _ _ HL) as [m Hm].
    simpl. by rewrite (search_from_here _ _ _ _ Hm).
  - simpl. destruct (match_at ic r p (c :: pre ++ w ++ t)); [done |].
    apply IH. by rewrite lastc_cons in HL.
Qed.

(** [re.search] finds a match exactly when the text holds one, and what it
    returns is one. *)
Lemma search_occurs r text :
  is_Some (search ic r text) ↔ occurs ic r text.
Proof.
  split.
  - intros [m Hm]. apply search_from_sound in Hm as (pre & -> & HL).
    by exists pre, (m_text m), (m_rest m).
  - intros (pre & w & t & -> & HL). by apply search_from_complete.
Qed.

(** [re.findall] finds nothing when the text holds no match. *)
Lemma finditer_from_nil r p s pos :
  (∀ pre w t, s = pre ++ w ++ t → ¬ lang ic r (lastc p pre) w t) →
  finditer_from ic r p s 0 pos = [].
Proof.
  revert p pos. induction s as [|c s IH]; intros p pos Hno; simpl.
  - destruct (match_at ic r p []) eqn:E; [|done].
    apply match_at_sound in E as [E HL]. by destruct (Hno [] _ _ E).
  - destruct (match_at ic r p (c :: s)) eqn:E.
    + apply match_at_sound in E as [E HL]. by destruct (Hno [] _ _ E).
    + apply IH. intros pre w t -> HL.
      apply (Hno (c :: pre) w t); [done |]. by rewrite lastc_cons.
Qed.

Lemma findall_nil r text :
  ¬ occurs ic r text → findall ic r text = [].
Proof.
  intros Hno. unfold findall, finditer.
  rewrite finditer_from_nil; [done |].
  intros pre w t -> HL. apply Hno. by exists pre, w, t.
Qed.

End Language.

(** ** The scan of [re.finditer] *)

Section Scan.
Context `{UnicodeData}.

(** What the scan reports is a match, at the offset it is reported with. *)
Lemma finditer_from_sound ic r p s skip pos i w :
  (i, w) ∈ finditer_from ic r p s skip pos →
  ∃ pre t, s = pre ++ w ++ t ∧ i = (pos + length pre)%nat
           ∧ lang ic r (lastc p pre) w t.
Proof.
  revert p skip pos.
  induction s as [|c s IH]; intros p skip pos Hin.
  - destruct skip; simpl in Hin; [|by apply elem_of_nil in Hin].
    destruct (match_at ic r p []) as [m|] eqn:E; [|by apply elem_of_nil in Hin].
    apply list_elem_of_singleton in Hin. injection Hin as -> ->.
    apply match_at_sound in E as [Heq HL].
    exists [], (m_rest m). split_and!; [done | simpl; lia | done].
  - assert (Htail : ∀ skip', (i, w) ∈ finditer_from ic r (Some c) s skip' (S pos) →
      ∃ pre t, c :: s = pre ++ w ++ t ∧ i = (pos + length pre)%nat
               ∧ lang ic r (lastc p pre) w t).
    { intros skip' Hin'. apply IH in Hin' as (pre & t & -> & -> & HL).
      exists (c :: pre), t. rewrite lastc_cons.
      split_and!; [done | simpl; lia | done]. }
    destruct skip; simpl in Hin; [|by eapply Htail].
    destruct (match_at ic r p (c :: s)) as [m|] eqn:E; [|by eapply Htail].
    apply elem_of_cons in Hin as [Hin | Hin]; [|by eapply Htail].
    injection Hin as -> ->. apply match_at_sound in E as [Heq HL].
    exists [], (m_rest m). split_and!; [done | simpl; lia | done].
Qed.

(** The offsets grow along the list. *)
Lemma finditer_from_sorted ic r p s skip pos :
  StronglySorted (λ a b : nat * str, (a.1 < b.1)%nat)
    (finditer_from ic r p s skip pos).
Proof.
  revert p skip pos.
  induction s as [|c s IH]; intros p skip pos.
  - destruct skip; simpl; [|constructor].
    destruct (match_at ic r p []); repeat constructor.
  - destruct skip; simpl; [|apply IH].
    destruct (match_at ic r p (c :: s)); [|apply IH].
    constructor; [apply IH |].
    apply Forall_forall. intros [i w] Hin.
    apply finditer_from_sound in Hin as (pre & t & _ & -> & _). simpl. lia.
Qed.

(** Two matches from the scan: both are matches of the pattern, and the
    first starts before the second. *)
Lemma findall_two ic r text d0 d1 :
  findall ic r text = [d0; d1] →
  ∃ pre0 t0 pre1 t1,
    text = pre0 ++ d0 ++ t0 ∧ text = pre1 ++ d1 ++ t1
    ∧ (length pre0 < length pre1)%nat
    ∧ lang ic r (lastc None pre0) d0 t0
    ∧ lang ic r (lastc None pre1) d1 t1.
Proof.
  unfold findall, finditer. intros E.
  pose proof (finditer_from_sorted ic r None text 0 0) as Hsorted.
  pose proof (finditer_from_sound ic r None text 0 0) as Hsound.
  destruct (finditer_from ic r None text 0 0) as [|[i0 w0] [|[i1 w1] [|? ?]]];
    try done.
  simpl in E. injection E as -> ->.
  destruct (Hsound i0 d0) as (pre0 & t0 & E0 & -> & HL0);
    [by apply elem_of_cons; left |].
  destruct (Hsound i1 d1) as (pre1 & t1 & E1 & -> & HL1);
    [by apply elem_of_cons; right; apply elem_of_cons; left |].
  apply StronglySorted_inv in Hsorted as [_ Hlt].
  apply Forall_cons in Hlt as [Hlt _]. simpl in Hlt.
  exists pre0, t0, pre1, t1. split_and!; done.
Qed.

End Scan.


(** * The verdict: [validate_emirates_id] *)

Section Verdict.
Context `{UnicodeData}.
Variable now : datetime.

Lemma validate_emirates_id_ok data side c b st :
  validate_side now data side no_lists = (Ok (c, b), st) →
  validate_emirates_id now data side =
    {| isValid := b && Nat.eqb (length (st_errors st)) 0; isEmiratesID := b;
       confidence := c; errors := st_errors st; warnings := st_warnings st |}.
Proof. unfold validate_emirates_id. fold no_lists. by intros ->. Qed.

Lemma validate_emirates_id_raise data side e st :
  validate_side now data side no_lists = (Raise e, st) →
  validate_emirates_id now data side =
    {| isValid := false; isEmiratesID := false; confidence := 0;
       errors := st_errors st ++ [u "Validation error: " ++ exn_msg e];
       warnings := st_warnings st |}.
Proof. unfold validate_emirates_id. fold no_lists. by intros ->. Qed.

(** C6: in the outcome of [validate_emirates_id], for every dictionary and
    side, [isValid] is [isEmiratesID] and no error; hence a valid outcome is
    an Emirates ID; and when the side validator raises, both are false and
    the errors are not empty. *)
Theorem isValid_is_emirates_id_without_errors
    (data : gmap string pyval) (side : str) :
  let o := validate_emirates_id now data side in
  isValid o = isEmiratesID o && bool_decide (errors o = [])
  ∧ (isValid o = true → isEmiratesID o = true)
  ∧ (∀ e st, validate_side now data side no_lists = (Raise e, st) →
       isValid o = false ∧ isEmiratesID o = false ∧ errors o ≠ []).
Proof.
  intros o. subst o.
  destruct (validate_side now data side no_lists) as [[[c b]|e] st] eqn:E.
  - rewrite (validate_emirates_id_ok _ _ _ _ _ E). simpl.
    split_and!.
    + by destruct (st_errors st), b.
    + by destruct b.
    + intros ? ? [=].
  - rewrite (validate_emirates_id_raise _ _ _ _ E). simpl.
    split_and!; [done | done |].
    intros _ _ _. split_and!; [done | done |].
    by destruct (st_errors st).
Qed.

(** C8: when the side validator raises, [validate_emirates_id] returns an
    outcome all the same: the errors are those appended before the exception
    and one entry more, made of the message of the exception; [isValid] and
    [isEmiratesID] are false. *)
Theorem exception_is_caught
    (data : gmap string pyval) (side : str) (e : exn) (st : lists) :
  validate_side now data side no_lists = (Raise e, st) →
  let o := validate_emirates_id now data side in
  errors o = st_errors st ++ [u "Validation error: " ++ exn_msg e]
  ∧ isValid o = false
  ∧ isEmiratesID o = false
  ∧ confidence o = 0%float
  ∧ warnings o = st_warnings st.
Proof.
  intros E o. subst o. by rewrite (validate_emirates_id_raise _ _ _ _ E).
Qed.

End Verdict.

(** C8 at [number_as_date]: the malformed ID number is an error, then the
    date of birth raises, and the exception is the second error. *)
Lemma exception_is_caught_witness :
  validate_side nov_2026 number_as_date front no_lists =
    (Raise (TypeError (u "strptime() argument 1 must be str, not int")),
     {| st_errors := [u "Invalid ID number format: x"];
        st_warnings := [u "Name not found"] |})
  ∧ errors (validate_emirates_id nov_2026 number_as_date front) =
      [u "Invalid ID number format: x";
       u "Validation error: strptime() argument 1 must be str, not int"].
Proof.
  assert (E : validate_side nov_2026 number_as_date front no_lists =
    (Raise (TypeError (u "strptime() argument 1 must be str, not int")),
     {| st_errors := [u "Invalid ID number format: x"];
        st_warnings := [u "Name not found"] |})) by (vm_compute; reflexivity).
  split; [exact E |].
  pose proof (exception_is_caught nov_2026 _ _ _ _ E) as P.
  vm_compute in P. vm_compute. exact (proj1 P).
Defined.

(** * The side validators *)

Ltac unfold_M :=
  unfold mbind, M_bind, mret, M_ret, call, check_threshold, append_warning,
    append_error in *.

Section Sides.
Context `{UnicodeData}.
Variable now : datetime.

Lemma validate_id_number_format_str s :
  ∃ b, validate_id_number_format (VStr s) = Ok b.
Proof. unfold validate_id_number_format. case_match; eauto. Qed.

(** [_validate_back_side] has no statement that appends to [errors]. *)
Lemma back_side_keeps_errors data st :
  st_errors (_validate_back_side data st).2 = st_errors st.
Proof.
  unfold _validate_back_side. unfold_M.
  repeat (case_match; simplify_eq/=; try done).
Qed.

Lemma back_side_returns data st :
  all_strings data →
  ∃ c b st', _validate_back_side data st = (Ok (c, b), st').
Proof.
  intros Hstr. unfold _validate_back_side. unfold_M.
  destruct (data !! "idNumber") as [v|] eqn:Eid; simpl.
  - pose proof (Hstr _ _ Eid) as Hv. destruct v as [s|]; [|done].
    destruct (validate_id_number_format_str s) as [b ->].
    repeat (case_match; simplify_eq/=; eauto).
  - repeat (case_match; simplify_eq/=; eauto).
Qed.

(** On the back side a malformed ID number is a warning. *)
Lemma back_side_malformed_id data s st :
  data !! "idNumber" = Some (VStr s) → s ≠ [] →
  validate_id_number_format (VStr s) = Ok false →
  u "ID number format unclear: " ++ s
    ∈ st_warnings (_validate_back_side data st).2.
Proof.
  intros Eid Hs Hbad. unfold _validate_back_side.
  rewrite Eid. change (default (VStr []) (Some (VStr s))) with (VStr s).
  assert (truthy_val (VStr s) = true) as ->.
  { simpl. by rewrite str_eqb_neq. }
  unfold_M. rewrite Hbad.
  repeat (case_match; simplify_eq/=); set_solver.
Qed.

(** C10: on the back side, for every dictionary of strings, the validator
    appends nothing to [errors], the outcome has no error, and [isValid] is
    [isEmiratesID]; a malformed ID number gives a warning. *)
Theorem back_side_has_no_errors (data : gmap string pyval) (side : str) :
  side ≠ front →
  all_strings data →
  let o := validate_emirates_id now data side in
  (∀ st, st_errors (_validate_back_side data st).2 = st_errors st)
  ∧ errors o = []
  ∧ isValid o = isEmiratesID o
  ∧ (∀ s, data !! "idNumber" = Some (VStr s) → s ≠ [] →
       validate_id_number_format (VStr s) = Ok false →
       u "ID number format unclear: " ++ s ∈ warnings o).
Proof.
  intros Hside Hstr o. subst o.
  split; [apply back_side_keeps_errors |].
  destruct (back_side_returns data no_lists Hstr) as (c & b & st & E).
  assert (Es : validate_side now data side no_lists = (Ok (c, b), st)).
  { unfold validate_side. fold front. by rewrite str_eqb_neq. }
  rewrite (validate_emirates_id_ok _ _ _ _ _ _ Es). simpl.
  pose proof (back_side_keeps_errors data no_lists) as Ke.
  rewrite E in Ke. simpl in Ke. rewrite Ke.
  split_and!; [done | by destruct b |].
  intros s Eid Hs Hbad.
  pose proof (back_side_malformed_id data s no_lists Eid Hs Hbad) as Hw.
  by rewrite E in Hw.
Qed.

(** ** Front side: the checks one by one *)

Lemma check_id_number_insert key v data c :
  key ≠ "idNumber"%string →
  check_id_number (<[key := v]> data) c = check_id_number data c.
Proof. intros. unfold check_id_number. by rewrite lookup_insert_ne. Qed.

Lemma check_name_insert key v data c :
  key ≠ "name"%string →
  check_name (<[key := v]> data) c = check_name data c.
Proof. intros. unfold check_name. by rewrite lookup_insert_ne. Qed.

Lemma check_date_of_birth_insert key v data c :
  key ≠ "dateOfBirth"%string →
  check_date_of_birth now (<[key := v]> data) c
  = check_date_of_birth now data c.
Proof. intros. unfold check_date_of_birth. by rewrite lookup_insert_ne. Qed.

Lemma check_present_insert key v data k c :
  key ≠ k →
  check_present (<[key := v]> data) k c = check_present data k c.
Proof. intros. unfold check_present. by rewrite lookup_insert_ne. Qed.

(** What a check adds to the confidence. *)
Lemma check_id_number_adds data c st c' b st' :
  check_id_number data c st = (Ok (c', b), st') →
  c' = c ∨ c' = (c + 0.4)%float.
Proof.
  unfold check_id_number. unfold_M.
  repeat (case_match; simplify_eq/=); intros; simplify_eq; auto.
Qed.

Lemma check_name_adds data c st c' st' :
  check_name data c st = (Ok c', st') → c' = c ∨ c' = (c + 0.2)%float.
Proof.
  unfold check_name. unfold_M.
  repeat (case_match; simplify_eq/=); intros; simplify_eq; auto.
Qed.

Lemma check_date_of_birth_adds data c st c' st' :
  check_date_of_birth now data c st = (Ok c', st') →
  c' = c ∨ c' = (c + 0.1)%float.
Proof.
  unfold check_date_of_birth. unfold_M.
  repeat (case_match; simplify_eq/=); intros; simplify_eq; auto.
Qed.

Lemma check_threshold_returns m c st :
  ∃ st', check_threshold m c st = (Ok tt, st')
         ∧ st_errors st' = st_errors st.
Proof. unfold check_threshold. unfold_M. case_match; eauto. Qed.

(** The expiry check without the key, and with a date that is valid. *)
Lemma check_expiry_date_absent data c st :
  data !! "expiryDate" = None →
  check_expiry_date now data c st =
    (Ok c, {| st_errors := st_errors st;
              st_warnings := st_warnings st ++ [u "Expiry date not found"] |}).
Proof. intros E. unfold check_expiry_date. by rewrite E. Qed.

Lemma validate_date_format_empty :
  validate_date_format (VStr []) = Ok false.
Proof. reflexivity. Qed.

Lemma check_expiry_date_valid data e c st :
  data !! "expiryDate" = Some (VStr e) →
  validate_date_format (VStr e) = Ok true →
  validate_expiry_date now (VStr e) = Ok true →
  check_expiry_date now data c st = (Ok (c + 0.2)%float, st).
Proof.
  intros E Hfmt Hexp. unfold check_expiry_date. rewrite E.
  change (default (VStr []) (Some (VStr e))) with (VStr e).
  assert (truthy (Some (VStr e)) = true) as ->.
  { destruct e; [|done]. by rewrite validate_date_format_empty in Hfmt. }
  unfold_M. by rewrite Hfmt, Hexp.
Qed.

Lemma after_expiry_monotone nationality gender c :
  c ∈ before_expiry →
  (after_expiry nationality gender c
   <=? after_expiry nationality gender (c + 0.2))%float = true.
Proof.
  unfold before_expiry. rewrite !elem_of_cons, elem_of_nil.
  intros Hc. destruct nationality, gender;
    repeat (destruct Hc as [-> | Hc]; [by vm_compute |]); done.
Qed.

(** The run of the front side, cut at the expiry check. *)
Lemma front_side_run data st :
  _validate_front_side now data st =
  match check_id_number data 0 st with
  | (Ok (c1, b), st1) =>
    match check_name data c1 st1 with
    | (Ok c2, st2) =>
      match check_date_of_birth now data c2 st2 with
      | (Ok c3, st3) =>
        match check_expiry_date now data c3 st3 with
        | (Ok c4, st4) =>
          let c6 :=
            check_present data "gender" (check_present data "nationality" c4) in
          match check_threshold 0.5 c6 st4 with
          | (Ok _, st5) => (Ok (min_1 c6, b), st5)
          | (Raise e, st5) => (Raise e, st5)
          end
        | (Raise e, st4) => (Raise e, st4)
        end
      | (Raise e, st3) => (Raise e, st3)
      end
    | (Raise e, st2) => (Raise e, st2)
    end
  | (Raise e, st1) => (Raise e, st1)
  end.
Proof.
  unfold _validate_front_side, mbind, M_bind, mret, M_ret.
  destruct (check_id_number data 0 st) as [[[c1 b]|e] st1]; [|done].
  destruct (check_name data c1 st1) as [[c2|e] st2]; [|done].
  destruct (check_date_of_birth now data c2 st2) as [[c3|e] st3]; [|done].
  destruct (check_expiry_date now data c3 st3) as [[c4|e] st4]; [|done].
  by destruct (check_threshold _ _ st4) as [[[]|e] st5].
Qed.

(** C7: on the front side, a dictionary without an expiry date, extended
    with an expiry date that parses and is in the future, has a confidence
    that is not smaller, and stays valid if it was. *)
Theorem expiry_date_is_monotone (F : gmap string pyval) (e : str) :
  F !! "expiryDate" = None →
  validate_date_format (VStr e) = Ok true →
  validate_expiry_date now (VStr e) = Ok true →
  let o1 := validate_emirates_id now F front in
  let o2 := validate_emirates_id now (<["expiryDate" := VStr e]> F) front in
  (confidence o1 <=? confidence o2)%float = true
  ∧ (isValid o1 = true → isValid o2 = true).
Proof.
  intros Habs Hfmt Hexp o1 o2. subst o1 o2.
  unfold validate_emirates_id, validate_side. fold front no_lists.
  assert (str_eqb front front = true) as -> by done.
  rewrite !front_side_run.
  rewrite check_id_number_insert by done.
  destruct (check_id_number F 0 no_lists) as [[[c1 b]|x] st1] eqn:E1;
    [|by simpl].
  rewrite check_name_insert by done.
  destruct (check_name F c1 st1) as [[c2|x] st2] eqn:E2; [|by simpl].
  rewrite check_date_of_birth_insert by done.
  destruct (check_date_of_birth now F c2 st2) as [[c3|x] st3] eqn:E3;
    [|by simpl].
  rewrite (check_expiry_date_absent F c3 st3 Habs).
  rewrite (check_expiry_date_valid _ e c3 st3) by (by rewrite ?lookup_insert_eq).
  cbv zeta. rewrite !check_present_insert by done.
  set (n := truthy (F !! "nationality")). set (g := truthy (F !! "gender")).
  assert (Hc3 : c3 ∈ before_expiry).
  { apply check_id_number_adds in E1. apply check_name_adds in E2.
    apply check_date_of_birth_adds in E3. unfold before_expiry.
    destruct E1 as [-> | ->], E2 as [-> | ->], E3 as [-> | ->]; set_solver. }
  pose proof (after_expiry_monotone n g c3 Hc3) as Hle.
  unfold after_expiry, check_present in *. fold n g.
  destruct (check_threshold_returns 0.5
    (if g then (if n then c3 + 0.05 else c3) + 0.05
     else if n then c3 + 0.05 else c3)%float
    {| st_errors := st_errors st3;
       st_warnings := st_warnings st3 ++ [u "Expiry date not found"] |})
    as (st5 & -> & Herr5).
  destruct (check_threshold_returns 0.5
    (if g then (if n then c3 + 0.2 + 0.05 else c3 + 0.2) + 0.05
     else if n then c3 + 0.2 + 0.05 else c3 + 0.2)%float st3)
    as (st5' & -> & Herr5').
  simpl. rewrite Herr5, Herr5'. simpl. by split.
Qed.

End Sides.

(** C10 at [malformed_back]: no error, a valid outcome, and the warning for
    the ID number. *)
Lemma back_side_has_no_errors_witness :
  back ≠ front
  ∧ all_strings malformed_back
  ∧ errors (validate_emirates_id nov_2026 malformed_back back) = []
  ∧ isValid (validate_emirates_id nov_2026 malformed_back back) = true
  ∧ u "ID number format unclear: 784-12"
      ∈ warnings (validate_emirates_id nov_2026 malformed_back back).
Proof.
  assert (Hside : back ≠ front) by (vm_compute; discriminate).
  assert (Hstr : all_strings malformed_back).
  { apply map_Forall_insert_2; [reflexivity | apply map_Forall_empty]. }
  pose proof (back_side_has_no_errors nov_2026 malformed_back back Hside Hstr)
    as (_ & Herr & Hvalid & Hwarn).
  split_and!; [exact Hside | exact Hstr | exact Herr | |].
  - rewrite Hvalid. vm_compute. reflexivity.
  - apply (Hwarn (u "784-12")); [reflexivity | vm_compute; discriminate
                                | vm_compute; reflexivity].
Defined.

(** C7 at [id_and_name], with the date 31/12/2030 and the clock
    [nov_2026]. *)
Lemma expiry_date_is_monotone_witness :
  id_and_name !! "expiryDate" = None
  ∧ validate_date_format (VStr (u "31/12/2030")) = Ok true
  ∧ validate_expiry_date nov_2026 (VStr (u "31/12/2030")) = Ok true
  ∧ (confidence (validate_emirates_id nov_2026 id_and_name front)
     <=? confidence
           (validate_emirates_id nov_2026
              (<["expiryDate" := VStr (u "31/12/2030")]> id_and_name) front))
     %float = true
  ∧ (isValid (validate_emirates_id nov_2026 id_and_name front) = true →
     isValid
       (validate_emirates_id nov_2026
          (<["expiryDate" := VStr (u "31/12/2030")]> id_and_name) front)
     = true).
Proof.
  assert (H1 : id_and_name !! "expiryDate" = None) by (vm_compute; reflexivity).
  assert (H2 : validate_date_format (VStr (u "31/12/2030")) = Ok true)
    by (vm_compute; reflexivity).
  assert (H3 : validate_expiry_date nov_2026 (VStr (u "31/12/2030")) = Ok true)
    by (vm_compute; reflexivity).
  pose proof (expiry_date_is_monotone nov_2026 id_and_name (u "31/12/2030")
                H1 H2 H3) as [P1 P2].
  split; [exact H1 |]. split; [exact H2 |]. split; [exact H3 |].
  split; [exact P1 | exact P2].
Defined.

(** The two outcomes of the witness: the date adds 0.2. *)
Example expiry_date_adds_its_weight :
  confidence (validate_emirates_id nov_2026 id_and_name front)
    = (0.4 + 0.2)%float
  ∧ confidence
      (validate_emirates_id nov_2026
         (<["expiryDate" := VStr (u "31/12/2030")]> id_and_name) front)
    = (0.4 + 0.2 + 0.2)%float.
Proof. by vm_compute. Qed.

(** * The parsers *)

Section Blocks.
Context `{UnicodeData}.

(** The blocks keep the keys they do not write. *)
Lemma parse_id_number_other raw_text data k :
  k ≠ "idNumber"%string → parse_id_number raw_text data !! k = data !! k.
Proof. intros. unfold parse_id_number. case_match; by simplify_map_eq. Qed.

Lemma parse_dates_other raw_text data k :
  k ≠ "dateOfBirth"%string → k ≠ "expiryDate"%string →
  parse_dates raw_text data !! k = data !! k.
Proof.
  intros. unfold parse_dates. repeat case_match; by simplify_map_eq.
Qed.

Lemma parse_name_other raw_text data k :
  k ≠ "name"%string → parse_name raw_text data !! k = data !! k.
Proof. intros. unfold parse_name. case_match; by simplify_map_eq. Qed.

Lemma parse_arabic_name_other raw_text data k :
  k ≠ "nameArabic"%string → parse_arabic_name raw_text data !! k = data !! k.
Proof.
  intros. unfold parse_arabic_name. repeat case_match; by simplify_map_eq.
Qed.

Lemma parse_nationality_other raw_text data k :
  k ≠ "nationality"%string → parse_nationality raw_text data !! k = data !! k.
Proof. intros. unfold parse_nationality. case_match; by simplify_map_eq. Qed.

Lemma parse_gender_other raw_text data k :
  k ≠ "gender"%string → parse_gender raw_text data !! k = data !! k.
Proof.
  intros. unfold parse_gender. repeat case_match; by simplify_map_eq.
Qed.

Lemma parse_issue_date_other raw_text data k :
  k ≠ "issueDate"%string → parse_issue_date raw_text data !! k = data !! k.
Proof. intros. unfold parse_issue_date. case_match; by simplify_map_eq. Qed.

Lemma parse_card_number_other raw_text data k :
  k ≠ "cardNumber"%string → parse_card_number raw_text data !! k = data !! k.
Proof. intros. unfold parse_card_number. case_match; by simplify_map_eq. Qed.

End Blocks.

(** Reading a key of the front side through the blocks that do not write
    it. *)
Ltac skip_blocks :=
  unfold _parse_front_side, _parse_back_side; cbv zeta;
  repeat first
    [ rewrite parse_issue_date_other by done
    | rewrite parse_gender_other by done
    | rewrite parse_nationality_other by done
    | rewrite parse_arabic_name_other by done
    | rewrite parse_name_other by done
    | rewrite parse_dates_other by done
    | rewrite parse_id_number_other by done
    | rewrite parse_card_number_other by done ].

Section FrontDates.
Context `{UnicodeData}.

(** No later block of [_parse_front_side] writes [dateOfBirth] or
    [expiryDate]. *)
Lemma front_side_dates raw_text :
  let stored := stored_dates raw_text (findall false date_pattern raw_text) in
  _parse_front_side raw_text !! "dateOfBirth" = VStr <$> stored.1
  ∧ _parse_front_side raw_text !! "expiryDate" = VStr <$> stored.2.
Proof.
  cbv zeta. split; skip_blocks; unfold parse_dates, stored_dates; cbv zeta;
    destruct (findall false date_pattern raw_text) as [|d0 [|d1 rest]];
    repeat case_match; simplify_map_eq;
    rewrite ?parse_id_number_other by done; done.
Qed.

Lemma dates_by_position raw_text d0 d1 rest :
  findall false date_pattern raw_text = d0 :: d1 :: rest →
  _parse_front_side raw_text !! "dateOfBirth" = Some (VStr d0)
  ∧ _parse_front_side raw_text !! "expiryDate" = Some (VStr d1).
Proof.
  intros E. pose proof (front_side_dates raw_text) as Hd.
  cbv zeta in Hd. by rewrite E in Hd.
Qed.

(** A single date goes by the keywords of the whole text. *)
Lemma single_date_by_whole_text raw_text d0 :
  findall false date_pattern raw_text = [d0] →
  if contains (u "expiry") (lower raw_text)
     || contains (u "exp") (lower raw_text)
  then _parse_front_side raw_text !! "expiryDate" = Some (VStr d0)
       ∧ _parse_front_side raw_text !! "dateOfBirth" = None
  else _parse_front_side raw_text !! "dateOfBirth" = Some (VStr d0)
       ∧ _parse_front_side raw_text !! "expiryDate" = None.
Proof.
  intros E. pose proof (front_side_dates raw_text) as [Hd He].
  rewrite E in Hd, He. unfold stored_dates in Hd, He.
  by destruct (contains (u "expiry") (lower raw_text)
               || contains (u "exp") (lower raw_text)).
Qed.

(** C9: when the scan of the front-side text finds exactly two dates, both
    are matches of the date pattern, the first starts before the second, and
    the first is stored as the date of birth, the second as the expiry date,
    whatever the text around them. *)
Theorem two_dates_by_position (raw_text d0 d1 : str) :
  findall false date_pattern raw_text = [d0; d1] →
  (∃ pre0 t0 pre1 t1,
     raw_text = pre0 ++ d0 ++ t0 ∧ raw_text = pre1 ++ d1 ++ t1
     ∧ (length pre0 < length pre1)%nat
     ∧ lang false date_pattern (lastc None pre0) d0 t0
     ∧ lang false date_pattern (lastc None pre1) d1 t1)
  ∧ extract raw_text front !! "dateOfBirth" = Some (VStr d0)
  ∧ extract raw_text front !! "expiryDate" = Some (VStr d1).
Proof.
  intros E. split; [by apply findall_two |].
  by apply (dates_by_position raw_text d0 d1 []).
Qed.

End FrontDates.

(** C9 at [misleading_keywords]: the date next to [Expiry] is stored as the
    date of birth, the one next to [Date of Birth] as the expiry date. *)
Lemma two_dates_by_position_witness :
  findall false date_pattern misleading_keywords
    = [u "15/01/1990"; u "31/12/2030"]
  ∧ extract misleading_keywords front !! "dateOfBirth"
    = Some (VStr (u "15/01/1990"))
  ∧ extract misleading_keywords front !! "expiryDate"
    = Some (VStr (u "31/12/2030")).
Proof.
  assert (E : findall false date_pattern misleading_keywords
              = [u "15/01/1990"; u "31/12/2030"]) by (vm_compute; reflexivity).
  split; [exact E |].
  exact (proj2 (two_dates_by_position misleading_keywords _ _ E)).
Defined.

(** * Scenario A *)

(** C1, where it fails: the name of scenario A is not extracted.  The text
    starts with the ID number, so the pattern anchored at the start does not
    match, and no [name] label comes before the name. *)
Lemma scenario_A_has_no_name :
  extract scenario_A front = scenario_A_extracted
  ∧ extract scenario_A front !! "name" = None
  ∧ scenario_A_expected !! "name" = Some (VStr (u "John Smith"))
  ∧ extract scenario_A front ≠ scenario_A_expected.
Proof.
  assert (E : extract scenario_A front = scenario_A_extracted)
    by (vm_compute; reflexivity).
  split_and!; [exact E | by rewrite E | done |].
  rewrite E. intros Heq.
  assert (Hn : scenario_A_extracted !! "name" = None) by done.
  by rewrite Heq in Hn.
Qed.

Section Checks.
Context `{UnicodeData}.
Variable now : datetime.

Lemma check_date_of_birth_valid data d c st :
  data !! "dateOfBirth" = Some (VStr d) →
  validate_date_format (VStr d) = Ok true →
  validate_date_of_birth now (VStr d) = Ok true →
  check_date_of_birth now data c st = (Ok (c + 0.1)%float, st).
Proof.
  intros E Hfmt Hdob. unfold check_date_of_birth. rewrite E.
  change (default (VStr []) (Some (VStr d))) with (VStr d).
  assert (truthy (Some (VStr d)) = true) as ->.
  { destruct d; [|done]. by rewrite validate_date_format_empty in Hfmt. }
  unfold_M. by rewrite Hfmt, Hdob.
Qed.

End Checks.

Section ScenarioA.
Variable now : datetime.

(** C1, as the code has it (with the rows [arabic_rows]): the parser returns
    the ID number and the two dates of scenario A, and no name.  On the dictionary the scenario
    expects, at a time from the date of birth on and before the expiry date,
    the validator answers as the scenario says, with the confidence the
    float sum [0.4 + 0.2 + 0.1 + 0.2]; on the dictionary that is extracted
    the name is missing, and its weight with it. *)
Theorem scenario_A_outcome :
  datetime_ltb now born = false →
  datetime_ltb now expires = true →
  extract scenario_A front = scenario_A_extracted
  ∧ validate_emirates_id now scenario_A_expected front =
      {| isValid := true; isEmiratesID := true;
         confidence := (0.4 + 0.2 + 0.1 + 0.2)%float;
         errors := []; warnings := [] |}
  ∧ validate_emirates_id now scenario_A_extracted front =
      {| isValid := true; isEmiratesID := true;
         confidence := (0.4 + 0.1 + 0.2)%float;
         errors := []; warnings := [u "Name not found"] |}.
Proof.
  intros Hborn Hexp.
  assert (Hd : validate_date_of_birth now (VStr (u "15/01/1990")) = Ok true).
  { unfold validate_date_of_birth.
    assert (parse_date (VStr (u "15/01/1990")) = Ok (Some born)) as ->
      by (vm_compute; reflexivity).
    by rewrite Hborn. }
  assert (He : validate_expiry_date now (VStr (u "31/12/2030")) = Ok true).
  { unfold validate_expiry_date.
    assert (parse_date (VStr (u "31/12/2030")) = Ok (Some expires)) as ->
      by (vm_compute; reflexivity).
    by rewrite Hexp. }
  assert (Hfd : validate_date_format (VStr (u "15/01/1990")) = Ok true)
    by (vm_compute; reflexivity).
  assert (Hfe : validate_date_format (VStr (u "31/12/2030")) = Ok true)
    by (vm_compute; reflexivity).
  split; [vm_compute; reflexivity |].
  split.
  - unfold validate_emirates_id, validate_side. fold front no_lists.
    assert (str_eqb front front = true) as -> by done.
    rewrite front_side_run.
    assert (check_id_number scenario_A_expected 0 no_lists
            = (Ok (0.4%float, true), no_lists)) as ->
      by (vm_compute; reflexivity).
    assert (check_name scenario_A_expected 0.4 no_lists
            = (Ok (0.4 + 0.2)%float, no_lists)) as ->
      by (vm_compute; reflexivity).
    rewrite (check_date_of_birth_valid _ _ (u "15/01/1990")) by done.
    rewrite (check_expiry_date_valid _ _ (u "31/12/2030")) by done.
    vm_compute. reflexivity.
  - unfold validate_emirates_id, validate_side. fold front no_lists.
    assert (str_eqb front front = true) as -> by done.
    rewrite front_side_run.
    assert (check_id_number scenario_A_extracted 0 no_lists
            = (Ok (0.4%float, true), no_lists)) as ->
      by (vm_compute; reflexivity).
    assert (check_name scenario_A_extracted 0.4 no_lists
            = (Ok 0.4%float,
               {| st_errors := []; st_warnings := [u "Name not found"] |}))
      as -> by (vm_compute; reflexivity).
    rewrite (check_date_of_birth_valid _ _ (u "15/01/1990")) by done.
    rewrite (check_expiry_date_valid _ _ (u "31/12/2030")) by done.
    vm_compute. reflexivity.
Qed.

End ScenarioA.

(** C1 at the clock [nov_2026]. *)
Lemma scenario_A_outcome_witness :
  datetime_ltb nov_2026 born = false
  ∧ datetime_ltb nov_2026 expires = true
  ∧ extract scenario_A front = scenario_A_extracted
  ∧ confidence (validate_emirates_id nov_2026 scenario_A_expected front)
    = (0.4 + 0.2 + 0.1 + 0.2)%float.
Proof.
  assert (H1 : datetime_ltb nov_2026 born = false) by reflexivity.
  assert (H2 : datetime_ltb nov_2026 expires = true) by reflexivity.
  destruct (scenario_A_outcome nov_2026 H1 H2) as (P1 & P2 & _).
  split; [exact H1 |]. split; [exact H2 |]. split; [exact P1 |].
  by rewrite P2.
Defined.

(** The float sum of the scenario is the float next above 0.9, and is shown
    as 0.90. *)
Example scenario_A_confidence :
  (0.4 + 0.2 + 0.1 + 0.2 =? 0.9000000000000001)%float = true
  ∧ (0.9 <? 0.4 + 0.2 + 0.1 + 0.2)%float = true
  ∧ format_2f (0.4 + 0.2 + 0.1 + 0.2) = u "0.90".
Proof. by vm_compute. Qed.

(** * A single date *)

(** C3, the code at this text: the date is found once, at offset 32; the 20
    characters before and after that offset hold no expiry keyword (they hold
    [birth]); [_parse_front_side] looks for the keyword in the whole text and
    stores the date as the expiry date, where [extract_dates], which reads
    the window, stores it as the date of birth. *)
Theorem single_date_is_read_without_window :
  findall false date_pattern card_without_expiry = [u "15/01/1990"]
  ∧ find (lower card_without_expiry) (u "15/01/1990") = 32%Z
  ∧ slice (lower card_without_expiry) (32 - 20) (32 + 20)
    = u "mith date of birth: 15/01/1990 nationali"
  ∧ contains (u "exp")
      (slice (lower card_without_expiry) (32 - 20) (32 + 20)) = false
  ∧ contains (u "exp") (lower card_without_expiry) = true
  ∧ extract card_without_expiry front !! "expiryDate"
    = Some (VStr (u "15/01/1990"))
  ∧ extract card_without_expiry front !! "dateOfBirth" = None
  ∧ extract_dates card_without_expiry = {[ "dateOfBirth" := u "15/01/1990" ]}.
Proof. split_and!; vm_compute; reflexivity. Qed.

(** * No date *)

Section NoDate.
Context `{UnicodeData}.
Variable now : datetime.

(** Every value the front-side parser stores is a string. *)
Lemma front_side_all_strings raw_text :
  all_strings (_parse_front_side raw_text).
Proof.
  assert (Hins : ∀ k s (d : gmap string pyval),
            all_strings d → all_strings (<[k := VStr s]> d)).
  { intros k s d Hd. by apply map_Forall_insert_2. }
  unfold _parse_front_side. cbv zeta.
  unfold parse_issue_date. case_match; [apply Hins |];
  (unfold parse_gender; repeat case_match; [apply Hins | apply Hins |]);
  (unfold parse_nationality; case_match; [apply Hins |]);
  (unfold parse_arabic_name; repeat case_match; [apply Hins | |]);
  (unfold parse_name; case_match; [apply Hins |]);
  (unfold parse_dates; repeat case_match; repeat apply Hins);
  (unfold parse_id_number; case_match; [apply Hins |]);
  apply map_Forall_empty.
Qed.

Lemma keeps_refl st : keeps st st.
Proof. by split. Qed.

Lemma keeps_trans st1 st2 st3 : keeps st1 st2 → keeps st2 st3 → keeps st1 st3.
Proof. intros [A1 B1] [A2 B2]. split; auto. Qed.

Lemma keeps_warning st w :
  expected_warning w →
  keeps st {| st_errors := st_errors st; st_warnings := st_warnings st ++ [w] |}.
Proof.
  intros Hw. split; simpl.
  - intros w' Hin. apply elem_of_app. by left.
  - intros Hst. apply Forall_app. split; [done | by constructor].
Qed.

Lemma keeps_error st e :
  keeps st {| st_errors := st_errors st ++ [e]; st_warnings := st_warnings st |}.
Proof. by split. Qed.

Lemma check_id_number_keeps data c st :
  all_strings data →
  ∃ c' b st', check_id_number data c st = (Ok (c', b), st') ∧ keeps st st'.
Proof.
  intros Hstr. unfold check_id_number.
  assert (Hw : expected_warning (u "ID number not found in extracted text"))
    by (by left).
  destruct (data !! "idNumber") as [v|] eqn:Eid; simpl.
  - pose proof (Hstr _ _ Eid) as Hv. destruct v as [s|]; [|done].
    destruct (validate_id_number_format_str s) as [b Hb].
    unfold_M. rewrite Hb.
    destruct (truthy_val (VStr s)), b;
      eauto 8 using keeps_refl, keeps_error, keeps_warning.
  - unfold_M. eauto 8 using keeps_warning.
Qed.

Lemma check_name_keeps data c st :
  ∃ c' st', check_name data c st = (Ok c', st') ∧ keeps st st'.
Proof.
  assert (Hw : expected_warning (u "Name not found")) by (right; by left).
  unfold check_name. unfold_M.
  case_match; eauto 8 using keeps_refl, keeps_warning.
Qed.

Lemma check_date_of_birth_absent data c st :
  data !! "dateOfBirth" = None →
  check_date_of_birth now data c st = (Ok c, st).
Proof. intros E. unfold check_date_of_birth. by rewrite E. Qed.

Lemma check_threshold_keeps m c st :
  ∃ st', check_threshold m c st = (Ok tt, st') ∧ keeps st st'.
Proof.
  assert (Hw : expected_warning (u "Low confidence score: " ++ format_2f c)).
  { do 3 right. by exists c. }
  unfold check_threshold. unfold_M.
  case_match; eauto 8 using keeps_refl, keeps_warning.
Qed.

(** The front side without both dates: the expiry warning is given, and
    every warning is one of the expected. *)
Lemma front_side_without_dates data :
  all_strings data →
  data !! "dateOfBirth" = None →
  data !! "expiryDate" = None →
  let o := validate_emirates_id now data front in
  u "Expiry date not found" ∈ warnings o
  ∧ Forall expected_warning (warnings o).
Proof.
  intros Hstr Hdob Hexp o. subst o.
  unfold validate_emirates_id, validate_side. fold front no_lists.
  assert (str_eqb front front = true) as -> by done.
  rewrite front_side_run.
  destruct (check_id_number_keeps data 0 no_lists Hstr)
    as (c1 & b & st1 & -> & K1).
  destruct (check_name_keeps data c1 st1) as (c2 & st2 & -> & K2).
  rewrite (check_date_of_birth_absent _ _ _ Hdob).
  rewrite (check_expiry_date_absent now _ _ _ Hexp). cbv zeta.
  match goal with
  | |- context [check_threshold ?m ?c ?st] =>
    destruct (check_threshold_keeps m c st) as (st5 & -> & K5)
  end.
  simpl.
  assert (K : keeps no_lists st2) by eauto using keeps_trans.
  split.
  - apply K5. simpl. apply elem_of_app. right. by apply list_elem_of_singleton.
  - apply K5. simpl. apply Forall_app. split.
    + apply K. constructor.
    + constructor; [|constructor]. do 2 right. by left.
Qed.

(** None of the expected warnings is about the date of birth. *)
Lemma expected_warning_not_birth w :
  expected_warning w → starts_with (u "Date of birth") w = false.
Proof. by intros [-> | [-> | [-> | [c ->]]]]. Qed.

(** C4, as the code has it: a front-side text that holds no date gives
    neither [dateOfBirth] nor [expiryDate]; the validator then warns that the
    expiry date was not found; it has no warning for a date of birth that is
    absent: every warning is one of the four that [expected_warning]
    lists. *)
Theorem no_date_no_expiry_warning (raw_text : str) :
  ¬ occurs false date_pattern raw_text →
  let data := extract raw_text front in
  let o := validate_emirates_id now data front in
  data !! "dateOfBirth" = None
  ∧ data !! "expiryDate" = None
  ∧ u "Expiry date not found" ∈ warnings o
  ∧ Forall expected_warning (warnings o)
  ∧ (∀ w, w ∈ warnings o → starts_with (u "Date of birth") w = false).
Proof.
  intros Hno data o. subst data o.
  assert (extract raw_text front = _parse_front_side raw_text) as -> by done.
  pose proof (front_side_dates raw_text) as [Hdob Hexp].
  rewrite (findall_nil _ _ _ Hno) in Hdob, Hexp. simpl in Hdob, Hexp.
  pose proof (front_side_without_dates _ (front_side_all_strings raw_text)
                Hdob Hexp) as [Hin Hall].
  split_and!; try done.
  intros w Hw. apply expected_warning_not_birth.
  by apply (proj1 (Forall_forall _ _) Hall).
Qed.

End NoDate.

(** C4, where it fails: at [id_only] there is one warning for the dates,
    not two; nothing is said of the date of birth. *)
Lemma missing_birth_date_is_not_warned :
  findall false date_pattern id_only = []
  ∧ warnings (validate_emirates_id nov_2026 (extract id_only front) front)
    = [u "Name not found"; u "Expiry date not found";
       u "Low confidence score: 0.40"]
  ∧ forallb (λ w, negb (contains (u "birth") (lower w)))
      (warnings (validate_emirates_id nov_2026 (extract id_only front) front))
    = true.
Proof. split_and!; vm_compute; reflexivity. Qed.

(** C4 at [id_only]. *)
Lemma no_date_no_expiry_warning_witness :
  ¬ occurs false date_pattern id_only
  ∧ extract id_only front !! "dateOfBirth" = None
  ∧ extract id_only front !! "expiryDate" = None
  ∧ u "Expiry date not found"
      ∈ warnings (validate_emirates_id nov_2026 (extract id_only front) front).
Proof.
  assert (Hno : ¬ occurs false date_pattern id_only).
  { intros Hocc. apply search_occurs in Hocc as [m Hm].
    vm_compute in Hm. discriminate Hm. }
  destruct (no_date_no_expiry_warning nov_2026 id_only Hno)
    as (P1 & P2 & P3 & _).
  split; [exact Hno |]. split; [exact P1 |]. split; [exact P2 | exact P3].
Defined.

(** * The ID number *)

Section IdNumber.
Context `{UnicodeData}.

Lemma lang_map ic f r :
  kept_by ic f r →
  ∀ p w t p' t', lang ic r p w t → lang ic r p' (map f w) t'.
Proof.
  induction r as [|c|items|r1 IH1 r2 IH2|r1 IH1 r2 IH2|lo hi r1 IH1|n r1 IH1
                  | | |]; simpl; intros Hkept p w t p' t' HL; try done.
  - by subst.
  - destruct HL as (x & -> & E). exists (f x). auto.
  - destruct HL as (x & -> & E). exists (f x). auto.
  - destruct Hkept as [K1 K2]. destruct HL as (w1 & w2 & -> & HL1 & HL2).
    exists (map f w1), (map f w2). rewrite map_app. eauto.
  - destruct Hkept as [K1 K2]. destruct HL as [HL | HL]; eauto.
  - revert p' t'. induction HL as [hi p t | lo hi p w1 w2 t ? ? HL1 ? IH];
      intros p' t'.
    + constructor.
    + rewrite map_app. constructor; eauto. by destruct w1.
  - eauto.
Qed.

(** [seq] of two lists of patterns. *)
Lemma lang_seq_app ic l1 l2 p w1 w2 t :
  lang ic (seq l1) p w1 (w2 ++ t) →
  lang ic (seq l2) (lastc p w1) w2 t →
  lang ic (seq (l1 ++ l2)) p (w1 ++ w2) t.
Proof.
  revert p w1. induction l1 as [|r l1 IH]; intros p w1; simpl.
  - intros ->. by rewrite lastc_nil.
  - intros (wa & wb & -> & HLa & HLb) HL2.
    exists wa, (wb ++ w2).
    split_and!; [by rewrite app_assoc | by rewrite <- app_assoc |].
    apply IH; [done |]. by rewrite <- lastc_app.
Qed.

Lemma id_pattern_items : id_pattern = seq id_items.
Proof. reflexivity. Qed.

Lemma ID_NUMBER_PATTERN_items :
  ID_NUMBER_PATTERN = seq ([RBos] ++ id_items ++ [REos]).
Proof. reflexivity. Qed.

Lemma dashed_idem s : dashed (dashed s) = dashed s.
Proof.
  unfold dashed, replace. rewrite map_map. apply map_ext. intros c.
  destruct (c =? ch " ") eqn:E; [done |]. by rewrite E.
Qed.

Lemma id_pattern_kept : kept_by false (λ c, if c =? ch " " then ch "-" else c) id_pattern.
Proof.
  assert (Hch : ∀ c, c ≠ ch " " →
            ∀ x, char_eq false c x = true →
                 char_eq false c (if x =? ch " " then ch "-" else x) = true).
  { intros c Hc x. unfold char_eq. rewrite !orb_false_r.
    intros E%N.eqb_eq. subst x. by rewrite (proj2 (N.eqb_neq c _) Hc), N.eqb_refl. }
  assert (Hsep : ∀ x, set_has false [CLit (ch "-"); CSpace] x = true →
            set_has false [CLit (ch "-"); CSpace]
              (if x =? ch " " then ch "-" else x) = true).
  { intros x. destruct (x =? ch " ") eqn:E; [done | done]. }
  assert (Hdig : ∀ x, set_has false [CDigit] x = true →
            set_has false [CDigit] (if x =? ch " " then ch "-" else x) = true).
  { intros x. destruct (x =? ch " ") eqn:E; [|done].
    apply N.eqb_eq in E. by subst x. }
  unfold id_pattern, lit. change (u "784") with [55; 56; 52].
  cbn -[char_eq set_has N.eqb].
  repeat split; try apply Hch; try done.
Qed.

Lemma id_pattern_nonempty p w t : lang false id_pattern p w t → w ≠ [].
Proof.
  unfold id_pattern, lit. change (u "784") with [55; 56; 52].
  cbn -[char_eq set_has].
  intros (w1 & w2 & -> & (wa & wb & -> & (x & -> & _) & _) & _). done.
Qed.

(** A match of the pattern, with its spaces turned into dashes, is a string
    that the validator accepts. *)
Lemma id_number_is_accepted p w t :
  lang false id_pattern p w t →
  validate_id_number_format (VStr (dashed w)) = Ok true.
Proof.
  intros HL. unfold validate_id_number_format. fold (dashed (dashed w)).
  rewrite dashed_idem.
  apply (lang_map _ _ _ id_pattern_kept _ _ _ (lastc None []) ([] ++ [])) in HL.
  fold (replace (ch " ") (ch "-") w) in HL. fold (dashed w) in HL.
  assert (HID : lang false ID_NUMBER_PATTERN None (dashed w) []).
  { replace (dashed w) with ([] ++ dashed w ++ [])
      by (simpl; apply app_nil_r).
    rewrite ID_NUMBER_PATTERN_items. apply lang_seq_app.
    - simpl. exists [], []. by split_and!.
    - apply lang_seq_app; [by rewrite <- id_pattern_items |].
      simpl. exists [], []. by split_and!. }
  destruct (match_at_complete _ _ _ _ _ HID) as [m Hm].
  unfold re_match. rewrite app_nil_r in Hm. by rewrite Hm.
Qed.

(** The leftmost match: no match starts before the one [re.search]
    returns. *)
Lemma search_from_leftmost ic r p s m :
  search_from ic r p s = Some m →
  ∃ pre, s = pre ++ m_text m ++ m_rest m
    ∧ lang ic r (lastc p pre) (m_text m) (m_rest m)
    ∧ ∀ pre' w' t', s = pre' ++ w' ++ t' → lang ic r (lastc p pre') w' t' →
        (length pre ≤ length pre')%nat.
Proof.
  revert p. induction s as [|c s IH]; intros p; simpl.
  - destruct (match_at ic r p []) eqn:E; [|done]. intros [= ->].
    apply match_at_sound in E as [? ?]. exists []. split_and!; try done.
    simpl. lia.
  - destruct (match_at ic r p (c :: s)) eqn:E.
    + intros [= ->]. apply match_at_sound in E as [? ?].
      exists []. split_and!; try done. simpl. lia.
    + intros Hs. apply IH in Hs as (pre & -> & HL & Hleft).
      exists (c :: pre). rewrite lastc_cons. split_and!; try done.
      intros [|c' pre'] w' t' Heq HL'.
      * simpl in Heq. rewrite lastc_nil in HL'.
        destruct (match_at_complete _ _ _ _ _ HL') as [m' Hm'].
        rewrite <- Heq in Hm'. congruence.
      * simpl in Heq. injection Heq as <- Heq. rewrite lastc_cons in HL'.
        specialize (Hleft _ _ _ Heq HL'). simpl. lia.
Qed.

(** What the ID number block stores. *)
Lemma parse_id_number_lookup raw_text (data : gmap string pyval) :
  parse_id_number raw_text data !! "idNumber" =
  match search false id_pattern raw_text with
  | Some m => Some (VStr (dashed (m_text m)))
  | None => data !! "idNumber"
  end.
Proof. unfold parse_id_number. case_match; by simplify_map_eq. Qed.

Lemma front_side_id_number raw_text :
  _parse_front_side raw_text !! "idNumber" =
  (λ m, VStr (dashed (m_text m))) <$> search false id_pattern raw_text.
Proof. skip_blocks. rewrite parse_id_number_lookup. by case_match. Qed.

Lemma back_side_id_number raw_text :
  _parse_back_side raw_text !! "idNumber" =
  (λ m, VStr (dashed (m_text m))) <$> search false id_pattern raw_text.
Proof.
  unfold _parse_back_side. cbv zeta. rewrite parse_id_number_lookup.
  case_match; [done |]. by rewrite parse_card_number_other.
Qed.

(** On strings the date checks do not raise. *)
Lemma strptime_str_cases s fmt :
  (∃ d, strptime_str s fmt = Ok d) ∨ (∃ m, strptime_str s fmt = Raise (ValueError m)).
Proof. unfold strptime_str. repeat case_match; eauto. Qed.

Lemma validate_date_format_in_str formats s :
  ∃ b, validate_date_format_in formats (VStr s) = Ok b.
Proof.
  induction formats as [|fmt formats IH]; simpl; [eauto |].
  destruct (strptime_str_cases s fmt) as [[d ->] | [m ->]]; eauto.
Qed.

Lemma parse_date_in_str formats s :
  ∃ o, parse_date_in formats (VStr s) = Ok o.
Proof.
  induction formats as [|fmt formats IH]; simpl; [eauto |].
  destruct (strptime_str_cases s fmt) as [[d ->] | [m ->]]; eauto.
Qed.

Section Returns.
Variable now : datetime.

Lemma check_date_of_birth_returns data c st :
  all_strings data →
  ∃ c' st', check_date_of_birth now data c st = (Ok c', st').
Proof.
  intros Hstr. unfold check_date_of_birth.
  destruct (data !! "dateOfBirth") as [v|] eqn:E; simpl; [|eauto].
  pose proof (Hstr _ _ E) as Hv. destruct v as [s|]; [|done].
  unfold validate_date_format, validate_date_of_birth, parse_date.
  destruct (validate_date_format_in_str DATE_FORMATS s) as [b ->].
  destruct (parse_date_in_str DATE_FORMATS s) as [o ->].
  unfold_M. repeat case_match; simplify_eq; eauto.
Qed.

Lemma check_expiry_date_returns data c st :
  all_strings data →
  ∃ c' st', check_expiry_date now data c st = (Ok c', st').
Proof.
  intros Hstr. unfold check_expiry_date.
  destruct (data !! "expiryDate") as [v|] eqn:E; simpl; [|unfold_M; eauto].
  pose proof (Hstr _ _ E) as Hv. destruct v as [s|]; [|done].
  unfold validate_date_format, validate_expiry_date, parse_date.
  destruct (validate_date_format_in_str DATE_FORMATS s) as [b ->].
  destruct (parse_date_in_str DATE_FORMATS s) as [o ->].
  unfold_M. repeat case_match; simplify_eq; eauto.
Qed.

(** On strings the front side returns, with the flag of the ID number
    check. *)
Lemma front_side_returns data st c1 b st1 :
  all_strings data →
  check_id_number data 0 st = (Ok (c1, b), st1) →
  ∃ c st', _validate_front_side now data st = (Ok (c, b), st').
Proof.
  intros Hstr E1. rewrite front_side_run, E1.
  destruct (check_name_keeps data c1 st1) as (c2 & st2 & -> & _).
  destruct (check_date_of_birth_returns data c2 st2 Hstr) as (c3 & st3 & ->).
  destruct (check_expiry_date_returns data c3 st3 Hstr) as (c4 & st4 & ->).
  cbv zeta.
  match goal with
  | |- context [check_threshold ?m ?c ?st] =>
    destruct (check_threshold_returns m c st) as (st5 & -> & _)
  end.
  eauto.
Qed.

(** The ID number check on an ID number that the parser has stored. *)
Lemma check_id_number_accepts data w c st :
  data !! "idNumber" = Some (VStr (dashed w)) →
  w ≠ [] →
  validate_id_number_format (VStr (dashed w)) = Ok true →
  check_id_number data c st = (Ok ((c + 0.4)%float, true), st).
Proof.
  intros E Hw Hok. unfold check_id_number. rewrite E.
  change (default (VStr []) (Some (VStr (dashed w)))) with (VStr (dashed w)).
  assert (truthy_val (VStr (dashed w)) = true) as -> by (by destruct w).
  unfold_M. by rewrite Hok.
Qed.

(** C2, as the code has it: when the front-side text holds a match of the
    ID number pattern, the parser stores the leftmost match with every space
    (U+0020) turned into a dash, the other characters being kept; on the
    dictionary of the parser the ID number check adds 0.4 and sets the flag,
    and the outcome has [isEmiratesID]. *)
Theorem id_number_is_stored_and_accepted (raw_text : str) :
  occurs false id_pattern raw_text →
  let data := extract raw_text front in
  ∃ pre w t,
    raw_text = pre ++ w ++ t
    ∧ lang false id_pattern (lastc None pre) w t
    ∧ (∀ pre' w' t', raw_text = pre' ++ w' ++ t' →
         lang false id_pattern (lastc None pre') w' t' →
         (length pre ≤ length pre')%nat)
    ∧ data !! "idNumber" = Some (VStr (replace (ch " ") (ch "-") w))
    ∧ (∀ c st, check_id_number data c st = (Ok ((c + 0.4)%float, true), st))
    ∧ isEmiratesID (validate_emirates_id now data front) = true.
Proof.
  intros Hocc data. subst data.
  assert (extract raw_text front = _parse_front_side raw_text) as -> by done.
  apply search_occurs in Hocc as [m Hm].
  pose proof (front_side_id_number raw_text) as Hid. rewrite Hm in Hid.
  simpl in Hid.
  apply search_from_leftmost in Hm as (pre & Heq & HL & Hleft).
  pose proof (id_number_is_accepted _ _ _ HL) as Hok.
  pose proof (id_pattern_nonempty _ _ _ HL) as Hne.
  assert (Hcheck : ∀ c st,
    check_id_number (_parse_front_side raw_text) c st
    = (Ok ((c + 0.4)%float, true), st))
    by (intros; by apply (check_id_number_accepts _ (m_text m))).
  exists pre, (m_text m), (m_rest m). split_and!; try done.
  destruct (front_side_returns _ no_lists _ _ _
              (front_side_all_strings raw_text) (Hcheck 0%float no_lists))
    as (c & st' & Hrun).
  assert (Hside : validate_side now (_parse_front_side raw_text) front no_lists
                  = (Ok (c, true), st')) by done.
  by rewrite (validate_emirates_id_ok _ _ _ _ _ _ Hside).
Qed.

End Returns.
End IdNumber.

(** C2 at [spaced_id]. *)
Lemma id_number_is_stored_and_accepted_witness :
  occurs false id_pattern spaced_id
  ∧ (∃ w, extract spaced_id front !! "idNumber"
          = Some (VStr (replace (ch " ") (ch "-") w)))
  ∧ isEmiratesID
      (validate_emirates_id nov_2026 (extract spaced_id front) front) = true.
Proof.
  assert (Hocc : occurs false id_pattern spaced_id).
  { apply search_occurs. vm_compute. eexists. reflexivity. }
  destruct (id_number_is_stored_and_accepted nov_2026 spaced_id Hocc)
    as (pre & w & t & _ & _ & _ & P4 & _ & P6).
  split; [exact Hocc |]. split; [by exists w | exact P6].
Defined.

(** What is stored for the witness. *)
Example spaced_id_is_dashed :
  extract spaced_id front !! "idNumber" = Some (VStr (u "784-1234-5678901-2")).
Proof. vm_compute. reflexivity. Qed.

(** C2, where it fails: a separator that is white space and not a space is
    kept, so the ID number that is stored for [tabbed_id] is not the one with
    dashes; the validator accepts it all the same. *)
Lemma tab_is_not_replaced :
  is_Some (search false id_pattern tabbed_id)
  ∧ isspace 9 = true
  ∧ extract tabbed_id front !! "idNumber"
    = Some (VStr (u "784" ++ [9] ++ u "1234-5678901-2"))
  ∧ extract tabbed_id front !! "idNumber"
    ≠ Some (VStr (u "784-1234-5678901-2"))
  ∧ isEmiratesID
      (validate_emirates_id nov_2026 (extract tabbed_id front) front) = true.
Proof.
  assert (E : extract tabbed_id front !! "idNumber"
              = Some (VStr (u "784" ++ [9] ++ u "1234-5678901-2")))
    by (vm_compute; reflexivity).
  split_and!; [vm_compute; by eexists | done | exact E | | vm_compute; reflexivity].
  rewrite E. vm_compute. discriminate.
Qed.

(** * The card number *)

Section CardNumber.
Context `{UnicodeData}.

Lemma decimal_is_word c : isdecimal c = true → isword c = true.
Proof.
  unfold isword. destruct (is_ascii c) eqn:E.
  - unfold isdecimal, decimal_value. rewrite E.
    by destruct (in_range 48 57 c).
  - by intros ->.
Qed.

(** A repetition of a set, without upper bound. *)
Lemma iter_set ic items lo p w t :
  iter (lang ic (RSet items)) lo None p w t
  ↔ (lo ≤ length w)%nat ∧ Forall (λ c, set_has ic items c = true) w.
Proof.
  split.
  - intros Hiter. remember None as hi eqn:Ehi.
    induction Hiter as [hi p t | lo hi p w1 w2 t _ _ HL _ IH].
    + split; [simpl; lia | constructor].
    + subst hi. destruct HL as (x & -> & Hx).
      destruct (IH eq_refl) as [Hlen Hall].
      split; [simpl; lia | by constructor].
  - revert lo p. induction w as [|c w IH]; intros lo p [Hlen Hall].
    + simpl in Hlen. replace lo with 0%nat by lia. constructor.
    + inversion Hall as [|? ? Hc Hw]; subst.
      change (c :: w) with ([c] ++ w). constructor; [done | done | |].
      * simpl. eauto.
      * apply IH. split; [simpl in Hlen; lia | done].
Qed.

Lemma set_has_digit ic c : set_has ic [CDigit] c = isdecimal c.
Proof. simpl. apply orb_false_r. Qed.

Lemma boundary_before_word p c s :
  isword c = true → boundary p (c :: s) = negb (word_at p).
Proof. intros E. unfold boundary. simpl. rewrite E. by destruct (word_at p). Qed.

Lemma boundary_after_word c t :
  isword c = true → boundary (Some c) t = negb (word_at (head t)).
Proof. intros E. unfold boundary. simpl. by rewrite E. Qed.

Lemma lastc_last p w c : last w = Some c → lastc p w = Some c.
Proof. unfold lastc. by intros ->. Qed.

(** The words of the card number pattern. *)
Lemma lang_card_number p w t :
  lang false card_number_pattern p w t ↔ card_run p w t.
Proof.
  unfold card_number_pattern, card_run.
  remember digit as d eqn:Ed. simpl. subst d. unfold digit. split.
  - intros (w1 & w2 & -> & [-> Hb1] & w3 & w4 & -> & Hiter & w5 & w6 & ->
            & [-> Hb2] & ->).
    rewrite !app_nil_l, ?app_nil_r, ?lastc_nil in *.
    apply iter_set in Hiter as [Hlen Hall].
    assert (Hall' : Forall (λ c, isdecimal c = true) w3).
    { eapply Forall_impl; [done |]. intros c Hc.
      by rewrite <- (set_has_digit false). }
    split_and!; try done.
    + destruct w3 as [|c w3]; [simpl in Hlen; lia |].
      inversion Hall' as [|? ? Hc _]; subst.
      simpl in Hb1. rewrite boundary_before_word in Hb1
        by (by apply decimal_is_word).
      by destruct (word_at p).
    + destruct (last w3) as [c|] eqn:El.
      * rewrite (lastc_last _ _ _ El) in Hb2.
        assert (isdecimal c = true) as Hc.
        { apply (proj1 (Forall_forall _ _) Hall').
          apply last_Some in El as [l' ->]. set_solver. }
        rewrite boundary_after_word in Hb2 by (by apply decimal_is_word).
        by destruct (word_at (head t)).
      * apply last_None in El. subst. simpl in Hlen. lia.
  - intros (Hlen & Hall & Hp & Ht).
    destruct w as [|c w]; [simpl in Hlen; lia |].
    inversion Hall as [|? ? Hc Hw]; subst.
    exists [], (c :: w). split_and!; try done.
    { simpl. rewrite boundary_before_word by (by apply decimal_is_word).
      by rewrite Hp. }
    exists (c :: w), []. rewrite app_nil_r. split_and!; try done.
    { apply iter_set. split; [done |].
      eapply Forall_impl; [done |]. intros x Hx.
      rewrite (set_has_digit false). exact Hx. }
    exists [], []. split_and!; try done. simpl.
    destruct (last (c :: w)) as [d|] eqn:El.
    + rewrite (lastc_last _ _ _ El).
      assert (isdecimal d = true) as Hd.
      { apply (proj1 (Forall_forall _ _) Hall).
        apply last_Some in El as [l' ->]. set_solver. }
      rewrite boundary_after_word by (by apply decimal_is_word).
      by rewrite Ht.
    + by apply last_None in El.
Qed.

(** At a position there is one run at most: the run is the longest prefix
    made of digits. *)
Lemma card_run_shorter p w t p' w' t' :
  w ++ t = w' ++ t' → card_run p w t → card_run p' w' t' →
  (length w' ≤ length w)%nat.
Proof.
  intros Heq (_ & _ & _ & Ht) (_ & Hall' & _ & _).
  destruct (decide (length w' ≤ length w)%nat) as [|Hgt]; [done |].
  exfalso.
  assert (Hw : w' = w ++ take (length w' - length w) t).
  { transitivity (take (length w') (w' ++ t')); [by rewrite take_app_length |].
    rewrite <- Heq, take_app, take_ge by lia. done. }
  destruct t as [|c t].
  { rewrite take_nil, app_nil_r in Hw. subst. lia. }
  assert (Hc : isdecimal c = true).
  { apply (proj1 (Forall_forall _ _) Hall'). rewrite Hw.
    destruct (length w' - length w)%nat eqn:E; [lia |]. set_solver. }
  simpl in Ht. by rewrite (decimal_is_word _ Hc) in Ht.
Qed.

Lemma card_run_unique p w t p' w' t' :
  w ++ t = w' ++ t' → card_run p w t → card_run p' w' t' → w = w'.
Proof.
  intros Heq Hr Hr'.
  pose proof (card_run_shorter _ _ _ _ _ _ Heq Hr Hr').
  pose proof (card_run_shorter _ _ _ _ _ _ (eq_sym Heq) Hr' Hr).
  apply (f_equal (take (length w))) in Heq.
  rewrite take_app_length in Heq.
  replace (length w) with (length w') in Heq at 1 by lia.
  by rewrite take_app_length in Heq.
Qed.

(** The matcher at a position: the run that starts there. *)
Lemma match_at_card_number p s m :
  match_at false card_number_pattern p s = Some m →
  s = m_text m ++ m_rest m ∧ card_run p (m_text m) (m_rest m).
Proof.
  intros Hm. apply match_at_sound in Hm as [Heq HL].
  by apply lang_card_number in HL.
Qed.

Lemma card_run_is_matched p w t :
  card_run p w t →
  ∃ m, match_at false card_number_pattern p (w ++ t) = Some m ∧ m_text m = w.
Proof.
  intros Hr. pose proof Hr as HL. apply lang_card_number in HL.
  destruct (match_at_complete _ _ _ _ _ HL) as [m Hm].
  exists m. split; [done |].
  apply match_at_card_number in Hm as [Heq Hr'].
  symmetry. by apply (card_run_unique _ _ _ _ _ _ Heq Hr Hr').
Qed.

Lemma lastc_elem c pre : ∃ x, lastc (Some c) pre = Some x ∧ x ∈ c :: pre.
Proof.
  unfold lastc. destruct (last pre) as [x|] eqn:E.
  - exists x. split; [done |]. apply last_Some in E as [l' ->]. set_solver.
  - exists c. split; [done |]. set_solver.
Qed.

(** No run starts inside a run. *)
Lemma no_card_run_inside p w0 t0 c s pre w t :
  c :: s = w0 ++ t0 → card_run p w0 t0 →
  s = pre ++ w ++ t → card_run (lastc (Some c) pre) w t →
  (pred (length w0) ≤ length pre)%nat.
Proof.
  intros Heq0 (_ & Hall0 & _ & _) Heq (_ & _ & Hp & _).
  destruct (decide (pred (length w0) ≤ length pre)%nat) as [|Hlt]; [done |].
  exfalso.
  destruct (lastc_elem c pre) as (x & Hx & Hin). rewrite Hx in Hp.
  assert (Hpre : c :: pre = take (S (length pre)) w0).
  { transitivity (take (S (length pre)) (c :: s)).
    - rewrite Heq. simpl. by rewrite take_app_length.
    - rewrite Heq0. apply take_app_le. lia. }
  assert (Hd : isdecimal x = true).
  { apply (proj1 (Forall_forall _ _) Hall0).
    rewrite Hpre in Hin. apply elem_of_take in Hin as (k & Hk & _).
    by apply list_elem_of_lookup_2 in Hk. }
  simpl in Hp. by rewrite (decimal_is_word _ Hd) in Hp.
Qed.

(** The scan reports every run that does not start in the part it passes
    over. *)
Lemma finditer_from_card_number p s skip pos :
  (∀ pre w t, s = pre ++ w ++ t → card_run (lastc p pre) w t →
     (skip ≤ length pre)%nat) →
  ∀ pre w t, s = pre ++ w ++ t → card_run (lastc p pre) w t →
    ((pos + length pre)%nat, w)
      ∈ finditer_from false card_number_pattern p s skip pos.
Proof.
  revert p skip pos.
  induction s as [|c s IH]; intros p skip pos Hskip pre w t Heq Hr.
  - destruct pre, w; try done. destruct Hr as (Hlen & _). simpl in Hlen. lia.
  - assert (Htail : ∀ skip' pre',
      pre = c :: pre' →
      (∀ pre w t, s = pre ++ w ++ t → card_run (lastc (Some c) pre) w t →
         (skip' ≤ length pre)%nat) →
      ((pos + length pre)%nat, w)
        ∈ finditer_from false card_number_pattern (Some c) s skip' (S pos)).
    { intros skip' pre' -> Hskip'. simpl in Heq. injection Heq as Heq.
      rewrite lastc_cons in Hr.
      replace (pos + length (c :: pre'))%nat with (S pos + length pre')%nat
        by (simpl; lia).
      by apply (IH _ _ _ Hskip' pre' w t). }
    destruct skip as [|skip]; simpl.
    + destruct (match_at false card_number_pattern p (c :: s)) as [m|] eqn:E.
      * apply match_at_card_number in E as [Heq0 Hr0].
        destruct pre as [|c' pre'].
        -- simpl in Heq. rewrite lastc_nil in Hr.
           assert (m_text m = w) as ->.
           { apply (card_run_unique p _ (m_rest m) p _ t); [congruence | done..]. }
           replace (pos + length [])%nat with pos by (simpl; lia).
           apply elem_of_cons. by left.
        -- apply elem_of_cons. right.
           assert (c' = c) as -> by (simpl in Heq; congruence).
           apply (Htail _ pre'); [done |].
           intros pre2 w2 t2 Heq2 Hr2.
           by apply (no_card_run_inside p (m_text m) (m_rest m) c s pre2 w2 t2).
      * destruct pre as [|c' pre'].
        -- simpl in Heq. rewrite lastc_nil in Hr.
           destruct (card_run_is_matched _ _ _ Hr) as (m & Hm & _).
           rewrite <- Heq in Hm. congruence.
        -- assert (c' = c) as -> by (simpl in Heq; congruence).
           apply (Htail _ pre'); [done |]. intros; lia.
    + pose proof (Hskip _ _ _ Heq Hr) as Hlen.
      destruct pre as [|c' pre']; [simpl in Hlen; lia |].
      assert (c' = c) as -> by (simpl in Heq; congruence).
      apply (Htail _ pre'); [done |].
      intros pre2 w2 t2 Heq2 Hr2.
      assert (S skip ≤ length (c :: pre2))%nat; [|simpl in *; lia].
      apply (Hskip (c :: pre2) w2 t2); [by rewrite Heq2 |].
      by rewrite lastc_cons.
Qed.

(** [re.finditer] of the card number pattern lists the runs of the text. *)
Lemma finditer_card_number text i w :
  (i, w) ∈ finditer false card_number_pattern text ↔ card_at text i w.
Proof.
  unfold finditer, card_at. split.
  - intros Hin. apply finditer_from_sound in Hin as (pre & t & -> & -> & HL).
    exists pre, t. split_and!; [done | done |]. by apply lang_card_number.
  - intros (pre & t & -> & <- & Hr).
    apply (finditer_from_card_number None _ 0 0 ltac:(intros; lia) pre w t);
      done.
Qed.

(** ** The longest, and the first of the longest *)

Lemma longest_of_sorted (l : list (nat * str)) ib best :
  StronglySorted (λ a b : nat * str, (a.1 < b.1)%nat) ((ib, best) :: l) →
  ∃ i0, (i0, foldl longer best (snd <$> l)) ∈ (ib, best) :: l
    ∧ ∀ j w, (j, w) ∈ (ib, best) :: l →
        (length w ≤ length (foldl longer best (snd <$> l)))%nat
        ∧ (length w = length (foldl longer best (snd <$> l)) →
           (i0 ≤ j)%nat).
Proof.
  revert ib best. induction l as [|[j1 w1] l IH]; intros ib best Hsorted.
  - exists ib. simpl. split; [by apply list_elem_of_singleton |].
    intros j w [= -> ->]%list_elem_of_singleton. lia.
  - apply StronglySorted_inv in Hsorted as [Hsorted Hall].
    pose proof Hall as Hall0.
    apply Forall_cons in Hall as [Hj1 Hall]. simpl in Hj1.
    change (foldl longer best (snd <$> (j1, w1) :: l))
      with (foldl longer (longer best w1) (snd <$> l)).
    unfold longer at 2 4 6.
    destruct (length best <? length w1)%nat eqn:E.
    + apply Nat.ltb_lt in E.
      destruct (IH j1 w1 Hsorted) as (i0 & Hin & Hmax).
      exists i0. split; [by apply elem_of_cons; right |].
      intros j w [[= -> ->] | Hjw]%elem_of_cons; [|by apply Hmax].
      destruct (Hmax j1 w1) as [Hle _]; [by apply elem_of_cons; left |]. lia.
    + apply Nat.ltb_ge in E.
      assert (Hsorted' : StronglySorted (λ a b : nat * str, (a.1 < b.1)%nat)
                           ((ib, best) :: l)).
      { apply StronglySorted_inv in Hsorted as [Hsorted _].
        by constructor. }
      destruct (IH ib best Hsorted') as (i0 & Hin & Hmax).
      destruct (Hmax ib best) as [Hle Htie]; [by apply elem_of_cons; left |].
      exists i0. split.
      { apply elem_of_cons in Hin as [Hin | Hin];
          [by apply elem_of_cons; left | by do 2 (apply elem_of_cons; right)]. }
      intros j w [[= -> ->] | [[= -> ->] | Hjw]%elem_of_cons]%elem_of_cons.
      * done.
      * split; [lia |]. intros Hlen.
        apply elem_of_cons in Hin as [[= -> _] | Hin]; [lia |].
        assert (i0 ≤ ib)%nat by (apply Htie; lia).
        pose proof (proj1 (Forall_forall _ _) Hall _ Hin) as Hlt.
        simpl in Hlt. lia.
      * apply Hmax. by apply elem_of_cons; right.
Qed.

Lemma max_by_len_first_longest (l : list (nat * str)) :
  StronglySorted (λ a b : nat * str, (a.1 < b.1)%nat) l →
  match max_by_len (snd <$> l) with
  | Some w0 =>
    ∃ i0, (i0, w0) ∈ l
      ∧ ∀ j w, (j, w) ∈ l →
          (length w ≤ length w0)%nat ∧ (length w = length w0 → (i0 ≤ j)%nat)
  | None => l = []
  end.
Proof.
  destruct l as [|[ib best] l]; [done |]. intros Hsorted.
  apply (longest_of_sorted l ib best Hsorted).
Qed.

(** What the card number block stores. *)
Lemma back_side_card_number_lookup raw_text :
  _parse_back_side raw_text !! "cardNumber" =
  VStr <$> max_by_len (findall false card_number_pattern raw_text).
Proof.
  unfold _parse_back_side. cbv zeta. rewrite parse_id_number_other by done.
  unfold parse_card_number. case_match; by simplify_map_eq.
Qed.

(** C5, as the code has it: on the back side the card number is the longest
    run of 9 digits or more that stands between word boundaries, the first of
    the longest if several have that length, and there is no card number
    when the text has no such run; the ID number is the one the front side
    stores for the same text. *)
Theorem back_side_card_and_id_number (raw_text : str) :
  let data := extract raw_text back in
  data !! "idNumber" = extract raw_text front !! "idNumber"
  ∧ match data !! "cardNumber" with
    | Some v =>
      ∃ i0 w0, v = VStr w0 ∧ card_at raw_text i0 w0
        ∧ ∀ j w, card_at raw_text j w →
            (length w ≤ length w0)%nat
            ∧ (length w = length w0 → (i0 ≤ j)%nat)
    | None => ∀ i w, ¬ card_at raw_text i w
    end.
Proof.
  intros data. subst data.
  assert (extract raw_text back = _parse_back_side raw_text) as -> by done.
  assert (extract raw_text front = _parse_front_side raw_text) as -> by done.
  split; [by rewrite back_side_id_number, front_side_id_number |].
  rewrite back_side_card_number_lookup. unfold findall.
  pose proof (max_by_len_first_longest
                (finditer false card_number_pattern raw_text)
                (finditer_from_sorted _ _ _ _ _ _)) as Hmax.
  destruct (max_by_len (snd <$> finditer false card_number_pattern raw_text))
    as [w0|]; simpl.
  - destruct Hmax as (i0 & Hin & Hmax). exists i0, w0.
    split_and!; [done | by apply finditer_card_number |].
    intros j w Hat. by apply Hmax, finditer_card_number.
  - intros i w Hat. apply finditer_card_number in Hat.
    rewrite Hmax in Hat. by apply elem_of_nil in Hat.
Qed.

End CardNumber.

(** C5, where it fails: in [glued_run] the longest run of digits has 13
    digits and follows a letter; the card number is the run of 9 that stands
    alone, and there is none when the glued run is alone. *)
Lemma glued_digits_are_not_a_card_number :
  glued_run = u "REF" ++ u "1234567890123" ++ u " 987654321"
  ∧ forallb isdecimal (u "1234567890123") = true
  ∧ length (u "1234567890123") = 13%nat
  ∧ extract glued_run back !! "cardNumber" = Some (VStr (u "987654321"))
  ∧ extract glued_run back !! "cardNumber" ≠ Some (VStr (u "1234567890123"))
  ∧ extract (u "REF1234567890123") back !! "cardNumber" = None.
Proof. split_and!; vm_compute; (reflexivity || discriminate). Qed.

(** * Further properties

    What the code shows besides the claims: the verdicts of the validator as
    functions of the dictionary, the format of the ID number, the path from
    the raw text to the verdict, the checksum, [extract_dates] and the form
    of the fields that are stored. *)

(** ** Dates, scores and verdicts of the validator *)

Section Dates.
Context `{UnicodeData}.
Variable now : datetime.

Lemma datetime_ltb_lt a b :
  datetime_ltb a b = true ↔
  year a < year b
  ∨ (year a = year b
     ∧ (month a < month b
        ∨ (month a = month b
           ∧ (day a < day b ∨ (day a = day b ∧ micros a < micros b))))).
Proof.
  unfold datetime_ltb.
  repeat (rewrite orb_true_iff || rewrite andb_true_iff
          || rewrite N.ltb_lt || rewrite N.eqb_eq).
  reflexivity.
Qed.

Lemma datetime_ltb_asym a b : datetime_ltb a b = true → datetime_ltb b a = false.
Proof.
  intros E%datetime_ltb_lt.
  destruct (datetime_ltb b a) eqn:E'; [|done].
  apply datetime_ltb_lt in E'. lia.
Qed.

Lemma datetime_ltb_total a b :
  datetime_ltb a b = false → datetime_ltb b a = false → a = b.
Proof.
  intros E1 E2.
  assert (¬ datetime_ltb a b = true) as N1 by (by rewrite E1).
  assert (¬ datetime_ltb b a = true) as N2 by (by rewrite E2).
  rewrite datetime_ltb_lt in N1, N2.
  destruct a as [y1 m1 d1 u1], b as [y2 m2 d2 u2]. simpl in *.
  assert (y1 = y2) by lia. subst.
  assert (m1 = m2) by lia. subst.
  assert (d1 = d2) by lia. subst.
  assert (u1 = u2) by lia. by subst.
Qed.

Lemma date_loops_agree formats v :
  match parse_date_in formats v with
  | Ok (Some _) => validate_date_format_in formats v = Ok true
  | Ok None => validate_date_format_in formats v = Ok false
  | Raise e => validate_date_format_in formats v = Raise e
  end.
Proof.
  induction formats as [|fmt rest IH]; simpl; [done|].
  destruct (strptime v fmt) as [d|[m|m|m]]; done.
Qed.

(** X1: [validate_date_format] and [parse_date] run the same loop over
    [DATE_FORMATS]: for every value, the one answers [True] exactly when the
    other returns a date, [False] exactly when the other returns [None], and
    they raise the same exception. *)
Theorem validate_date_format_is_parse_date (v : pyval) :
  (validate_date_format v = Ok true ↔ ∃ d, parse_date v = Ok (Some d))
  ∧ (validate_date_format v = Ok false ↔ parse_date v = Ok None)
  ∧ (∀ e, validate_date_format v = Raise e ↔ parse_date v = Raise e).
Proof.
  unfold validate_date_format, parse_date.
  pose proof (date_loops_agree DATE_FORMATS v) as A.
  destruct (parse_date_in DATE_FORMATS v) as [[d|]|e]; rewrite A;
    (split; [|split; [|intros e']]); split; try done; eauto.
  - by intros [? ?].
  - by intros [? ?].
  - by intros [= ->].
  - by intros [= ->].
Qed.

(** X2: [is_id_expired] and [validate_expiry_date] of the same value at the same
    time: never both [True]; both [False] only for a date that is the
    time of the call itself; a string that is no date is expired for the one
    and not valid for the other; they raise together. *)
Theorem expired_or_valid (v : pyval) :
  (validate_expiry_date now v = Ok true → is_id_expired now v = Ok false)
  ∧ (is_id_expired now v = Ok false →
     validate_expiry_date now v = Ok true ∨ parse_date v = Ok (Some now))
  ∧ (parse_date v = Ok None →
     is_id_expired now v = Ok true ∧ validate_expiry_date now v = Ok false)
  ∧ (∀ e, is_id_expired now v = Raise e ↔ validate_expiry_date now v = Raise e).
Proof.
  unfold is_id_expired, validate_expiry_date.
  destruct (parse_date v) as [[d|]|e];
    (split; [|split; [|split; [|intros e'; split]]]); try done.
  - intros [= E]. by rewrite (datetime_ltb_asym _ _ E).
  - intros [= E]. destruct (datetime_ltb now d) eqn:E'; [by left|].
    right. by rewrite (datetime_ltb_total _ _ E E').
Qed.

End Dates.

Section Scores.
Context `{UnicodeData}.
Variable now : datetime.

Lemma check_expiry_date_adds data c st c' st' :
  check_expiry_date now data c st = (Ok c', st') →
  c' = c ∨ c' = (c + 0.2)%float.
Proof.
  unfold check_expiry_date. unfold_M.
  repeat (case_match; simplify_eq/=); intros; simplify_eq; auto.
Qed.

Lemma front_side_confidence data st c b st' :
  _validate_front_side now data st = (Ok (c, b), st') →
  (0 <=? c)%float = true ∧ (c <=? 1)%float = true.
Proof.
  rewrite front_side_run.
  destruct (check_id_number data 0 st) as [[[c1 b1]|e] st1] eqn:E1; [|done].
  destruct (check_name data c1 st1) as [[c2|e] st2] eqn:E2; [|done].
  destruct (check_date_of_birth now data c2 st2) as [[c3|e] st3] eqn:E3; [|done].
  destruct (check_expiry_date now data c3 st3) as [[c4|e] st4] eqn:E4; [|done].
  cbv zeta.
  destruct (check_threshold_returns 0.5
    (check_present data "gender" (check_present data "nationality" c4)) st4)
    as (st5 & -> & _).
  intros [= <- <- <-].
  apply check_id_number_adds in E1. apply check_name_adds in E2.
  apply check_date_of_birth_adds in E3. apply check_expiry_date_adds in E4.
  unfold check_present.
  destruct E1 as [-> | ->], E2 as [-> | ->], E3 as [-> | ->], E4 as [-> | ->],
    (truthy (data !! "nationality")), (truthy (data !! "gender"));
    vm_compute; done.
Qed.

Lemma back_side_confidence data st c b st' :
  _validate_back_side data st = (Ok (c, b), st') →
  (0 <=? c)%float = true ∧ (c <=? 1)%float = true.
Proof.
  unfold _validate_back_side. unfold_M.
  destruct (truthy (data !! "cardNumber") || truthy (data !! "idNumber"));
    destruct (truthy_val (default (VStr []) (data !! "idNumber")));
    try destruct (validate_id_number_format _) as [[|]|e];
    repeat (case_match; simplify_eq/=); intros; simplify_eq;
    vm_compute; done.
Qed.

(** X3: the confidence [validate_emirates_id] returns is a number between 0 and
    1, for every dictionary (whatever the types of its values), every side
    and every time of the call. *)
Theorem confidence_is_between_0_and_1 (data : gmap string pyval) (side : str) :
  let o := validate_emirates_id now data side in
  (0 <=? confidence o)%float = true ∧ (confidence o <=? 1)%float = true.
Proof.
  intros o. subst o.
  destruct (validate_side now data side no_lists) as [[[c b]|e] st] eqn:E.
  - rewrite (validate_emirates_id_ok _ _ _ _ _ _ E). simpl.
    unfold validate_side in E. destruct (str_eqb side (u "front")).
    + by apply front_side_confidence in E.
    + by apply back_side_confidence in E.
  - rewrite (validate_emirates_id_raise _ _ _ _ _ E). simpl. done.
Qed.

End Scores.

(** The clamp is needed: with every field the weights of the front side add
    up to more than 1. *)
Example every_weight_exceeds_1 :
  (1 <? 0 + 0.4 + 0.2 + 0.1 + 0.2 + 0.05 + 0.05)%float = true
  ∧ min_1 (0 + 0.4 + 0.2 + 0.1 + 0.2 + 0.05 + 0.05) = 1%float.
Proof. split; reflexivity. Qed.

Section Errors.
Context `{UnicodeData}.
Variable now : datetime.

Lemma parse_date_empty : parse_date (VStr []) = Ok None.
Proof. reflexivity. Qed.

Lemma validate_id_number_format_empty :
  validate_id_number_format (VStr []) = Ok false.
Proof. reflexivity. Qed.

(** The ID number check on strings: the flag is the answer of the format
    check, and an error is appended only for an ID number that is there and
    is not accepted. *)
Lemma check_id_number_verdict data c st :
  all_strings data →
  ∃ c' b st', check_id_number data c st = (Ok (c', b), st')
    ∧ (b = true ↔ id_accepted data)
    ∧ (data !! "idNumber" = None ∨ id_accepted data →
       st_errors st' = st_errors st).
Proof.
  intros Hstr. unfold check_id_number, id_accepted.
  destruct (data !! "idNumber") as [v|] eqn:Eid.
  - pose proof (Hstr _ _ Eid) as Hv. destruct v as [s|]; [|done].
    change (default (VStr []) (Some (VStr s))) with (VStr s).
    destruct s as [|x s].
    + change (truthy_val (VStr [])) with false. cbv iota. unfold_M.
      eexists _, _, _. split; [done|]. split; [|done].
      split; [done|]. intros (s & [= <-] & E). discriminate E.
    + change (truthy_val (VStr (x :: s))) with true. cbv iota.
      destruct (validate_id_number_format_str (x :: s)) as [b Hb].
      unfold_M. rewrite Hb. destruct b.
      * eexists _, _, _. split; [done|]. split; [|done]. split; eauto.
      * eexists _, _, _. split; [done|]. split.
        -- split; [done|]. intros (s' & [= <-] & E). congruence.
        -- intros [|(s' & [= <-] & E)]; congruence.
  - change (default (VStr []) None) with (VStr []).
    change (truthy_val (VStr [])) with false. cbv iota. unfold_M.
    eexists _, _, _. split; [done|]. split; [|done].
    split; [done|]. by intros (s & ? & _).
Qed.

Lemma check_name_errors data c st r st' :
  check_name data c st = (r, st') → st_errors st' = st_errors st.
Proof.
  unfold check_name. unfold_M. case_match; by intros [= <- <-].
Qed.

Lemma check_date_of_birth_errors data c st r st' :
  check_date_of_birth now data c st = (r, st') → st_errors st' = st_errors st.
Proof.
  unfold check_date_of_birth. unfold_M.
  repeat (case_match; simplify_eq/=); by intros [= <- <-].
Qed.

(** The expiry check with a date that can be read and is not in the future:
    the error is appended. *)
Lemma check_expiry_date_expired data e d c st :
  data !! "expiryDate" = Some (VStr e) →
  parse_date (VStr e) = Ok (Some d) →
  datetime_ltb now d = false →
  check_expiry_date now data c st =
    (Ok c, {| st_errors := st_errors st ++ [u "Emirates ID has expired: " ++ e];
              st_warnings := st_warnings st |}).
Proof.
  intros E P L. unfold check_expiry_date. rewrite E.
  destruct e as [|x e]; [discriminate P|].
  cbv zeta. change (truthy (Some (VStr (x :: e)))) with true. cbv iota.
  change (default (VStr []) (Some (VStr (x :: e)))) with (VStr (x :: e)).
  pose proof (date_loops_agree DATE_FORMATS (VStr (x :: e))) as A.
  unfold validate_date_format, validate_expiry_date.
  unfold parse_date in P. unfold parse_date. rewrite P in A.
  unfold_M. rewrite A, P, L. done.
Qed.

(** The expiry check on strings: it returns, and appends an error exactly
    for an expired date. *)
Lemma check_expiry_date_verdict data c st :
  all_strings data →
  ∃ c' st', check_expiry_date now data c st = (Ok c', st')
    ∧ ((∃ e, data !! "expiryDate" = Some (VStr e) ∧ expired_at now data
             ∧ st_errors st' =
                 st_errors st ++ [u "Emirates ID has expired: " ++ e])
       ∨ (¬ expired_at now data ∧ st_errors st' = st_errors st)).
Proof.
  intros Hstr.
  destruct (data !! "expiryDate") as [v|] eqn:E.
  2: { rewrite check_expiry_date_absent by done. eexists _, _.
       split; [done|]. right. split; [|done].
       intros (e & d & ? & _). congruence. }
  pose proof (Hstr _ _ E) as Hv. destruct v as [e|]; [|done].
  destruct (parse_date_in_str DATE_FORMATS e) as [o P].
  destruct o as [d|].
  - destruct (datetime_ltb now d) eqn:L.
    + pose proof (date_loops_agree DATE_FORMATS (VStr e)) as A.
      rewrite P in A.
      rewrite (check_expiry_date_valid now data e c st E); [| done |].
      * eexists _, _. split; [done|]. right. split; [|done].
        intros (e' & d' & E' & P' & L'). unfold parse_date in P'.
        congruence.
      * unfold validate_expiry_date, parse_date. by rewrite P, L.
    + rewrite (check_expiry_date_expired data e d c st E P L).
      eexists _, _. split; [done|]. left. exists e.
      split; [done|]. split; [|done]. by exists e, d.
  - pose proof (date_loops_agree DATE_FORMATS (VStr e)) as A.
    rewrite P in A. unfold check_expiry_date. rewrite E.
    unfold validate_date_format. cbv zeta.
    destruct e as [|x e].
    + change (truthy (Some (VStr []))) with false. cbv iota. unfold_M.
      eexists _, _. split; [done|]. right. split; [|done].
      intros (e' & d' & E' & P' & L'). unfold parse_date in P'. congruence.
    + change (truthy (Some (VStr (x :: e)))) with true. cbv iota.
      change (default (VStr []) (Some (VStr (x :: e)))) with (VStr (x :: e)).
      unfold_M. rewrite A. eexists _, _. split; [done|]. right. split; [|done].
      intros (e' & d' & E' & P' & L'). unfold parse_date in P'. congruence.
Qed.

(** The front side on strings, from the lists it is given. *)
Lemma front_side_verdict data :
  all_strings data →
  ∃ c b st, _validate_front_side now data no_lists = (Ok (c, b), st)
    ∧ (b = true ↔ id_accepted data)
    ∧ (b = true → (st_errors st = [] ↔ ¬ expired_at now data))
    ∧ (data !! "idNumber" = None ∨ id_accepted data →
       st_errors st = []
       ∨ ∃ e, data !! "expiryDate" = Some (VStr e)
              ∧ st_errors st = [u "Emirates ID has expired: " ++ e]).
Proof.
  intros Hstr. rewrite front_side_run.
  destruct (check_id_number_verdict data 0 no_lists Hstr)
    as (c1 & b & st1 & -> & Hb & Hid).
  destruct (check_name data c1 st1) as [r2 st2] eqn:E2.
  pose proof (check_name_errors _ _ _ _ _ E2) as H2.
  destruct (check_name_keeps data c1 st1) as (c2 & st2' & E2' & _).
  rewrite E2 in E2'. injection E2' as -> <-.
  destruct (check_date_of_birth_returns now data c2 st2 Hstr)
    as (c3 & st3 & E3). rewrite E3.
  pose proof (check_date_of_birth_errors _ _ _ _ _ E3) as H3.
  destruct (check_expiry_date_verdict data c3 st3 Hstr)
    as (c4 & st4 & -> & H4).
  cbv zeta.
  destruct (check_threshold_returns 0.5
    (check_present data "gender" (check_present data "nationality" c4)) st4)
    as (st5 & -> & H5).
  eexists _, _, _. split; [done|]. split; [done|].
  assert (Hkeep : data !! "idNumber" = None ∨ id_accepted data →
                  st_errors st3 = []).
  { intros Hok. rewrite H3, H2, (Hid Hok). done. }
  split.
  - intros Hbt. apply Hb in Hbt. rewrite H5.
    destruct H4 as [(e & _ & Hexp & ->) | [Hnot ->]].
    + split; [|done]. intros Hnil. by apply app_eq_nil in Hnil as [_ ?].
    + split; [done|]. intros _. apply Hkeep. by right.
  - intros Hok. rewrite H5.
    destruct H4 as [(e & He & _ & ->) | [_ ->]].
    + right. exists e. split; [done|]. by rewrite (Hkeep Hok).
    + left. by apply Hkeep.
Qed.

(** X4: the verdict of the front side on a dictionary of strings.  The card
    is recognised exactly when its ID number passes the format check; it is
    valid exactly when, besides, it has no expiry date that can be read and
    is not in the future.  No other field and no confidence enters the
    verdict. *)
Theorem front_side_verdict_on_strings (data : gmap string pyval) :
  all_strings data →
  let o := validate_emirates_id now data front in
  (isEmiratesID o = true ↔ id_accepted data)
  ∧ (isValid o = true ↔ id_accepted data ∧ ¬ expired_at now data).
Proof.
  intros Hstr o. subst o.
  destruct (front_side_verdict data Hstr) as (c & b & st & E & Hb & Hexp & _).
  rewrite (validate_emirates_id_ok now data front c b st) by done. simpl.
  split; [done|]. rewrite andb_true_iff, Hb. split.
  - intros [Hid Hlen]. split; [done|]. apply Hexp; [by apply Hb|].
    by destruct (st_errors st).
  - intros [Hid Hnot]. split; [done|].
    apply Hb in Hid. apply Hexp in Hnot; [|done]. by rewrite Hnot.
Qed.

(** X5: an expiry date that can be read and is not after the time of the call
    makes the front side invalid, whatever else the dictionary holds (values
    that are not strings included); on a dictionary of strings the error
    names the date. *)
Theorem expired_id_is_not_valid (data : gmap string pyval) (e : str)
    (d : datetime) :
  data !! "expiryDate" = Some (VStr e) →
  parse_date (VStr e) = Ok (Some d) →
  datetime_ltb now d = false →
  let o := validate_emirates_id now data front in
  isValid o = false
  ∧ errors o ≠ []
  ∧ (all_strings data → u "Emirates ID has expired: " ++ e ∈ errors o).
Proof.
  intros E P L o. subst o.
  destruct (validate_side now data front no_lists) as [[[c b]|x] st] eqn:V.
  - rewrite (validate_emirates_id_ok now data front c b st V). simpl.
    unfold validate_side in V. simpl in V. rewrite front_side_run in V.
    destruct (check_id_number data 0 no_lists) as [[[c1 b1]|?] st1]; [|done].
    destruct (check_name data c1 st1) as [[c2|?] st2]; [|done].
    destruct (check_date_of_birth now data c2 st2) as [[c3|?] st3]; [|done].
    rewrite (check_expiry_date_expired data e d c3 st3 E P L) in V.
    cbv zeta in V.
    destruct (check_threshold_returns 0.5
      (check_present data "gender" (check_present data "nationality" c3))
      {| st_errors := st_errors st3 ++ [u "Emirates ID has expired: " ++ e];
         st_warnings := st_warnings st3 |}) as (st5 & E5 & H5).
    rewrite E5 in V. injection V as <- <- <-. rewrite H5. simpl.
    split_and!.
    + rewrite length_app. simpl.
      replace (length (st_errors st3) + 1)%nat
        with (S (length (st_errors st3))) by lia.
      apply andb_false_r.
    + intros Hnil. by apply app_eq_nil in Hnil as [_ ?].
    + intros _. apply elem_of_app. right. by apply list_elem_of_singleton.
  - rewrite (validate_emirates_id_raise now data front x st V). simpl.
    split_and!; [done | |].
    + intros Hnil. by apply app_eq_nil in Hnil as [_ ?].
    + intros Hstr.
      destruct (front_side_verdict data Hstr) as (c & b & st' & E' & _).
      unfold validate_side in V. simpl in V. congruence.
Qed.

End Errors.

Lemma id_and_name_all_strings : all_strings id_and_name.
Proof.
  repeat (apply map_Forall_insert_2; [reflexivity|]). apply map_Forall_empty.
Qed.

(** The front-side verdict at [id_and_name], with the clock [nov_2026]: the
    ID number is accepted and there is no expiry date. *)
Lemma front_side_verdict_on_strings_witness :
  all_strings id_and_name
  ∧ id_accepted id_and_name
  ∧ isEmiratesID (validate_emirates_id nov_2026 id_and_name front) = true
  ∧ isValid (validate_emirates_id nov_2026 id_and_name front) = true.
Proof.
  assert (Hstr : all_strings id_and_name) by exact id_and_name_all_strings.
  assert (Hid : id_accepted id_and_name).
  { exists (u "784-1234-5678901-2"). split; [reflexivity | vm_compute; reflexivity]. }
  destruct (front_side_verdict_on_strings nov_2026 id_and_name Hstr) as [P1 P2].
  split; [exact Hstr|]. split; [exact Hid|]. split.
  - apply P1. exact Hid.
  - apply P2. split; [exact Hid|].
    intros (e & d & He & _). vm_compute in He. discriminate He.
Defined.

(** The expired card at [expired_card], with the clock [nov_2026]. *)
Lemma expired_id_is_not_valid_witness :
  expired_card !! "expiryDate" = Some (VStr (u "01/01/2020"))
  ∧ parse_date (VStr (u "01/01/2020")) = Ok (Some new_year_2020)
  ∧ datetime_ltb nov_2026 new_year_2020 = false
  ∧ isValid (validate_emirates_id nov_2026 expired_card front) = false
  ∧ u "Emirates ID has expired: 01/01/2020"
      ∈ errors (validate_emirates_id nov_2026 expired_card front).
Proof.
  assert (E : expired_card !! "expiryDate" = Some (VStr (u "01/01/2020")))
    by reflexivity.
  assert (P : parse_date (VStr (u "01/01/2020")) = Ok (Some new_year_2020))
    by (vm_compute; reflexivity).
  assert (L : datetime_ltb nov_2026 new_year_2020 = false) by reflexivity.
  destruct (expired_id_is_not_valid nov_2026 expired_card _ _ E P L)
    as (P1 & _ & P3).
  split; [exact E|]. split; [exact P|]. split; [exact L|].
  split; [exact P1|]. apply P3.
  apply map_Forall_insert_2; [reflexivity | exact id_and_name_all_strings].
Defined.

Section BackVerdict.
Context `{UnicodeData}.
Variable now : datetime.

Lemma id_accepted_truthy data :
  id_accepted data → truthy (data !! "idNumber") = true.
Proof.
  intros (s & -> & E). destruct s; [discriminate E | done].
Qed.

(** The four runs of the back side on strings. *)
Lemma back_side_cases data st :
  all_strings data →
  (id_accepted data
   ∧ _validate_back_side data st = (Ok ((0 + 0.3 + 0.4)%float, true), st))
  ∨ (∃ s, data !! "idNumber" = Some (VStr s) ∧ s ≠ []
          ∧ validate_id_number_format (VStr s) = Ok false
          ∧ _validate_back_side data st =
              (Ok ((0 + 0.3)%float, true),
               {| st_errors := st_errors st;
                  st_warnings :=
                    st_warnings st ++ [u "ID number format unclear: " ++ s] |}))
  ∨ (truthy (data !! "idNumber") = false
     ∧ truthy (data !! "cardNumber") = true
     ∧ _validate_back_side data st = (Ok ((0 + 0.3)%float, true), st))
  ∨ (truthy (data !! "idNumber") = false
     ∧ truthy (data !! "cardNumber") = false
     ∧ _validate_back_side data st =
         (Ok (0%float, false),
          {| st_errors := st_errors st;
             st_warnings :=
               st_warnings st ++ [u "Low confidence score: 0.00"] |})).
Proof.
  intros Hstr. unfold _validate_back_side, id_accepted.
  destruct (data !! "idNumber") as [vi|] eqn:Ei.
  - pose proof (Hstr _ _ Ei) as Hv. destruct vi as [s|]; [|done].
    change (default (VStr []) (Some (VStr s))) with (VStr s).
    destruct s as [|x s].
    + change (truthy (Some (VStr []))) with false.
      change (truthy_val (VStr [])) with false. rewrite orb_false_r.
      right. right.
      destruct (truthy (data !! "cardNumber")); [left | right];
        (split; [done|]); (split; [done|]); destruct st; vm_compute; done.
    + change (truthy (Some (VStr (x :: s)))) with true.
      change (truthy_val (VStr (x :: s))) with true. rewrite orb_true_r.
      destruct (validate_id_number_format_str (x :: s)) as [b Hb].
      unfold_M. rewrite Hb. destruct b.
      * left. split; [by exists (x :: s)|]. destruct st; vm_compute; done.
      * right. left. exists (x :: s). split; [done|]. split; [done|].
        split; [done|]. destruct st; vm_compute; done.
  - change (default (VStr []) None) with (VStr []).
    change (truthy None) with false.
    change (truthy_val (VStr [])) with false. rewrite orb_false_r.
    right. right.
    destruct (truthy (data !! "cardNumber")); [left | right];
      (split; [done|]); (split; [done|]); destruct st; vm_compute; done.
Qed.

(** X6: the verdict of the back side on a dictionary of strings.  The card is
    recognised, and valid, as soon as a card number or an ID number is there
    (an ID number of any form); the confidence is 0.3 + 0.4 when the ID
    number passes the format check, 0.3 when something is there, and 0 with
    the warning of the low score when nothing is. *)
Theorem back_side_verdict_on_strings (data : gmap string pyval) (side : str) :
  side ≠ front →
  all_strings data →
  let o := validate_emirates_id now data side in
  let present := truthy (data !! "cardNumber") || truthy (data !! "idNumber") in
  isEmiratesID o = present
  ∧ isValid o = present
  ∧ (id_accepted data →
     confidence o = (0 + 0.3 + 0.4)%float ∧ warnings o = [])
  ∧ (present = true → ¬ id_accepted data →
     confidence o = (0 + 0.3)%float)
  ∧ (present = false →
     confidence o = 0%float
     ∧ warnings o = [u "Low confidence score: 0.00"]).
Proof.
  intros Hside Hstr o present. subst o present.
  unfold validate_emirates_id, validate_side.
  change (u "front") with front. rewrite (str_eqb_neq _ _ Hside).
  destruct (back_side_cases data {| st_errors := []; st_warnings := [] |} Hstr)
    as [[Hid ->] | [(s & Ei & Hs & Hb & ->) | [(Ei & Ec & ->) | (Ei & Ec & ->)]]];
    simpl.
  - rewrite (id_accepted_truthy _ Hid), orb_true_r. split_and!; try done.
  - rewrite Ei. destruct s as [|x s]; [done|].
    change (truthy (Some (VStr (x :: s)))) with true. rewrite orb_true_r.
    split_and!; try done.
    intros (s' & E' & E). congruence.
  - rewrite Ei, Ec. split_and!; try done.
    intros Hid. apply id_accepted_truthy in Hid. congruence.
  - rewrite Ei, Ec. split_and!; try done.
    intros Hid. apply id_accepted_truthy in Hid. congruence.
Qed.

End BackVerdict.

(** The back-side verdict at [malformed_back]: an ID number that fails the
    format check is enough for the card to be recognised, with 0.3. *)
Lemma back_side_verdict_on_strings_witness :
  back ≠ front
  ∧ all_strings malformed_back
  ∧ isEmiratesID (validate_emirates_id nov_2026 malformed_back back) = true
  ∧ isValid (validate_emirates_id nov_2026 malformed_back back) = true
  ∧ confidence (validate_emirates_id nov_2026 malformed_back back)
    = (0 + 0.3)%float.
Proof.
  assert (Hside : back ≠ front) by (vm_compute; discriminate).
  assert (Hstr : all_strings malformed_back).
  { apply map_Forall_insert_2; [reflexivity | apply map_Forall_empty]. }
  pose proof (back_side_verdict_on_strings nov_2026 malformed_back back
                Hside Hstr) as P.
  cbv zeta in P. destruct P as (P1 & P2 & _ & P4 & _).
  split; [exact Hside|]. split; [exact Hstr|].
  split; [rewrite P1; reflexivity|]. split; [rewrite P2; reflexivity|].
  apply P4; [reflexivity|].
  intros (s & E & Hok). vm_compute in E. injection E as <-.
  vm_compute in Hok. discriminate Hok.
Defined.

(** * The format of the ID number *)

Section IdShape.
Context `{UnicodeData}.

(** A repetition of a set, with an upper bound. *)
Lemma iter_set_bounded ic items lo hi p w t :
  iter (lang ic (RSet items)) lo (Some hi) p w t
  ↔ (lo ≤ length w ≤ hi)%nat ∧ Forall (λ c, set_has ic items c = true) w.
Proof.
  split.
  - intros Hiter. remember (Some hi) as ohi eqn:Ehi. revert hi Ehi.
    induction Hiter as [ohi p t | lo ohi p w1 w2 t Hhi _ HL _ IH];
      intros hi ->.
    + split; [simpl; lia | constructor].
    + destruct HL as (x & -> & Hx).
      destruct (IH (pred hi) eq_refl) as [Hlen Hall].
      split; [|by constructor].
      destruct hi; [done|]. simpl in *. lia.
  - revert lo hi p. induction w as [|c w IH]; intros lo hi p [Hlen Hall].
    + simpl in Hlen. replace lo with 0%nat by lia. constructor.
    + inversion Hall as [|? ? Hc Hw]; subst.
      change (c :: w) with ([c] ++ w). constructor.
      * simpl in Hlen. intros [= ->]. lia.
      * done.
      * simpl. eauto.
      * apply IH. split; [simpl in Hlen; lia | done].
Qed.

Lemma lang_seq_cons ic r rs p w t :
  lang ic (seq (r :: rs)) p w t ↔
  ∃ w1 w2, w = w1 ++ w2 ∧ lang ic r p w1 (w2 ++ t)
           ∧ lang ic (seq rs) (lastc p w1) w2 t.
Proof. reflexivity. Qed.

Lemma lang_seq_app_inv ic l1 l2 p w t :
  lang ic (seq (l1 ++ l2)) p w t →
  ∃ w1 w2, w = w1 ++ w2 ∧ lang ic (seq l1) p w1 (w2 ++ t)
           ∧ lang ic (seq l2) (lastc p w1) w2 t.
Proof.
  revert p w. induction l1 as [|r l1 IH]; intros p w; simpl.
  - intros HL. exists [], w. by rewrite lastc_nil.
  - intros (wa & wb & -> & HLa & HLb).
    destruct (IH _ _ HLb) as (w1 & w2 & -> & HL1 & HL2).
    exists (wa ++ w1), w2. split_and!.
    + by rewrite app_assoc.
    + rewrite <- app_assoc in HLa. by exists wa, w1.
    + by rewrite lastc_app.
Qed.

Lemma set_has_id_sep c :
  set_has false [CLit (ch "-"); CSpace] c = id_sep_char c.
Proof.
  unfold id_sep_char. simpl. unfold char_eq.
  by destruct (c =? ch "-"), (isspace c).
Qed.

Lemma lang_784 p w t : lang false (lit "784") p w t ↔ w = u "784".
Proof.
  unfold lit. change (u "784") with [55; 56; 52]. simpl. unfold char_eq.
  split.
  - intros (w1 & w2 & -> & (x1 & -> & E1) & w3 & w4 & -> & (x2 & -> & E2)
            & w5 & w6 & -> & (x3 & -> & E3) & ->).
    rewrite orb_false_r in E1, E2, E3.
    apply N.eqb_eq in E1, E2, E3. by subst.
  - intros ->. exists [55], [56; 52]. split_and!; [done | by exists 55 |].
    exists [56], [52]. split_and!; [done | by exists 56 |].
    exists [52], []. split_and!; [done | by exists 52 | done].
Qed.

Lemma lang_opt_sep p w t : lang false (opt id_sep) p w t ↔ optional_sep w.
Proof.
  unfold opt, id_sep, optional_sep.
  change (lang false (RRep 0 (Some 1%nat) ?r) p w t)
    with (iter (lang false r) 0 (Some 1%nat) p w t).
  rewrite iter_set_bounded. split.
  - intros [Hlen Hall]. split; [lia|].
    eapply Forall_impl; [done|]. intros c. cbv beta. by rewrite set_has_id_sep.
  - intros [Hlen Hall]. split; [lia|].
    eapply Forall_impl; [done|]. intros c. cbv beta. by rewrite set_has_id_sep.
Qed.

Lemma lang_times_digit ic n p w t :
  lang ic (times n digit) p w t ↔ digits n w.
Proof.
  unfold times, digit, digits.
  change (lang ic (RRep n (Some n) ?r) p w t)
    with (iter (lang ic r) n (Some n) p w t).
  rewrite iter_set_bounded. split.
  - intros [Hlen Hall]. split; [lia|].
    eapply Forall_impl; [done|]. intros c. cbv beta. by rewrite set_has_digit.
  - intros [Hlen Hall]. split; [lia|].
    eapply Forall_impl; [done|]. intros c. cbv beta. by rewrite set_has_digit.
Qed.

(** The words of the ID number pattern are the strings of the documented
    format, whatever stands around them. *)
Lemma lang_id_pattern p w t : lang false id_pattern p w t ↔ id_shaped w.
Proof.
  rewrite id_pattern_items. unfold id_items, id_shaped. split.
  - intros HL.
    apply lang_seq_cons in HL as (w0 & r0 & -> & H0%lang_784 & HL).
    apply lang_seq_cons in HL as (s1 & r1 & -> & H1%lang_opt_sep & HL).
    apply lang_seq_cons in HL as (d4 & r2 & -> & H2%lang_times_digit & HL).
    apply lang_seq_cons in HL as (s2 & r3 & -> & H3%lang_opt_sep & HL).
    apply lang_seq_cons in HL as (d7 & r4 & -> & H4%lang_times_digit & HL).
    apply lang_seq_cons in HL as (s3 & r5 & -> & H5%lang_opt_sep & HL).
    apply lang_seq_cons in HL as (d1 & r6 & -> & H6%lang_times_digit & HL).
    simpl in HL. subst. rewrite app_nil_r.
    by exists s1, d4, s2, d7, s3, d1.
  - intros (s1 & d4 & s2 & d7 & s3 & d1 & -> & H1 & H2 & H3 & H4 & H5 & H6).
    apply lang_seq_cons. eexists _, _. split; [done|].
    split; [by apply lang_784|].
    apply lang_seq_cons. eexists _, _. split; [done|].
    split; [by apply lang_opt_sep|].
    apply lang_seq_cons. eexists _, _. split; [done|].
    split; [by apply lang_times_digit|].
    apply lang_seq_cons. eexists _, _. split; [done|].
    split; [by apply lang_opt_sep|].
    apply lang_seq_cons. eexists _, _. split; [done|].
    split; [by apply lang_times_digit|].
    apply lang_seq_cons. eexists _, _. split; [done|].
    split; [by apply lang_opt_sep|].
    apply lang_seq_cons. exists d1, []. split; [by rewrite app_nil_r|].
    split; [by apply lang_times_digit|]. done.
Qed.

End IdShape.

Section IdFormat.
Context `{UnicodeData}.

Lemma dashed_app a b : dashed (a ++ b) = dashed a ++ dashed b.
Proof. apply map_app. Qed.

Lemma dashed_length s : length (dashed s) = length s.
Proof. apply length_map. Qed.

Lemma dashed_784 a : dashed a = u "784" → a = u "784".
Proof.
  change (u "784") with [55; 56; 52].
  destruct a as [|x1 [|x2 [|x3 [|x4 a]]]]; try done.
  unfold dashed, replace. simpl. change (ch " ") with 32. change (ch "-") with 45.
  destruct (N.eqb_spec x1 32), (N.eqb_spec x2 32), (N.eqb_spec x3 32);
    intros [= ? ? ?]; subst; done.
Qed.

Lemma optional_sep_undashed s : optional_sep (dashed s) → optional_sep s.
Proof.
  intros [Hlen Hall]. rewrite dashed_length in Hlen. split; [done|].
  unfold dashed, replace in Hall. apply Forall_map in Hall.
  eapply Forall_impl; [done|]. intros x. cbv beta.
  change (ch " ") with 32. change (ch "-") with 45.
  destruct (N.eqb_spec x 32) as [->|]; done.
Qed.

Lemma digits_undashed n d : digits n (dashed d) → digits n d.
Proof.
  intros [Hlen Hall]. rewrite dashed_length in Hlen. split; [done|].
  unfold dashed, replace in Hall. apply Forall_map in Hall.
  eapply Forall_impl; [done|]. intros x. cbv beta.
  change (ch " ") with 32. change (ch "-") with 45.
  destruct (N.eqb_spec x 32) as [->|]; done.
Qed.

(** Digits are no spaces: [.replace(' ', '-')] leaves them as they are. *)
Lemma digits_dashed n d : digits n d → dashed d = d.
Proof.
  intros [_ Hall]. unfold dashed, replace.
  induction Hall as [|x d Hx _ IH]; simpl; [done|]. rewrite IH. f_equal.
  change (ch " ") with 32.
  destruct (N.eqb_spec x 32) as [->|]; done.
Qed.

Lemma id_shaped_dashed s : id_shaped s → id_shaped (dashed s).
Proof.
  intros HL%(lang_id_pattern None _ []). apply (lang_id_pattern None _ []).
  exact (lang_map _ _ _ id_pattern_kept _ _ _ _ _ HL).
Qed.

Lemma id_shaped_undashed s : id_shaped (dashed s) → id_shaped s.
Proof.
  intros (s1 & d4 & s2 & d7 & s3 & d1 & E & H1 & H2 & H3 & H4 & H5 & H6).
  unfold dashed, replace in E.
  apply map_eq_app in E as (a0 & r0 & -> & E0 & E).
  apply map_eq_app in E as (a1 & r1 & -> & E1 & E).
  apply map_eq_app in E as (a2 & r2 & -> & E2 & E).
  apply map_eq_app in E as (a3 & r3 & -> & E3 & E).
  apply map_eq_app in E as (a4 & r4 & -> & E4 & E).
  apply map_eq_app in E as (a5 & a6 & -> & E5 & E6).
  subst. exists a1, a2, a3, a4, a5, a6.
  rewrite (dashed_784 a0 E0).
  split_and!; [done | ..];
    (by apply optional_sep_undashed) || (by apply digits_undashed).
Qed.

(** The ID number pattern of the validator, with what follows the match. *)
Lemma lang_ID_NUMBER_PATTERN w t :
  lang false ID_NUMBER_PATTERN None w t ↔ id_shaped w ∧ at_end t = true.
Proof.
  rewrite ID_NUMBER_PATTERN_items. split.
  - intros HL.
    apply lang_seq_cons in HL as (w0 & r0 & -> & [-> _] & HL).
    apply lang_seq_app_inv in HL as (w1 & w2 & -> & H1 & H2).
    rewrite <- id_pattern_items in H1. apply lang_id_pattern in H1.
    simpl in H2. destruct H2 as (w3 & w4 & -> & [-> Hend] & ->).
    simpl in *. by rewrite app_nil_r.
  - intros [Hid Hend].
    replace w with ([] ++ w ++ []) by (simpl; apply app_nil_r).
    apply lang_seq_app.
    + simpl. exists [], []. by split_and!.
    + apply lang_seq_app.
      * rewrite <- id_pattern_items. by apply lang_id_pattern.
      * simpl. exists [], []. by split_and!.
Qed.

(** What the format check accepts has the format. *)
Lemma accepted_is_shaped s :
  validate_id_number_format (VStr s) = Ok true →
  id_shaped s ∨ ∃ w, s = w ++ [10] ∧ id_shaped w.
Proof.
  unfold validate_id_number_format. fold (dashed s). unfold re_match.
  destruct (match_at false ID_NUMBER_PATTERN None (dashed s)) as [m|] eqn:E;
    [|done]. intros _.
  apply match_at_sound in E as [E HL].
  apply lang_ID_NUMBER_PATTERN in HL as [Hid Hend].
  unfold dashed, replace in E.
  apply map_eq_app in E as (w & t & -> & Ew & Et).
  fold (replace (ch " ") (ch "-") w) in Ew. fold (dashed w) in Ew.
  rewrite <- Ew in Hid. apply id_shaped_undashed in Hid.
  destruct (m_rest m) as [|c [|? ?]]; [| |done].
  - destruct t; [|done]. left. by rewrite app_nil_r.
  - simpl in Hend. apply N.eqb_eq in Hend as ->.
    destruct t as [|x [|? ?]]; try done.
    simpl in Et. change (ch " ") with 32 in Et.
    destruct (N.eqb_spec x 32); [done|]. injection Et as ->.
    right. by exists w.
Qed.

(** X7: [validate_id_number_format] accepts exactly the strings of the
    documented format: 784, four digits, seven digits and one digit, each
    group after an optional dash or white space character; and such a string
    followed by one newline, which [$] lets pass. *)
Theorem format_check_accepts_the_format (s : str) :
  validate_id_number_format (VStr s) = Ok true
  ↔ id_shaped s ∨ ∃ w, s = w ++ [10] ∧ id_shaped w.
Proof.
  split; [apply accepted_is_shaped|].
  intros Hs. unfold validate_id_number_format. fold (dashed s).
  unfold re_match.
  assert (∃ w t, dashed s = w ++ t ∧ id_shaped w ∧ at_end t = true)
    as (w & t & -> & Hid & Hend).
  { destruct Hs as [Hid | (w & -> & Hid)].
    - exists (dashed s), []. rewrite app_nil_r.
      split_and!; [done | by apply id_shaped_dashed | done].
    - exists (dashed w), [10]. rewrite dashed_app.
      split_and!; [done | by apply id_shaped_dashed | done]. }
  destruct (match_at_complete false ID_NUMBER_PATTERN None w t) as [m ->];
    [|done].
  by apply lang_ID_NUMBER_PATTERN.
Qed.

End IdFormat.

Section IdUnique.
Context `{UnicodeData}.

(** No white space character is a decimal digit: a fact of the Unicode
    database, asked of the rows above ASCII. *)
Hypothesis space_is_no_digit : ∀ c, isspace c = true → isdecimal c = false.

Lemma sep_is_no_digit c : id_sep_char c = true → isdecimal c = false.
Proof using All.
  unfold id_sep_char. change (ch "-") with 45.
  destruct (N.eqb_spec c 45) as [->|_]; [done|]. simpl.
  apply space_is_no_digit.
Qed.

(** A separator that may be left out, then digits: the text tells which. *)
Lemma sep_digits_unique n s d r s' d' r' :
  (0 < n)%nat →
  optional_sep s → optional_sep s' → digits n d → digits n d' →
  s ++ d ++ r = s' ++ d' ++ r' → s = s' ∧ d = d' ∧ r = r'.
Proof using All.
  intros Hn [Hl Hs] [Hl' Hs'] [Hd Hdd] [Hd' Hdd'] E.
  assert (Hclash : ∀ c x, id_sep_char c = true → isdecimal x = true → c ≠ x).
  { intros c x Hc Hx ->. apply sep_is_no_digit in Hc. congruence. }
  destruct s as [|c [|? ?]], s' as [|c' [|? ?]]; simpl in Hl, Hl'; try lia;
    simpl in E.
  - apply app_inj_1 in E as [-> ->]; [done | congruence].
  - destruct d as [|x d]; [simpl in Hd; lia|]. injection E as -> _.
    inversion Hs' as [|? ? Hc _]; inversion Hdd as [|? ? Hx _]; subst.
    by destruct (Hclash c' c').
  - destruct d' as [|x d']; [simpl in Hd'; lia|]. injection E as -> _.
    inversion Hs as [|? ? Hc _]; inversion Hdd' as [|? ? Hx _]; subst.
    by destruct (Hclash x x).
  - injection E as -> E.
    apply app_inj_1 in E as [-> ->]; [done | congruence].
Qed.

(** At a position of a text at most one string has the format. *)
Lemma id_shaped_unique w t w' t' :
  id_shaped w → id_shaped w' → w ++ t = w' ++ t' → w = w'.
Proof using All.
  intros (s1 & d4 & s2 & d7 & s3 & d1 & -> & H1 & H2 & H3 & H4 & H5 & H6)
         (s1' & d4' & s2' & d7' & s3' & d1' & -> & H1' & H2' & H3' & H4' & H5' & H6') E.
  rewrite <- !app_assoc in E. apply app_inv_head in E.
  apply (sep_digits_unique 4) in E as (-> & -> & E); [|lia|done..].
  apply (sep_digits_unique 7) in E as (-> & -> & E); [|lia|done..].
  apply (sep_digits_unique 1) in E as (-> & -> & E); [|lia|done..].
  done.
Qed.

(** A text that starts with a string of the format: the string is what
    [re.search] finds. *)
Lemma search_id_at_start w t :
  id_shaped w →
  ∃ m, search false id_pattern (w ++ t) = Some m ∧ m_text m = w.
Proof using All.
  intros Hw.
  destruct (search_from_complete false id_pattern None [] w t) as [m Hm].
  { by apply lang_id_pattern. }
  simpl in Hm. exists m. split; [done|].
  apply search_from_leftmost in Hm as (pre & E & HL & Hleft).
  assert (pre = []) as ->.
  { apply length_zero_iff_nil.
    specialize (Hleft [] w t eq_refl).
    simpl in Hleft. apply Nat.le_0_r, Hleft. by apply lang_id_pattern. }
  simpl in E. apply lang_id_pattern in HL.
  symmetry. by eapply id_shaped_unique.
Qed.

Lemma dashed_no_space s : ch " " ∉ dashed s.
Proof.
  unfold dashed, replace. change (ch " ") with 32. change (ch "-") with 45.
  intros Hin. apply list_elem_of_In, in_map_iff in Hin as (x & E & _).
  destruct (N.eqb_spec x 32); [done | congruence].
Qed.

(** X8: [extract_id_number] and the ID number blocks of the two parsers find
    the same string; it has the documented format, holds no space, passes
    [validate_id_number_format], and is what [extract_id_number] finds in it
    again.  Without a match in the text none of them stores anything. *)
Theorem extract_id_number_is_stable (text : str) :
  match extract_id_number text with
  | Some s =>
    id_shaped s
    ∧ (ch " " ∉ s)
    ∧ validate_id_number_format (VStr s) = Ok true
    ∧ extract_id_number s = Some s
    ∧ extract text front !! "idNumber" = Some (VStr s)
    ∧ extract text back !! "idNumber" = Some (VStr s)
  | None =>
    ¬ occurs false id_pattern text
    ∧ extract text front !! "idNumber" = None
    ∧ extract text back !! "idNumber" = None
  end.
Proof using All.
  unfold extract_id_number, extract.
  change (str_eqb front (u "front")) with true.
  change (str_eqb back (u "front")) with false. cbv iota.
  rewrite front_side_id_number, back_side_id_number.
  destruct (search false id_pattern text) as [m|] eqn:E.
  - fold (dashed (m_text m)).
    apply search_from_sound in E as (pre & _ & HL).
    pose proof (id_number_is_accepted _ _ _ HL) as Hok.
    apply lang_id_pattern, id_shaped_dashed in HL.
    split_and!; try done.
    + apply dashed_no_space.
    + destruct (search_id_at_start (dashed (m_text m)) [] HL) as (m' & E' & Em).
      rewrite app_nil_r in E'. rewrite E', Em.
      fold (dashed (dashed (m_text m))). by rewrite dashed_idem.
  - split_and!; try done. intros Hocc%search_occurs. rewrite E in Hocc.
    by destruct Hocc.
Qed.

Lemma join_cons text rest :
  ∃ tl, join (text :: rest) = text ++ tl.
Proof. destruct rest; [exists []; simpl; by rewrite app_nil_r | by eexists]. Qed.

Lemma join_app before text rest :
  ∃ hd, join (before ++ text :: rest) = hd ++ join (text :: rest)
        ∧ (before = [] → hd = []).
Proof.
  induction before as [|b before IH].
  - by exists [].
  - destruct IH as (hd & E & _). exists (b ++ ch " " :: hd). split; [|done].
    change ((b :: before) ++ text :: rest)
      with (b :: (before ++ text :: rest)).
    destruct (before ++ text :: rest) as [|x l] eqn:Eb; [by destruct before|].
    change (join (b :: x :: l)) with (b ++ ch " " :: join (x :: l)).
    rewrite E. by rewrite <- app_assoc.
Qed.

(** X9: an ID number that the reader returns in four boxes -- 784, four
    digits, seven digits, one digit -- is found in the raw text, where the
    boxes are joined by spaces, and the string that is stored passes the
    format check; when these are the first boxes, the string is the four
    groups joined by dashes. *)
Theorem id_number_across_boxes
    (before rest : list str) (d4 d7 d1 side : str) :
  digits 4 d4 → digits 7 d7 → digits 1 d1 →
  let raw_text := join (before ++ [u "784"; d4; d7; d1] ++ rest) in
  (∃ v, extract raw_text side !! "idNumber" = Some (VStr v)
        ∧ validate_id_number_format (VStr v) = Ok true)
  ∧ (before = [] →
     extract raw_text side !! "idNumber"
     = Some (VStr (u "784-" ++ d4 ++ u "-" ++ d7 ++ u "-" ++ d1))).
Proof using All.
  intros H4 H7 H1 raw_text.
  assert (Hid : extract raw_text side !! "idNumber" =
                (λ m, VStr (dashed (m_text m)))
                  <$> search false id_pattern raw_text).
  { unfold extract. destruct (str_eqb side (u "front"));
      [apply front_side_id_number | apply back_side_id_number]. }
  rewrite Hid. clear Hid.
  set (w := u "784" ++ [ch " "] ++ d4 ++ [ch " "] ++ d7 ++ [ch " "] ++ d1).
  assert (Hsep : optional_sep [ch " "]).
  { split; [simpl; lia|]. by repeat constructor. }
  assert (Hw : id_shaped w).
  { exists [ch " "], d4, [ch " "], d7, [ch " "], d1. by split_and!. }
  assert (Hdash : dashed w = u "784-" ++ d4 ++ u "-" ++ d7 ++ u "-" ++ d1).
  { unfold w. rewrite !dashed_app.
    by rewrite (digits_dashed _ _ H4), (digits_dashed _ _ H7),
      (digits_dashed _ _ H1). }
  assert (Htext : ∃ hd tl, raw_text = hd ++ w ++ tl ∧ (before = [] → hd = []))
    .
  { subst raw_text.
    destruct (join_app before (u "784") ([d4; d7; d1] ++ rest))
      as (hd & E & Hhd).
    destruct (join_cons d1 rest) as [tl E1].
    exists hd, tl. split; [|done].
    change ([u "784"; d4; d7; d1] ++ rest)
      with (u "784" :: [d4; d7; d1] ++ rest).
    rewrite E. f_equal.
    change (join (u "784" :: [d4; d7; d1] ++ rest))
      with (u "784" ++ ch " " :: d4 ++ ch " " :: d7 ++ ch " "
              :: join (d1 :: rest)).
    rewrite E1. unfold w. by rewrite <- !app_assoc. }
  destruct Htext as (hd & tl & E & Hhd). split.
  - destruct (search_from_complete false id_pattern None hd w tl) as [m Hm].
    { by apply lang_id_pattern. }
    fold (search false id_pattern (hd ++ w ++ tl)) in Hm. rewrite <- E in Hm.
    rewrite Hm. simpl. eexists. split; [done|].
    apply search_from_sound in Hm as (pre & _ & HL).
    by eapply id_number_is_accepted.
  - intros Hb. rewrite E, (Hhd Hb). rewrite app_nil_l.
    destruct (search_id_at_start w tl Hw) as (m & -> & Em).
    rewrite fmap_Some. exists m. by rewrite Em, Hdash.
Qed.

End IdUnique.

(** The rows used to run the code have the two properties of the Unicode
    database that the theorems ask for. *)
Lemma arabic_rows_space_is_no_digit :
  ∀ c, isspace c = true → isdecimal c = false.
Proof.
  intros c. unfold isspace, isdecimal, decimal_value, is_ascii. simpl.
  unfold in_range.
  rewrite !orb_true_iff, !andb_true_iff, !N.leb_le, !N.eqb_eq. intros Hs.
  destruct (N.ltb_spec c 128).
  - destruct (N.leb_spec 48 c), (N.leb_spec c 57); simpl; try done. lia.
  - destruct (N.leb_spec 1632 c), (N.leb_spec c 1641); simpl; try lia;
      destruct (N.leb_spec 1776 c), (N.leb_spec c 1785); simpl; try done; lia.
Qed.

Lemma arabic_rows_digit_below_10 :
  ∀ c v, decimal_value c = Some v → v < 10.
Proof.
  intros c v. unfold decimal_value, is_ascii. simpl. unfold in_range.
  destruct (N.ltb_spec c 128).
  - destruct (N.leb_spec 48 c), (N.leb_spec c 57); simpl; try done;
      intros [= <-]; lia.
  - destruct (N.leb_spec 1632 c), (N.leb_spec c 1641); simpl;
      try (intros [= <-]; lia);
      destruct (N.leb_spec 1776 c), (N.leb_spec c 1785); simpl; try done;
      intros [= <-]; lia.
Qed.

(** The stability of the extraction at [spaced_id]. *)
Lemma extract_id_number_is_stable_witness :
  (∀ c, isspace c = true → isdecimal c = false)
  ∧ extract_id_number spaced_id = Some (u "784-1234-5678901-2")
  ∧ validate_id_number_format (VStr (u "784-1234-5678901-2")) = Ok true
  ∧ extract_id_number (u "784-1234-5678901-2")
    = Some (u "784-1234-5678901-2").
Proof.
  assert (E : extract_id_number spaced_id = Some (u "784-1234-5678901-2"))
    by (vm_compute; reflexivity).
  pose proof (extract_id_number_is_stable arabic_rows_space_is_no_digit
                spaced_id) as P.
  rewrite E in P. destruct P as (_ & _ & P3 & P4 & _).
  split; [exact arabic_rows_space_is_no_digit|].
  split; [exact E|]. split; [exact P3 | exact P4].
Defined.

(** Four boxes, then a name. *)
Lemma id_number_across_boxes_witness :
  (∀ c, isspace c = true → isdecimal c = false)
  ∧ digits 4 (u "1234") ∧ digits 7 (u "5678901") ∧ digits 1 (u "2")
  ∧ join ([] ++ [u "784"; u "1234"; u "5678901"; u "2"] ++ [u "John"; u "Smith"])
    = u "784 1234 5678901 2 John Smith"
  ∧ extract
      (join ([] ++ [u "784"; u "1234"; u "5678901"; u "2"]
               ++ [u "John"; u "Smith"])) front !! "idNumber"
    = Some (VStr (u "784-" ++ u "1234" ++ u "-" ++ u "5678901" ++ u "-" ++ u "2")).
Proof.
  assert (H4 : digits 4 (u "1234")) by (split; [reflexivity | by repeat constructor]).
  assert (H7 : digits 7 (u "5678901"))
    by (split; [reflexivity | by repeat constructor]).
  assert (H1 : digits 1 (u "2")) by (split; [reflexivity | by repeat constructor]).
  pose proof (id_number_across_boxes arabic_rows_space_is_no_digit
                [] [u "John"; u "Smith"] _ _ _ front H4 H7 H1) as P.
  cbv zeta in P. destruct P as [_ P2].
  split; [exact arabic_rows_space_is_no_digit|].
  split; [exact H4|]. split; [exact H7|]. split; [exact H1|].
  split; [reflexivity|]. exact (P2 eq_refl).
Defined.

(** * From the raw text to the verdict *)

Section Pipeline.
Context `{UnicodeData}.
Variable now : datetime.

Lemma back_side_all_strings raw_text :
  all_strings (_parse_back_side raw_text).
Proof.
  assert (Hins : ∀ k s (d : gmap string pyval),
            all_strings d → all_strings (<[k := VStr s]> d)).
  { intros k s d Hd. by apply map_Forall_insert_2. }
  unfold _parse_back_side. cbv zeta.
  unfold parse_id_number. case_match; [apply Hins|];
  (unfold parse_card_number; case_match; [apply Hins|]);
  apply map_Forall_empty.
Qed.

Lemma extract_all_strings text side : all_strings (extract text side).
Proof.
  unfold extract. case_match;
    [apply front_side_all_strings | apply back_side_all_strings].
Qed.

Lemma extract_id_number_lookup text side :
  extract text side !! "idNumber" =
  (λ m, VStr (dashed (m_text m))) <$> search false id_pattern text.
Proof.
  unfold extract. case_match;
    [apply front_side_id_number | apply back_side_id_number].
Qed.

(** The ID number of the extractor is there exactly when the text holds a
    match, and it passes the format check. *)
Lemma extract_id_accepted text side :
  (id_accepted (extract text side) ↔ occurs false id_pattern text)
  ∧ (truthy (extract text side !! "idNumber") = true
     ↔ occurs false id_pattern text)
  ∧ (extract text side !! "idNumber" = None
     ∨ id_accepted (extract text side)).
Proof.
  unfold id_accepted. rewrite extract_id_number_lookup.
  rewrite <- search_occurs.
  destruct (search false id_pattern text) as [m|] eqn:E; simpl.
  - apply search_from_sound in E as (pre & _ & HL).
    pose proof (id_number_is_accepted _ _ _ HL) as Hok.
    assert (dashed (m_text m) ≠ []) as Hne.
    { intros E%(f_equal length). rewrite dashed_length in E.
      apply length_zero_iff_nil in E. by apply id_pattern_nonempty in HL. }
    split_and!.
    + split; [by eauto | intros _; by eexists].
    + split; [by eauto|]. intros _. by destruct (dashed (m_text m)).
    + right. by eexists.
  - split_and!.
    + split; [by intros (s & ? & _) | by intros [? ?]].
    + split; [done | by intros [? ?]].
    + by left.
Qed.

(** X10: on what the extractor returns the validator never takes its exception
    path, and the format check of the ID number never fails: whatever the
    text and the sides, the only error there can be is the one of an expired
    date. *)
Theorem only_error_is_expiry (text side side' : str) :
  let data := extract text side in
  let o := validate_emirates_id now data side' in
  errors o = []
  ∨ ∃ e, data !! "expiryDate" = Some (VStr e)
         ∧ errors o = [u "Emirates ID has expired: " ++ e].
Proof.
  intros data o. subst data o.
  pose proof (extract_all_strings text side) as Hstr.
  destruct (extract_id_accepted text side) as (_ & _ & Hok).
  unfold validate_emirates_id, validate_side.
  destruct (str_eqb side' (u "front")).
  - destruct (front_side_verdict now _ Hstr) as (c & b & st & E & _ & _ & He).
    change {| st_errors := []; st_warnings := [] |} with no_lists.
    rewrite E. simpl. by apply He.
  - destruct (back_side_returns (extract text side)
                {| st_errors := []; st_warnings := [] |} Hstr)
      as (c & b & st & E).
    pose proof (back_side_keeps_errors (extract text side)
                  {| st_errors := []; st_warnings := [] |}) as Hk.
    rewrite E in *. simpl in *. by left.
Qed.

(** X11: the front side, from the text to the verdict.  The card is recognised
    exactly when the text holds a match of the ID number pattern; it is
    valid exactly when, besides, the date stored as its expiry date, if it
    can be read, is after the time of the call. *)
Theorem front_text_verdict (text : str) :
  let data := extract text front in
  let o := validate_emirates_id now data front in
  (isEmiratesID o = true ↔ occurs false id_pattern text)
  ∧ (isValid o = true
     ↔ occurs false id_pattern text ∧ ¬ expired_at now data).
Proof.
  intros data o. subst data o.
  pose proof (extract_all_strings text front) as Hstr.
  destruct (extract_id_accepted text front) as (Hid & _ & _).
  destruct (front_side_verdict now _ Hstr) as (c & b & st & E & Hb & Hexp & _).
  rewrite (validate_emirates_id_ok now _ front c b st) by done. simpl.
  rewrite <- Hid, <- Hb. split; [done|]. rewrite andb_true_iff. split.
  - intros [Hbt Hlen]. split; [done|]. apply Hexp; [done|].
    by destruct (st_errors st).
  - intros [Hbt Hnot]. split; [done|]. apply Hexp in Hnot; [|done].
    by rewrite Hnot.
Qed.

(** A side that is not the front is the back, for the extractor as for the
    validator. *)
Lemma extract_other_side text side :
  side ≠ front → extract text side = _parse_back_side text.
Proof.
  intros Hside. unfold extract. change (u "front") with front.
  by rewrite (str_eqb_neq _ _ Hside).
Qed.

(** The card number of the back side is there exactly when the text has a
    run of digits that can be one. *)
Lemma back_side_card_number_truthy text :
  truthy (_parse_back_side text !! "cardNumber") = true
  ↔ ∃ i w, card_at text i w.
Proof.
  rewrite back_side_card_number_lookup. unfold findall.
  pose proof (max_by_len_first_longest
                (finditer false card_number_pattern text)
                (finditer_from_sorted _ _ _ _ _ _)) as Hmax.
  destruct (max_by_len (snd <$> finditer false card_number_pattern text))
    as [w0|]; simpl.
  - destruct Hmax as (i0 & Hin & _). apply finditer_card_number in Hin.
    split; [by eauto|]. intros _.
    destruct Hin as (pre & t & _ & _ & Hlen & _).
    destruct w0; [simpl in Hlen; lia | done].
  - split; [done|]. intros (i & w & Hat). apply finditer_card_number in Hat.
    rewrite Hmax in Hat. by apply elem_of_nil in Hat.
Qed.

(** X12: the back side, from the text to the verdict; every side that is not
    [front] is read and validated as the back side.  The card is recognised
    and valid exactly when the text holds a run of 9 digits or more between
    word boundaries or a match of the ID number pattern; there is no error;
    the confidence is 0.3 + 0.4 with an ID number, 0.3 with a card number
    alone and 0, with the warning of the low score, with neither. *)
Theorem back_text_verdict (text side : str) :
  side ≠ front →
  let o := validate_emirates_id now (extract text side) side in
  (isValid o = true
   ↔ (∃ i w, card_at text i w) ∨ occurs false id_pattern text)
  ∧ isEmiratesID o = isValid o
  ∧ errors o = []
  ∧ (occurs false id_pattern text →
     confidence o = (0 + 0.3 + 0.4)%float ∧ warnings o = [])
  ∧ (¬ occurs false id_pattern text → (∃ i w, card_at text i w) →
     confidence o = (0 + 0.3)%float ∧ warnings o = [])
  ∧ (¬ occurs false id_pattern text → ¬ (∃ i w, card_at text i w) →
     confidence o = 0%float
     ∧ warnings o = [u "Low confidence score: 0.00"]).
Proof.
  intros Hside o. subst o.
  pose proof (extract_all_strings text side) as Hstr.
  destruct (extract_id_accepted text side) as (Hid & Hidt & _).
  pose proof (back_side_card_number_truthy text) as Hcard.
  rewrite <- (extract_other_side text side Hside) in Hcard.
  unfold validate_emirates_id, validate_side.
  change (u "front") with front. rewrite (str_eqb_neq _ _ Hside).
  destruct (back_side_cases (extract text side)
              {| st_errors := []; st_warnings := [] |} Hstr)
    as [[Ha ->] | [(s & Ei & Hs & Hb & ->) | [(Ei & Ec & ->) | (Ei & Ec & ->)]]];
    simpl.
  - apply Hid in Ha. split_and!; try done. split; [by right | done].
  - assert (id_accepted (extract text side)) as Ha.
    { apply Hid, Hidt. rewrite Ei. by destruct s. }
    destruct Ha as (s' & E' & Hok). congruence.
  - assert (¬ occurs false id_pattern text) as Hno.
    { intros Ho. apply Hidt in Ho. congruence. }
    apply Hcard in Ec. split_and!; try done. split; [by left | done].
  - assert (¬ occurs false id_pattern text) as Hno.
    { intros Ho. apply Hidt in Ho. congruence. }
    assert (¬ ∃ i w, card_at text i w) as Hnc.
    { intros Hc. apply Hcard in Hc. congruence. }
    split_and!; try done. split; [done|]. intros [?|?]; done.
Qed.

End Pipeline.

(** The back side at [glued_run], under a side that is neither [front] nor
    [back]: the run of nine digits is a card number, there is no ID number,
    and the card is valid with 0.3. *)
Lemma back_text_verdict_witness :
  u "sideways" ≠ front
  ∧ card_at glued_run 17 (u "987654321")
  ∧ isValid
      (validate_emirates_id nov_2026 (extract glued_run (u "sideways"))
         (u "sideways")) = true
  ∧ errors
      (validate_emirates_id nov_2026 (extract glued_run (u "sideways"))
         (u "sideways")) = [].
Proof.
  assert (Hside : u "sideways" ≠ front) by (vm_compute; discriminate).
  assert (Hcard : card_at glued_run 17 (u "987654321")).
  { exists (u "REF1234567890123 "), []. split; [reflexivity|].
    split; [reflexivity|]. split; [simpl; lia|].
    split; [by repeat constructor|]. split; reflexivity. }
  destruct (back_text_verdict nov_2026 glued_run (u "sideways") Hside)
    as (P1 & _ & P3 & _).
  split; [exact Hside|]. split; [exact Hcard|]. split; [|exact P3].
  apply P1. left. exists 17%nat, (u "987654321"). exact Hcard.
Defined.

(** * The checksum *)

Section Checksum.
Context `{UnicodeData}.

Lemma sum_int_digits ds acc :
  Forall (λ c, isdecimal c = true) ds →
  sum_int ds acc = Ok (acc + digit_sum ds).
Proof.
  intros Hall. revert acc.
  induction Hall as [|c ds Hc _ IH]; intros acc; simpl.
  - by rewrite N.add_0_r.
  - unfold int_char. unfold isdecimal in Hc.
    destruct (decimal_value c) as [v|]; [|done]. simpl.
    rewrite IH. f_equal. lia.
Qed.

(** The checksum of a string whose characters, dashes and white space
    apart, are fifteen digits. *)
Lemma checksum_of_digits s body c v :
  stripped s = body ++ [c] →
  digits 14 body →
  decimal_value c = Some v →
  validate_id_number_checksum (VStr s) = Ok (digit_sum body mod 10 =? v).
Proof.
  intros Es [Hlen Hall] Hc. unfold validate_id_number_checksum.
  fold (stripped s). rewrite Es.
  rewrite length_app, Hlen. simpl.
  rewrite last_snoc. simpl.
  assert (slice (body ++ [c]) 0 (-1) = body) as ->.
  { unfold slice. rewrite length_app, Hlen. simpl.
    change (take 14 (body ++ [c]) = body).
    rewrite take_app_length'; [done | by rewrite Hlen]. }
  rewrite (sum_int_digits _ _ Hall). unfold int_char. rewrite Hc.
  by rewrite N.add_0_l.
Qed.

Lemma digit_sum_app a b : digit_sum (a ++ b) = digit_sum a + digit_sum b.
Proof.
  unfold digit_sum. induction a as [|x a IH]; simpl; [done|].
  rewrite IH. lia.
Qed.

Lemma digit_sum_perm a b : a ≡ₚ b → digit_sum a = digit_sum b.
Proof.
  unfold digit_sum. induction 1; simpl; try lia; congruence.
Qed.

Lemma digit_sum_insert body i x y vx vy :
  body !! i = Some y →
  decimal_value y = Some vy → decimal_value x = Some vx →
  digit_sum (<[i := x]> body) + vy = digit_sum body + vx.
Proof.
  revert i. induction body as [|b body IH]; intros [|i]; simpl; try done.
  - intros [= ->] -> ->. simpl. lia.
  - intros Hy Hvy Hvx. specialize (IH i Hy Hvy Hvx).
    unfold digit_sum in *. simpl. lia.
Qed.

Lemma digits_insert n l i x :
  digits n l → isdecimal x = true → digits n (<[i := x]> l).
Proof.
  intros [Hlen Hall] Hx. split; [by rewrite length_insert|].
  by apply Forall_insert.
Qed.

(** X13: among the fifteen digits that [validate_id_number_checksum] reads
    (dashes and white space are dropped), a change of one digit into a digit
    of another value is always detected: if the original passes, the changed
    string fails.  In particular, fourteen digits have one check digit
    value. *)
Theorem checksum_detects_a_wrong_digit
    (s s' l : str) (i : nat) (x y vx vy : N) :
  (∀ c v, decimal_value c = Some v → v < 10) →
  stripped s = l →
  stripped s' = <[i := x]> l →
  digits 15 l →
  l !! i = Some y →
  decimal_value y = Some vy →
  decimal_value x = Some vx →
  vx ≠ vy →
  validate_id_number_checksum (VStr s) = Ok true →
  validate_id_number_checksum (VStr s') = Ok false.
Proof.
  intros Hten Es Es' Hl Hy Hvy Hvx Hne.
  assert (isdecimal x = true) as Hx by (unfold isdecimal; by rewrite Hvx).
  destruct Hl as [Hlen Hall].
  destruct l as [|c body _] using rev_ind; [done|].
  rewrite length_app in Hlen. simpl in Hlen.
  apply Forall_app in Hall as [Hbody Hc].
  inversion Hc as [|? ? Hc' _]; subst. unfold isdecimal in Hc'.
  destruct (decimal_value c) as [vc|] eqn:Evc; [|done].
  assert (digits 14 body) as Hb by (split; [lia | done]).
  rewrite (checksum_of_digits s body c vc Es Hb Evc).
  intros [= Hok%N.eqb_eq].
  destruct (decide (i < length body)%nat) as [Hi|Hi].
  - rewrite insert_app_l in Es' by done.
    rewrite lookup_app_l in Hy by done.
    rewrite (checksum_of_digits s' (<[i := x]> body) c vc Es'
               (digits_insert _ _ _ _ Hb Hx) Evc).
    f_equal. apply N.eqb_neq. intros Hok'.
    pose proof (digit_sum_insert body i x y vx vy Hy Hvy Hvx) as Hsum.
    pose proof (Hten _ _ Hvx). pose proof (Hten _ _ Hvy).
    pose proof (N.div_mod' (digit_sum body) 10) as D1.
    pose proof (N.div_mod' (digit_sum (<[i := x]> body)) 10) as D2.
    rewrite Hok in D1. rewrite Hok' in D2. lia.
  - assert (i = length body) as ->.
    { apply lookup_lt_Some in Hy. rewrite length_app in Hy. simpl in Hy. lia. }
    rewrite lookup_app_r, Nat.sub_diag in Hy by done.
    injection Hy as <-.
    rewrite insert_app_r_alt, Nat.sub_diag in Es' by done. simpl in Es'.
    rewrite (checksum_of_digits s' body x vx Es' Hb Hvx).
    f_equal. apply N.eqb_neq. congruence.
Qed.

(** X14: the checksum does not see the order of the first fourteen digits: two
    strings whose digits before the last are a rearrangement of one another
    (two digits exchanged, say), with the same last digit, get the same
    answer. *)
Theorem checksum_is_blind_to_order (s s' body body' : str) (c v : N) :
  stripped s = body ++ [c] →
  stripped s' = body' ++ [c] →
  digits 14 body →
  body ≡ₚ body' →
  decimal_value c = Some v →
  validate_id_number_checksum (VStr s) = validate_id_number_checksum (VStr s').
Proof.
  intros Es Es' Hb Hperm Hc.
  assert (digits 14 body') as Hb'.
  { destruct Hb as [Hlen Hall]. split; [by rewrite <- Hperm|].
    by rewrite <- Hperm. }
  rewrite (checksum_of_digits s body c v Es Hb Hc).
  rewrite (checksum_of_digits s' body' c v Es' Hb' Hc).
  by rewrite (digit_sum_perm _ _ Hperm).
Qed.

End Checksum.

(** The detection at [summed_id] and [one_wrong_digit]: the digit at index 3
    is 9 where it was 1. *)
Lemma checksum_detects_a_wrong_digit_witness :
  (∀ c v, decimal_value c = Some v → v < 10)
  ∧ stripped summed_id = u "784123456789015"
  ∧ stripped one_wrong_digit = <[3%nat := ch "9"]> (u "784123456789015")
  ∧ digits 15 (u "784123456789015")
  ∧ u "784123456789015" !! 3%nat = Some (ch "1")
  ∧ decimal_value (ch "1") = Some 1
  ∧ decimal_value (ch "9") = Some 9
  ∧ validate_id_number_checksum (VStr summed_id) = Ok true
  ∧ validate_id_number_checksum (VStr one_wrong_digit) = Ok false.
Proof.
  assert (Hl : digits 15 (u "784123456789015"))
    by (split; [reflexivity | by repeat constructor]).
  assert (Hok : validate_id_number_checksum (VStr summed_id) = Ok true)
    by (vm_compute; reflexivity).
  assert (Hne : (9 : N) ≠ 1) by discriminate.
  pose proof (checksum_detects_a_wrong_digit summed_id one_wrong_digit
                (u "784123456789015") 3 (ch "9") (ch "1") 9 1
                arabic_rows_digit_below_10 eq_refl eq_refl Hl eq_refl
                eq_refl eq_refl Hne Hok) as P.
  split; [exact arabic_rows_digit_below_10|].
  split; [reflexivity|]. split; [reflexivity|]. split; [exact Hl|].
  split; [reflexivity|]. split; [reflexivity|]. split; [reflexivity|].
  split; [exact Hok | exact P].
Defined.

(** The blindness at [summed_id] and [two_exchanged]: the digits at indices 3
    and 4 are exchanged, and both strings pass. *)
Lemma checksum_is_blind_to_order_witness :
  stripped summed_id = u "78412345678901" ++ [ch "5"]
  ∧ stripped two_exchanged = u "78421345678901" ++ [ch "5"]
  ∧ digits 14 (u "78412345678901")
  ∧ u "78412345678901" ≡ₚ u "78421345678901"
  ∧ decimal_value (ch "5") = Some 5
  ∧ validate_id_number_checksum (VStr summed_id)
    = validate_id_number_checksum (VStr two_exchanged)
  ∧ validate_id_number_checksum (VStr two_exchanged) = Ok true.
Proof.
  assert (Hb : digits 14 (u "78412345678901"))
    by (split; [reflexivity | by repeat constructor]).
  assert (Hp : u "78412345678901" ≡ₚ u "78421345678901").
  { change (u "78412345678901")
      with ([55; 56; 52] ++ 49 :: 50 :: u "345678901").
    change (u "78421345678901")
      with ([55; 56; 52] ++ 50 :: 49 :: u "345678901").
    apply Permutation_app_head, perm_swap. }
  pose proof (checksum_is_blind_to_order summed_id two_exchanged
                (u "78412345678901") (u "78421345678901") (ch "5") 5
                eq_refl eq_refl Hb Hp eq_refl) as P.
  split; [reflexivity|]. split; [reflexivity|]. split; [exact Hb|].
  split; [exact Hp|]. split; [reflexivity|]. split; [exact P|].
  vm_compute. reflexivity.
Defined.

Section ChecksumOfFormat.
Context `{UnicodeData}.

Hypothesis space_is_no_digit : ∀ c, isspace c = true → isdecimal c = false.

Lemma stripped_app a b : stripped (a ++ b) = stripped a ++ stripped b.
Proof. unfold stripped, remove_class. apply List.filter_app. Qed.

Lemma stripped_digits d :
  Forall (λ c, isdecimal c = true) d → stripped d = d.
Proof using All.
  intros Hall. unfold stripped, remove_class.
  induction Hall as [|c d Hc _ IH]; cbn [List.filter]; [done|].
  rewrite set_has_id_sep.
  destruct (id_sep_char c) eqn:E.
  - apply (sep_is_no_digit space_is_no_digit) in E. congruence.
  - cbn [negb]. by rewrite IH.
Qed.

Lemma stripped_seps s :
  Forall (λ c, id_sep_char c = true) s → stripped s = [].
Proof.
  intros Hall. unfold stripped, remove_class.
  induction Hall as [|c d Hc _ IH]; cbn [List.filter]; [done|].
  by rewrite set_has_id_sep, Hc.
Qed.

(** The digits of a string of the format. *)
Lemma stripped_id_shaped w :
  id_shaped w →
  ∃ d4 d7 c v,
    stripped w = (u "784" ++ d4 ++ d7) ++ [c]
    ∧ digits 4 d4 ∧ digits 7 d7 ∧ decimal_value c = Some v.
Proof using All.
  intros (s1 & d4 & s2 & d7 & s3 & d1 & -> & [_ H1] & H2 & [_ H3] & H4
          & [_ H5] & [Hlen H6]).
  destruct d1 as [|c [|? ?]]; try done.
  inversion H6 as [|? ? Hc _]; subst.
  unfold isdecimal in Hc. destruct (decimal_value c) as [v|] eqn:Ev; [|done].
  exists d4, d7, c, v. split_and!; try done.
  rewrite !stripped_app.
  rewrite (stripped_seps _ H1), (stripped_seps _ H3), (stripped_seps _ H5).
  rewrite (stripped_digits d4) by apply H2.
  rewrite (stripped_digits d7) by apply H4.
  rewrite (stripped_digits [c]) by done.
  change (stripped (u "784")) with (u "784").
  by rewrite !app_nil_l, <- !app_assoc.
Qed.

(** X15: on an ID number that [validate_id_number_format] accepts, the checksum
    is decided by the digits alone: dashes, white space and the newline at
    the end are dropped, what is left is 784 and twelve more digits, and the
    answer is whether the sum of the first fourteen, modulo 10, is the
    fifteenth.  Neither the test of the length nor [int] rejects it. *)
Theorem checksum_of_an_accepted_id (s : str) :
  validate_id_number_format (VStr s) = Ok true →
  ∃ d4 d7 c v,
    stripped s = u "784" ++ d4 ++ d7 ++ [c]
    ∧ digits 4 d4 ∧ digits 7 d7 ∧ decimal_value c = Some v
    ∧ validate_id_number_checksum (VStr s) =
        Ok (digit_sum (u "784" ++ d4 ++ d7) mod 10 =? v).
Proof using All.
  intros Hok%accepted_is_shaped.
  assert (∃ w, stripped s = stripped w ∧ id_shaped w) as (w & Es & Hw).
  { destruct Hok as [Hs | (w & -> & Hw)]; [by exists s|].
    exists w. split; [|done]. rewrite stripped_app.
    change (stripped [10]) with (@nil N). by rewrite app_nil_r. }
  destruct (stripped_id_shaped w Hw) as (d4 & d7 & c & v & E & H4 & H7 & Hv).
  rewrite <- Es in E.
  exists d4, d7, c, v. split_and!; try done.
  - by rewrite E, <- !app_assoc.
  - apply (checksum_of_digits s _ c v E); [|done].
    destruct H4 as [L4 A4], H7 as [L7 A7]. split.
    + rewrite !length_app, L4, L7. done.
    + apply Forall_app. split; [by repeat constructor|].
      by apply Forall_app.
Qed.

End ChecksumOfFormat.

(** The checksum of the documented example: the format check accepts it, and
    its digits add up to 65, whose last digit is not 2. *)
Lemma checksum_of_an_accepted_id_witness :
  (∀ c, isspace c = true → isdecimal c = false)
  ∧ validate_id_number_format (VStr (u "784-1234-5678901-2")) = Ok true
  ∧ (∃ d4 d7 c v,
       stripped (u "784-1234-5678901-2") = u "784" ++ d4 ++ d7 ++ [c]
       ∧ digits 4 d4 ∧ digits 7 d7 ∧ decimal_value c = Some v
       ∧ validate_id_number_checksum (VStr (u "784-1234-5678901-2")) =
           Ok (digit_sum (u "784" ++ d4 ++ d7) mod 10 =? v))
  ∧ validate_id_number_checksum (VStr (u "784-1234-5678901-2")) = Ok false.
Proof.
  assert (Hok : validate_id_number_format (VStr (u "784-1234-5678901-2"))
                = Ok true) by (vm_compute; reflexivity).
  split; [exact arabic_rows_space_is_no_digit|]. split; [exact Hok|].
  split; [|vm_compute; reflexivity].
  exact (checksum_of_an_accepted_id arabic_rows_space_is_no_digit
           (u "784-1234-5678901-2") Hok).
Defined.

(** * Substrings *)

Lemma starts_with_spec p s :
  starts_with p s = true ↔ ∃ post, s = p ++ post.
Proof.
  revert s. induction p as [|a p IH]; intros s; simpl.
  - split; [by eauto | done].
  - destruct s as [|b s].
    + split; [done | by intros [? ?]].
    + rewrite andb_true_iff, N.eqb_eq, IH. split.
      * intros [-> [post ->]]. by exists post.
      * intros [post [= -> ->]]. eauto.
Qed.

Lemma contains_spec sub s :
  contains sub s = true ↔ ∃ pre post, s = pre ++ sub ++ post.
Proof.
  induction s as [|c s IH]; simpl.
  - rewrite orb_false_r, starts_with_spec. split.
    + intros [post E]. by exists [], post.
    + intros (pre & post & E). symmetry in E.
      apply app_eq_nil in E as [-> E]. eauto.
  - rewrite orb_true_iff, starts_with_spec, IH. split.
    + intros [[post E] | (pre & post & ->)].
      * by exists [], post.
      * by exists (c :: pre), post.
    + intros ([|x pre] & post & E); simpl in E.
      * left. eauto.
      * injection E as -> ->. right. eauto.
Qed.

Lemma contains_slice sub s lo hi :
  contains sub (slice s lo hi) = true → contains sub s = true.
Proof.
  rewrite !contains_spec. unfold slice.
  intros (pre & post & E).
  set (n := Z.to_nat lo) in *.
  set (k := Z.to_nat _) in E.
  exists (take n s ++ pre), (post ++ drop k (drop n s)).
  rewrite <- (take_drop n s) at 1.
  rewrite <- (take_drop k (drop n s)) at 1.
  rewrite E. by rewrite <- !app_assoc.
Qed.

Lemma contains_longer sub ext s :
  contains (sub ++ ext) s = true → contains sub s = true.
Proof.
  rewrite !contains_spec. intros (pre & post & ->).
  exists pre, (ext ++ post). by rewrite <- app_assoc.
Qed.

(** * The dates *)

Section DateShape.
Context `{UnicodeData}.

Lemma set_has_date_sep c :
  set_has false [CLit (ch "/"); CLit (ch "-")] c = date_sep_char c.
Proof.
  unfold date_sep_char. simpl. unfold char_eq.
  by destruct (c =? ch "/"), (c =? ch "-").
Qed.

Lemma lang_one_or_two_digits ic p w t :
  lang ic (RRep 1 (Some 2%nat) digit) p w t ↔ one_or_two_digits w.
Proof.
  unfold digit, one_or_two_digits.
  change (lang ic (RRep 1 (Some 2%nat) ?r) p w t)
    with (iter (lang ic r) 1 (Some 2%nat) p w t).
  rewrite iter_set_bounded. split.
  - intros [Hlen Hall]. split; [lia|].
    eapply Forall_impl; [done|]. intros c. cbv beta. by rewrite set_has_digit.
  - intros [Hlen Hall]. split; [lia|].
    eapply Forall_impl; [done|]. intros c. cbv beta. by rewrite set_has_digit.
Qed.

Lemma lang_date_sep p w t :
  lang false date_sep p w t ↔ ∃ c, w = [c] ∧ date_sep_char c = true.
Proof.
  unfold date_sep. simpl lang. by setoid_rewrite set_has_date_sep.
Qed.

(** The words of the date pattern. *)
Lemma lang_date_pattern p w t : lang false date_pattern p w t ↔ date_shaped w.
Proof.
  unfold date_pattern, date_shaped. split.
  - intros HL.
    apply lang_seq_cons in HL as (d & r0 & -> & H0%lang_one_or_two_digits & HL).
    apply lang_seq_cons in HL
      as (x1 & r1 & -> & (s1 & -> & H1)%lang_date_sep & HL).
    apply lang_seq_cons in HL as (m & r2 & -> & H2%lang_one_or_two_digits & HL).
    apply lang_seq_cons in HL
      as (x2 & r3 & -> & (s2 & -> & H3)%lang_date_sep & HL).
    apply lang_seq_cons in HL as (y & r4 & -> & H4%lang_times_digit & HL).
    simpl in HL. subst. rewrite app_nil_r.
    by exists d, s1, m, s2, y.
  - intros (d & s1 & m & s2 & y & -> & H0 & H1 & H2 & H3 & H4).
    apply lang_seq_cons. eexists _, _. split; [done|].
    split; [by apply lang_one_or_two_digits|].
    apply lang_seq_cons. eexists _, _. split; [done|].
    split; [apply lang_date_sep; by eauto|].
    apply lang_seq_cons. eexists _, _. split; [done|].
    split; [by apply lang_one_or_two_digits|].
    apply lang_seq_cons. eexists _, _. split; [done|].
    split; [apply lang_date_sep; by eauto|].
    apply lang_seq_cons. exists y, []. split; [by rewrite app_nil_r|].
    split; [by apply lang_times_digit|]. done.
Qed.

(** What [re.findall] returns are words of the pattern. *)
Lemma findall_lang ic r text w :
  w ∈ findall ic r text →
  ∃ pre t, text = pre ++ w ++ t ∧ lang ic r (lastc None pre) w t.
Proof.
  unfold findall, finditer. intros ([i w'] & -> & Hin)%list_elem_of_fmap.
  apply finditer_from_sound in Hin as (pre & t & E & _ & HL). eauto.
Qed.

Lemma findall_date_shaped text d :
  d ∈ findall false date_pattern text → date_shaped d.
Proof.
  intros (pre & t & _ & HL)%findall_lang. by apply lang_date_pattern in HL.
Qed.

End DateShape.

Ltac in_list := repeat (apply elem_of_cons; first [by left | right]).

Section ExtractDates.
Context `{UnicodeData}.

(** X16: what [extract_dates] returns.  A key is one of [dateOfBirth],
    [expiryDate] and [issueDate]; its value is one of the dates found in the
    text, of the form of the date pattern; and the lower-cased text holds a
    keyword of the key ([birth], [dob] or [born]; [exp] or [valid];
    [issue]).  A text without any of these words gives no date. *)
Theorem extract_dates_by_keyword (text : str) (key : string) (date : str) :
  extract_dates text !! key = Some date →
  date ∈ findall false date_pattern text
  ∧ date_shaped date
  ∧ ∃ kw, kw ∈ date_keywords key ∧ contains (u kw) (lower text) = true.
Proof.
  unfold extract_dates.
  set (found := findall false date_pattern text).
  set (Q := λ (k : string) (v : str),
         v ∈ found
         ∧ ∃ kw, kw ∈ date_keywords k ∧ contains (u kw) (lower text) = true).
  enough (Hinv : ∀ l (acc : gmap string str),
            (∀ d, d ∈ l → d ∈ found) →
            (∀ k v, acc !! k = Some v → Q k v) →
            ∀ k v,
              foldl (λ (dates : gmap string str) date_str,
                let date_pos := find (lower text) date_str in
                let context :=
                  slice (lower text) (Z.max 0 (date_pos - 20)) (date_pos + 20) in
                if contains (u "birth") context || contains (u "dob") context
                   || contains (u "born") context
                then <["dateOfBirth" := date_str]> dates
                else if contains (u "expiry") context
                        || contains (u "exp") context
                        || contains (u "valid") context
                then <["expiryDate" := date_str]> dates
                else if contains (u "issue") context
                        || contains (u "issued") context
                then <["issueDate" := date_str]> dates
                else dates) acc l !! k = Some v → Q k v).
  { intros Hk. destruct (Hinv found ∅) with (k := key) (v := date)
      as [Hin Hkw]; [done | by intros ? ? ?%lookup_empty_Some | done |].
    split_and!; [done | by eapply findall_date_shaped | done]. }
  induction l as [|d l IH]; intros acc Hl Hacc k v; simpl; [by apply Hacc|].
  apply IH; [intros d' Hd'; apply Hl; by right|].
  clear k v. intros k v.
  assert (Hd : d ∈ found) by (apply Hl; by left).
  set (ctx := slice (lower text) _ _).
  assert (Hctx : ∀ kw, contains kw ctx = true → contains kw (lower text) = true)
    by (intros kw; apply contains_slice).
  assert (Hput : ∀ key' kws k' v',
            date_keywords key' = kws →
            (∃ kw, kw ∈ kws ∧ contains (u kw) ctx = true) →
            <[key' := d]> acc !! k' = Some v' → Q k' v').
  { intros key' kws k' v' Ekws (kw & Hkw & Hc).
    intros [[<- <-] | [_ Hold]]%lookup_insert_Some; [|by apply Hacc].
    split; [done|]. exists kw. rewrite Ekws. auto. }
  destruct (contains (u "birth") ctx || contains (u "dob") ctx
            || contains (u "born") ctx) eqn:E1.
  { apply (Hput "dateOfBirth"%string _ k v eq_refl).
    apply orb_true_iff in E1 as [E1 | E1];
      [apply orb_true_iff in E1 as [E1 | E1]|].
    - exists "birth"%string. split; [in_list | done].
    - exists "dob"%string. split; [in_list | done].
    - exists "born"%string. split; [in_list | done]. }
  destruct (contains (u "expiry") ctx || contains (u "exp") ctx
            || contains (u "valid") ctx) eqn:E2.
  { apply (Hput "expiryDate"%string _ k v eq_refl).
    apply orb_true_iff in E2 as [E2 | E2];
      [apply orb_true_iff in E2 as [E2 | E2]|].
    - exists "exp"%string. split; [in_list|].
      by apply (contains_longer (u "exp") (u "iry")).
    - exists "exp"%string. split; [in_list | done].
    - exists "valid"%string. split; [in_list | done]. }
  destruct (contains (u "issue") ctx || contains (u "issued") ctx) eqn:E3.
  { apply (Hput "issueDate"%string _ k v eq_refl).
    apply orb_true_iff in E3 as [E3 | E3].
    - exists "issue"%string. split; [in_list | done].
    - exists "issue"%string. split; [in_list|].
      by apply (contains_longer (u "issue") (u "d")). }
  apply Hacc.
Qed.

End ExtractDates.

(** [extract_dates] at [card_without_expiry]: the date is stored as the date
    of birth, and the text holds [birth]. *)
Lemma extract_dates_by_keyword_witness :
  extract_dates card_without_expiry !! "dateOfBirth" = Some (u "15/01/1990")
  ∧ u "15/01/1990" ∈ findall false date_pattern card_without_expiry
  ∧ date_shaped (u "15/01/1990")
  ∧ contains (u "birth") (lower card_without_expiry) = true.
Proof.
  assert (E : extract_dates card_without_expiry !! "dateOfBirth"
              = Some (u "15/01/1990")) by (vm_compute; reflexivity).
  destruct (extract_dates_by_keyword card_without_expiry "dateOfBirth"
              (u "15/01/1990") E) as (P1 & P2 & _).
  split; [exact E|]. split; [exact P1|]. split; [exact P2|].
  vm_compute. reflexivity.
Defined.

(** * The fields of the parsers *)

Lemma lstrip_spec s :
  ∃ l, s = l ++ lstrip s
       ∧ Forall (λ c, isspace c = true) l
       ∧ ∀ c, head (lstrip s) = Some c → isspace c = false.
Proof.
  induction s as [|x s (l & E & Hl & Hh)]; simpl.
  - exists []. by split_and!.
  - destruct (isspace x) eqn:Ex.
    + exists (x :: l). split_and!; [by rewrite E at 1 | by constructor | done].
    + exists []. split_and!; [done | done |]. by intros c [= <-].
Qed.

Lemma last_rev_head (l : str) : last (rev l) = head l.
Proof. destruct l as [|x l]; [done|]. simpl. by rewrite last_snoc. Qed.

Lemma strip_spec s :
  ∃ l r, s = l ++ strip s ++ r
         ∧ (∀ c, head (strip s) = Some c → isspace c = false)
         ∧ (∀ c, last (strip s) = Some c → isspace c = false).
Proof.
  unfold strip.
  destruct (lstrip_spec s) as (l & E & _ & Hh).
  destruct (lstrip_spec (rev (lstrip s))) as (r & E' & _ & Hh').
  apply (f_equal (@rev N)) in E'. rewrite rev_involutive, rev_app_distr in E'.
  exists l, (rev r). split_and!.
  - by rewrite <- E'.
  - intros c Hc. apply Hh. rewrite E'.
    destruct (rev (lstrip (rev (lstrip s)))); [done|]. done.
  - intros c Hc. apply Hh'. by rewrite last_rev_head in Hc.
Qed.

Lemma foldl_longer_elem t b : foldl longer b t ∈ b :: t.
Proof.
  revert b. induction t as [|y t IH]; intros b; simpl; [by left|].
  specialize (IH (longer b y)). unfold longer in *.
  destruct (length b <? length y)%nat.
  - by right.
  - apply elem_of_cons in IH as [-> | IH]; [by left | by do 2 right].
Qed.

Lemma max_by_len_elem l x : max_by_len l = Some x → x ∈ l.
Proof.
  destruct l as [|b t]; [done|]. intros [= <-]. apply foldl_longer_elem.
Qed.

Section Fields.
Context `{UnicodeData}.

(** Each block stores its own key, with a value of its form, and leaves the
    other keys as they are. *)
Lemma parse_id_number_field text D key v :
  parse_id_number text D !! key = Some v →
  (∃ s, v = VStr s ∧ key = "idNumber"%string ∧ id_shaped s ∧ ch " " ∉ s)
  ∨ D !! key = Some v.
Proof.
  unfold parse_id_number.
  destruct (search false id_pattern text) as [m|] eqn:E; [|by right].
  intros [[<- <-] | [_ ?]]%lookup_insert_Some; [|by right].
  left. eexists. split; [done|]. split; [done|].
  apply search_from_sound in E as (pre & _ & HL).
  fold (dashed (m_text m)). split; [|apply dashed_no_space].
  by apply id_shaped_dashed, (lang_id_pattern (lastc None pre) _ (m_rest m)).
Qed.

Lemma parse_dates_field text D key v :
  parse_dates text D !! key = Some v →
  (∃ s, v = VStr s
        ∧ (key = "dateOfBirth"%string ∨ key = "expiryDate"%string)
        ∧ date_shaped s)
  ∨ D !! key = Some v.
Proof.
  unfold parse_dates.
  pose proof (findall_date_shaped text) as Hall.
  destruct (findall false date_pattern text) as [|d0 [|d1 rest]].
  - by right.
  - assert (date_shaped d0) by (apply Hall; by left).
    case_match; (intros [[<- <-] | [_ ?]]%lookup_insert_Some; [|by right]);
      left; eexists; eauto.
  - assert (date_shaped d0) by (apply Hall; by left).
    assert (date_shaped d1) by (apply Hall; right; by left).
    intros [[<- <-] | [_ Hk]]%lookup_insert_Some; [left; eexists; eauto|].
    apply lookup_insert_Some in Hk as [[<- <-] | [_ ?]]; [|by right].
    left; eexists; eauto.
Qed.

Lemma parse_name_field text D key v :
  parse_name text D !! key = Some v →
  (∃ s, v = VStr s ∧ key = "name"%string) ∨ D !! key = Some v.
Proof.
  unfold parse_name. case_match; [|by right].
  intros [[<- <-] | [_ ?]]%lookup_insert_Some; [|by right]. left. eauto.
Qed.

Lemma set_has_arabic c :
  set_has false [CRange 1536 1791; CSpace] c = arabic_letter c || isspace c.
Proof.
  unfold arabic_letter. simpl. unfold range_has. simpl.
  by rewrite !orb_false_r.
Qed.

Lemma parse_arabic_name_field text D key v :
  parse_arabic_name text D !! key = Some v →
  (∃ s, v = VStr s ∧ key = "nameArabic"%string ∧ arabic_name_shaped s)
  ∨ D !! key = Some v.
Proof.
  unfold parse_arabic_name.
  destruct (max_by_len (findall false arabic_pattern text)) as [longest|] eqn:E;
    [|by right].
  cbv zeta. destruct (3 <? length (strip longest))%nat eqn:Elen; [|by right].
  intros [[<- <-] | [_ ?]]%lookup_insert_Some; [|by right].
  left. eexists. split; [done|]. split; [done|].
  apply Nat.ltb_lt in Elen.
  apply max_by_len_elem, findall_lang in E as (pre & t & _ & HL).
  unfold arabic_pattern, plus in HL.
  change (iter (lang false (RSet [CRange 1536 1791; CSpace])) 1 None
            (lastc None pre) longest t) in HL.
  apply iter_set in HL as [_ Hall].
  destruct (strip_spec longest) as (l & r & Es & Hhead & Hlast).
  rewrite Es in Hall. apply Forall_app in Hall as [_ Hall].
  apply Forall_app in Hall as [Hall _].
  assert (Hall' : Forall (λ c, arabic_letter c || isspace c = true)
                    (strip longest)).
  { eapply Forall_impl; [done|]. intros c. cbv beta. by rewrite set_has_arabic. }
  split_and!; [done | done | |].
  - destruct (strip longest) as [|c s] eqn:Est; [simpl in Elen; lia|].
    exists c. split; [done|]. inversion Hall' as [|? ? Hc _]; subst.
    rewrite (Hhead c eq_refl) in Hc. by rewrite orb_false_r in Hc.
  - destruct (last (strip longest)) as [c|] eqn:El.
    + exists c. split; [done|].
      assert (arabic_letter c || isspace c = true) as Hc.
      { apply (proj1 (Forall_forall _ _) Hall').
        apply last_Some in El as [l' ->]. apply elem_of_app. right. by left. }
      rewrite (Hlast c eq_refl) in Hc. by rewrite orb_false_r in Hc.
    + apply last_None in El. rewrite El in Elen. simpl in Elen. lia.
Qed.

Lemma first_keyword_elem keywords text keyword :
  first_keyword keywords text = Some keyword → keyword ∈ keywords.
Proof.
  induction keywords as [|k keywords IH]; simpl; [done|].
  case_match; [intros [= <-]; by left | intros ?; right; auto].
Qed.

Lemma parse_nationality_field text D key v :
  parse_nationality text D !! key = Some v →
  (∃ s, v = VStr s ∧ key = "nationality"%string
        ∧ ∃ keyword, keyword ∈ nationality_keywords ∧ s = u keyword)
  ∨ D !! key = Some v.
Proof.
  unfold parse_nationality.
  destruct (first_keyword nationality_keywords text) as [k|] eqn:E;
    [|by right].
  intros [[<- <-] | [_ ?]]%lookup_insert_Some; [|by right].
  left. eexists. split_and!; [done | done |].
  exists k. split; [by eapply first_keyword_elem | done].
Qed.

Lemma parse_gender_field text D key v :
  parse_gender text D !! key = Some v →
  (∃ s, v = VStr s ∧ key = "gender"%string
        ∧ (s = u "Male" ∨ s = u "Female"))
  ∨ D !! key = Some v.
Proof.
  unfold parse_gender. repeat case_match; [| |by right];
    (intros [[<- <-] | [_ ?]]%lookup_insert_Some; [|by right]);
    left; eexists; eauto.
Qed.

Lemma parse_issue_date_field text D key v :
  parse_issue_date text D !! key = Some v →
  (∃ s, v = VStr s ∧ key = "issueDate"%string) ∨ D !! key = Some v.
Proof.
  unfold parse_issue_date. case_match; [|by right].
  intros [[<- <-] | [_ ?]]%lookup_insert_Some; [|by right]. left. eauto.
Qed.

Lemma parse_card_number_field text D key v :
  parse_card_number text D !! key = Some v →
  (∃ s, v = VStr s ∧ key = "cardNumber"%string
        ∧ (9 ≤ length s)%nat ∧ Forall (λ c, isdecimal c = true) s)
  ∨ D !! key = Some v.
Proof.
  unfold parse_card_number.
  destruct (max_by_len (findall false card_number_pattern text))
    as [longest|] eqn:E; [|by right].
  intros [[<- <-] | [_ ?]]%lookup_insert_Some; [|by right].
  left. eexists. split; [done|]. split; [done|].
  apply max_by_len_elem, findall_lang in E as (pre & t & _ & HL).
  apply lang_card_number in HL. unfold card_run in HL.
  destruct HL as (Hlen & Hall & _). done.
Qed.

(** X17: the fields of the extracted dictionary.  Every value is a string; on
    the front side the keys are among the eight of the parser, the ID
    number has the documented format and no space, the two dates have the
    form of the date pattern, the Arabic name has more than three
    characters, all letters of the Arabic block or white space, with a
    letter at both ends, the nationality is one of the six keywords and the
    gender is [Male] or [Female]; on the back side there is nothing but a
    card number of nine digits or more and an ID number.  No card number is
    ever stored for the front side, no date and no name for the back. *)
Theorem extracted_fields_have_their_form
    (text side : str) (key : string) (v : pyval) :
  extract text side !! key = Some v →
  ∃ s, v = VStr s
       ∧ if str_eqb side (u "front") then front_field key s
         else back_field key s.
Proof.
  unfold extract. destruct (str_eqb side (u "front")).
  - unfold _parse_front_side. cbv zeta. unfold front_field.
    intros [(s & -> & ->) | Hk]%parse_issue_date_field;
      [exists s; by auto 10|].
    apply parse_gender_field in Hk as [(s & -> & -> & ?) | Hk];
      [exists s; by auto 10|].
    apply parse_nationality_field in Hk as [(s & -> & -> & ?) | Hk];
      [exists s; by auto 10|].
    apply parse_arabic_name_field in Hk as [(s & -> & -> & ?) | Hk];
      [exists s; by auto 10|].
    apply parse_name_field in Hk as [(s & -> & ->) | Hk];
      [exists s; by auto 10|].
    apply parse_dates_field in Hk as [(s & -> & ? & ?) | Hk];
      [exists s; by auto 10|].
    apply parse_id_number_field in Hk as [(s & -> & -> & ? & ?) | Hk];
      [exists s; by auto 10|].
    by apply lookup_empty_Some in Hk.
  - unfold _parse_back_side. cbv zeta. unfold back_field.
    intros [(s & -> & -> & ? & ?) | Hk]%parse_id_number_field;
      [exists s; by auto 10|].
    apply parse_card_number_field in Hk as [(s & -> & -> & ? & ?) | Hk];
      [exists s; by auto 10|].
    by apply lookup_empty_Some in Hk.
Qed.

End Fields.

(** The fields at [arabic_card]: the Arabic name is the longest run, without
    the white space around it. *)
Lemma extracted_fields_have_their_form_witness :
  extract arabic_card front !! "nameArabic" = Some (VStr (u "محمد أحمد"))
  ∧ ∃ s, VStr (u "محمد أحمد") = VStr s
         ∧ if str_eqb front (u "front") then front_field "nameArabic" s
           else back_field "nameArabic" s.
Proof.
  assert (E : extract arabic_card front !! "nameArabic"
              = Some (VStr (u "محمد أحمد"))) by (vm_compute; reflexivity).
  split; [exact E|].
  exact (extracted_fields_have_their_form arabic_card front "nameArabic" _ E).
Defined.
